(** * AI visibility tracker: the response-analysis pipeline

    A shallow embedding of the TypeScript sources of the tracker
    (prompt templates, provider dispatch, citation extraction, brand-mention
    analysis, the visibility score and the mention upsert) together with the
    properties established about them.

    Conventions.
    - A JavaScript string is a [string]; the development covers ASCII text,
      one [ascii] per UTF-16 code unit.
    - A thrown exception is a value of type [exn]; a function that may throw
      returns a [Result].
    - Asynchronous code that touches the network, the database or the
      console runs in the state-and-exception monad [M] over a [World]. *)

From Stdlib Require Import ZArith Lia Ascii String List Bool.
From Stdlib Require SpecFloat.
From stdpp Require Import base option list strings gmap.

Local Open Scope string_scope.
Local Open Scope nat_scope.

(** ** Exceptions *)

Inductive exn : Type :=
| JsError (message : string)          (* [new Error(message)] *)
| RegExpSyntaxError (pattern : string) (* thrown by [new RegExp(pattern)] *)
| DriverError (message : string).     (* raised by the database driver *)

Definition Result (A : Type) : Type := (exn + A)%type.

Abbreviation Ok a := (inr a) (only parsing).
Abbreviation Throw e := (inl e) (only parsing).

Definition rbind {A B} (r : Result A) (f : A -> Result B) : Result B :=
  match r with
  | inl e => inl e
  | inr a => f a
  end.

(** [Array.prototype.forEach] / [map] with a callback that may throw: the
    first exception aborts the traversal. *)
Fixpoint mapR {A B} (f : A -> Result B) (l : list A) : Result (list B) :=
  match l with
  | [] => Ok []
  | x :: l' =>
      rbind (f x) (fun y => rbind (mapR f l') (fun ys => Ok (y :: ys)))
  end.

(** ** JavaScript string primitives *)

Module JsString.

Definition code (c : ascii) : nat := nat_of_ascii c.

Definition between (lo hi : nat) (c : ascii) : bool :=
  (lo <=? code c) && (code c <=? hi).

Definition is_upper (c : ascii) : bool := between 65 90 c.
Definition is_lower (c : ascii) : bool := between 97 122 c.
Definition is_digit (c : ascii) : bool := between 48 57 c.

(** WhiteSpace and LineTerminator code units below 128: TAB, LF, VT, FF,
    CR and SPACE.  They are what [trim] strips and what [\s] matches. *)
Definition is_space (c : ascii) : bool :=
  between 9 13 c || (code c =? 32).

(** The [\w] class: [[A-Za-z0-9_]]. *)
Definition is_word (c : ascii) : bool :=
  is_upper c || is_lower c || is_digit c || (code c =? 95).

Definition lower_char (c : ascii) : ascii :=
  if is_upper c then ascii_of_nat (code c + 32) else c.

Fixpoint toLowerCase (s : string) : string :=
  match s with
  | EmptyString => EmptyString
  | String c s' => String (lower_char c) (toLowerCase s')
  end.

(** [s.startsWith(p)] *)
Fixpoint startsWith (s p : string) : bool :=
  match p, s with
  | EmptyString, _ => true
  | String _ _, EmptyString => false
  | String a p', String b s' => Ascii.eqb a b && startsWith s' p'
  end.

(** [s.includes(x)]: [x] occurs in [s] as a contiguous substring. *)
Fixpoint includes (s x : string) : bool :=
  startsWith s x ||
  match s with
  | EmptyString => false
  | String _ s' => includes s' x
  end.

Fixpoint trimStart (s : string) : string :=
  match s with
  | EmptyString => EmptyString
  | String c s' => if is_space c then trimStart s' else s
  end.

Fixpoint trimEnd (s : string) : string :=
  match s with
  | EmptyString => EmptyString
  | String c s' =>
      match trimEnd s' with
      | EmptyString => if is_space c then EmptyString else String c EmptyString
      | t => String c t
      end
  end.

Definition trim (s : string) : string := trimEnd (trimStart s).

(** [s.split(sep)[0]] for a one-character separator: the part of [s]
    before the first [sep], all of [s] when there is none. *)
Fixpoint split_first (sep : ascii) (s : string) : string :=
  match s with
  | EmptyString => EmptyString
  | String c s' =>
      if Ascii.eqb c sep then EmptyString else String c (split_first sep s')
  end.

(** [xs.join(sep)] *)
Fixpoint join (sep : string) (xs : list string) : string :=
  match xs with
  | [] => EmptyString
  | [x] => x
  | x :: xs' => x ++ sep ++ join sep xs'
  end.

(** [arr.includes(x)] on an array of strings *)
Definition array_includes (arr : list string) (x : string) : bool :=
  existsb (String.eqb x) arr.

(** [s.slice(0, length s - length rest)] where [rest] is a suffix of [s] *)
Definition upto (s rest : string) : string :=
  substring 0 (String.length s - String.length rest) s.

End JsString.

(** ** The regular-expression engine

    The fragment of ECMAScript regular expressions that the sources use:
    single-character atoms (a literal, [.], a character class) under the
    quantifiers [?], [*], [+] (greedy or lazy), the assertions [\b] and [$],
    and capture-group brackets around a sequence.  Matching is the
    backtracking search of the language specification: a greedy quantifier
    first tries to consume one more character, a lazy one tries the rest of
    the pattern first. *)

Module Regex.
Import JsString.

Inductive cset : Type :=
| CChar (c : ascii)                                  (* literal *)
| CDot                                               (* [.] *)
| CSet (neg : bool) (members : list ascii) (space : bool).
    (* [[...]] or [[^...]]; [space] when [\s] is a member *)

Inductive quant : Type :=
| QOne
| QOpt (greedy : bool)
| QStar (greedy : bool)
| QPlus (greedy : bool).

Inductive node : Type :=
| NAtom (a : cset) (q : quant)
| NWordBoundary        (* [\b] *)
| NEnd                 (* [$] without the [m] flag *)
| NOpen                (* [(] *)
| NClose.              (* [)] *)

(** Canonicalize of the [i] flag, on ASCII *)
Definition fold_case (i : bool) (c : ascii) : ascii :=
  if i then lower_char c else c.

Definition is_line_terminator (c : ascii) : bool :=
  (code c =? 10) || (code c =? 13).

Definition cset_match (i : bool) (a : cset) (c : ascii) : bool :=
  match a with
  | CChar x => Ascii.eqb (fold_case i x) (fold_case i c)
  | CDot => negb (is_line_terminator c)
  | CSet neg members space =>
      xorb neg
        (existsb (fun x => Ascii.eqb (fold_case i x) (fold_case i c)) members
         || (space && is_space c))
  end.

(** A match reports the suffixes of the input at which the capture
    brackets were crossed, in pattern order, and the suffix left after
    the match. *)
Definition found : Type := (list string * string)%type.

(** A continuation receives the character before the current position
    (needed by [\b]) and the remaining input. *)
Definition cont : Type := option ascii -> string -> option found.

Definition orelse (a b : option found) : option found :=
  match a with
  | Some r => Some r
  | None => b
  end.

Definition one (i : bool) (a : cset) (k : cont) : cont :=
  fun _ s =>
    match s with
    | String c s' => if cset_match i a c then k (Some c) s' else None
    | EmptyString => None
    end.

Fixpoint star (i greedy : bool) (a : cset) (k : cont)
    (prev : option ascii) (s : string) {struct s} : option found :=
  let more :=
    match s with
    | String c s' =>
        if cset_match i a c then star i greedy a k (Some c) s' else None
    | EmptyString => None
    end in
  if greedy then orelse more (k prev s) else orelse (k prev s) more.

Definition word_before (prev : option ascii) : bool :=
  match prev with
  | Some c => is_word c
  | None => false
  end.

Definition word_after (s : string) : bool :=
  match s with
  | String c _ => is_word c
  | EmptyString => false
  end.

Definition mark (k : cont) : cont :=
  fun prev s =>
    match k prev s with
    | Some (ms, rest) => Some (s :: ms, rest)
    | None => None
    end.

(** [match_here i re prev s]: the pattern [re] matched at the start of
    [s], with [prev] the character just before. *)
Fixpoint match_here (i : bool) (re : list node) : cont :=
  match re with
  | [] => fun _ s => Some ([], s)
  | n :: re' =>
      let k := match_here i re' in
      match n with
      | NAtom a QOne => one i a k
      | NAtom a (QOpt greedy) =>
          fun prev s =>
            if greedy then orelse (one i a k prev s) (k prev s)
            else orelse (k prev s) (one i a k prev s)
      | NAtom a (QStar greedy) => star i greedy a k
      | NAtom a (QPlus greedy) => one i a (star i greedy a k)
      | NWordBoundary =>
          fun prev s =>
            if xorb (word_before prev) (word_after s) then k prev s else None
      | NEnd =>
          fun prev s =>
            match s with
            | EmptyString => k prev s
            | String _ _ => None
            end
      | NOpen | NClose => mark k
      end
  end.

(** A compiled expression, as the rest of the program sees it: a matcher
    anchored at a position. *)
Record RegExp : Type := { exec_at : cont }.

Definition compile (i : bool) (re : list node) : RegExp :=
  {| exec_at := match_here i re |}.

Record hit : Type := {
  hit_text : string;        (* [match[0]] *)
  hit_marks : list string;  (* suffixes at the capture brackets *)
}.

(** Successive matches of a global expression, as [String.prototype.match]
    and an [exec] loop enumerate them: the search resumes where the last
    match ended, one position further after an empty match.  [skip]
    counts the positions still covered by the previous match. *)
Fixpoint scan (r : RegExp) (prev : option ascii) (skip : nat) (s : string)
    : list hit :=
  match skip with
  | S skip' =>
      match s with
      | EmptyString => []
      | String c s' => scan r (Some c) skip' s'
      end
  | O =>
      match exec_at r prev s with
      | Some (ms, rest) =>
          let h := {| hit_text := upto s rest; hit_marks := ms |} in
          match s with
          | EmptyString => [h]
          | String c s' =>
              h :: scan r (Some c)
                     (pred (String.length s - String.length rest)) s'
          end
      | None =>
          match s with
          | EmptyString => []
          | String c s' => scan r (Some c) 0 s'
          end
      end
  end.

(** [text.match(r)] for a global [r], as the list of matches ([null]
    when the list is empty). *)
Definition match_all (r : RegExp) (text : string) : list hit :=
  scan r None 0 text.

(** The leftmost match in [s]: the prefix skipped before it, and the
    match. *)
Fixpoint search (r : RegExp) (prev : option ascii) (s : string)
    : option (string * found) :=
  match exec_at r prev s with
  | Some f => Some (EmptyString, f)
  | None =>
      match s with
      | EmptyString => None
      | String c s' =>
          match search r (Some c) s' with
          | Some (pre, f) => Some (String c pre, f)
          | None => None
          end
      end
  end.

(** [s.replace(r, '')] for a non-global [r]: the first match is removed. *)
Definition remove_first (r : RegExp) (s : string) : string :=
  match search r None s with
  | Some (pre, (_, rest)) => pre ++ rest
  | None => s
  end.

(** [s.split(r)]: the pieces of [s] between the matches of [r].  [cur]
    holds the piece being read, reversed. *)
Fixpoint split_go (r : RegExp) (prev : option ascii) (skip : nat)
    (cur : list ascii) (s : string) : list string :=
  match s with
  | EmptyString => [string_of_list_ascii (rev cur)]
  | String c s' =>
      match skip with
      | S skip' => split_go r (Some c) skip' cur s'
      | O =>
          match exec_at r prev s with
          | Some (_, rest) =>
              match String.length s - String.length rest with
              | O =>
                  match cur with
                  | [] => split_go r (Some c) 0 [c] s'
                  | _ => string_of_list_ascii (rev cur)
                           :: split_go r (Some c) 0 [c] s'
                  end
              | S n =>
                  string_of_list_ascii (rev cur)
                    :: split_go r (Some c) n [] s'
              end
          | None => split_go r (Some c) 0 (c :: cur) s'
          end
      end
  end.

Definition split (r : RegExp) (s : string) : list string :=
  match s with
  | EmptyString =>
      match exec_at r None s with
      | Some _ => []
      | None => [s]
      end
  | _ => split_go r None 0 [] s
  end.

(** *** Pattern source text

    [parse] reads the pattern strings that the program assembles at run
    time.  It covers literal characters, [.], the quantifiers [*], [+],
    [?] with their lazy forms, and [\b]; a quantifier with nothing to
    repeat is the syntax error of the language.  Any other syntax
    character is outside the fragment. *)

Inductive parsed : Type :=
| Parsed (re : list node)
| NothingToRepeat
| OutsideFragment.

Inductive pstate : Type :=
| Fresh        (* nothing quantifiable before the cursor *)
| AfterAtom    (* an unquantified atom *)
| AfterQuant.  (* a greedy quantifier, which [?] makes lazy *)

Definition is_syntax_char (c : ascii) : bool :=
  existsb (Ascii.eqb c)
    (list_ascii_of_string "^$\.*+?()[]{}|").

Definition requantify (greedy : bool) (q : quant) : quant :=
  match q with
  | QOne => QOne
  | QOpt _ => QOpt greedy
  | QStar _ => QStar greedy
  | QPlus _ => QPlus greedy
  end.

(** [acc] is the pattern read so far, last node first. *)
Fixpoint parse_go (st : pstate) (acc : list node) (p : string) : parsed :=
  match p with
  | EmptyString => Parsed (rev acc)
  | String c p' =>
      let quantifier (q : quant) :=
        match st, acc with
        | AfterAtom, NAtom a QOne :: acc' =>
            parse_go AfterQuant (NAtom a q :: acc') p'
        | _, _ => NothingToRepeat
        end in
      if Ascii.eqb c "*" then quantifier (QStar true)
      else if Ascii.eqb c "+" then quantifier (QPlus true)
      else if Ascii.eqb c "?" then
        match st, acc with
        | AfterQuant, NAtom a q :: acc' =>
            parse_go Fresh (NAtom a (requantify false q) :: acc') p'
        | _, _ => quantifier (QOpt true)
        end
      else if Ascii.eqb c "." then parse_go AfterAtom (NAtom CDot QOne :: acc) p'
      else if Ascii.eqb c "\" then
        match p' with
        | String "b" p'' => parse_go Fresh (NWordBoundary :: acc) p''
        | _ => OutsideFragment
        end
      else if is_syntax_char c then OutsideFragment
      else parse_go AfterAtom (NAtom (CChar c) QOne :: acc) p'
  end.

Definition parse (p : string) : parsed := parse_go Fresh [] p.

End Regex.

(** ** The visibility service: brand mentions *)

Record BrandMention : Type := {
  brand : string;
  count : nat;
  context : list string;
  citationUrls : list string;
}.

Section MentionAnalyzer.
Import JsString Regex.

(** What [new RegExp(p, 'gi')] does on a pattern [p] that [Regex.parse]
    does not read: either a compiled expression or an exception. *)
Variable host_RegExp : string -> Result RegExp.

(** [new RegExp(pattern, 'gi')] *)
Definition new_RegExp_gi (pattern : string) : Result RegExp :=
  match parse pattern with
  | Parsed re => Ok (compile true re)
  | NothingToRepeat => Throw (RegExpSyntaxError pattern)
  | OutsideFragment => host_RegExp pattern
  end.

(** [/[.!?]+/] *)
Definition sentence_separator : RegExp :=
  compile false [NAtom (CSet false ["."; "!"; "?"]%char false) (QPlus true)].

(** [text.split(/[.!?]+/).filter((s) => s.trim().length > 0)] *)
Definition sentences_of (text : string) : list string :=
  List.filter (fun s => 0 <? String.length (trim s))
    (split sentence_separator text).

(** The body of the [mentions.forEach] callback. *)
Definition analyse_mention (text : string) (sentences : list string)
    (mention : BrandMention) : Result BrandMention :=
  let brandLower := toLowerCase (brand mention) in
  rbind (new_RegExp_gi ("\b" ++ brandLower ++ "\b")) (fun regex =>
  let matches := match_all regex text in
  Ok {| brand := brand mention;
        count := length matches;
        context :=
          context mention ++
          map trim
            (List.filter (fun sentence => includes (toLowerCase sentence) brandLower)
               sentences);
        citationUrls := citationUrls mention |}).

Definition extractBrandMentions (text : string) (brands : list string)
    : Result (list BrandMention) :=
  let mentions :=
    map (fun b => {| brand := b; count := 0; context := []; citationUrls := [] |})
      brands in
  let sentences := sentences_of text in
  mapR (analyse_mention text sentences) mentions.

End MentionAnalyzer.

(** ** Citation extraction (AI provider service) *)

Section Citations.
Import JsString Regex.

Definition lit (c : ascii) : node := NAtom (CChar c) QOne.

(** [/\[([^\]]+)\]\(([^)]+)\)/g] *)
Definition markdownLinkRegex : RegExp :=
  compile false
    [lit "["; NOpen; NAtom (CSet true ["]"%char] false) (QPlus true); NClose;
     lit "]"; lit "(";
     NOpen; NAtom (CSet true [")"%char] false) (QPlus true); NClose; lit ")"].

(** [/(https?:\/\/[^\s\)]+)/g] *)
Definition urlRegex : RegExp :=
  compile false
    [NOpen; lit "h"; lit "t"; lit "t"; lit "p";
     NAtom (CChar "s") (QOpt true); lit ":"; lit "/"; lit "/";
     NAtom (CSet true [")"%char] true) (QPlus true); NClose].

(** [/[.,;!?]+$/] *)
Definition trailingPunctuation : RegExp :=
  compile false
    [NAtom (CSet false ["."; ","; ";"; "!"; "?"]%char false) (QPlus true); NEnd].

(** [match[n]] for the [n]-th capture group ([n >= 1]) of a pattern whose
    groups are not nested. *)
Definition group (n : nat) (h : hit) : string :=
  upto (nth (2 * n - 2) (hit_marks h) EmptyString)
       (nth (2 * n - 1) (hit_marks h) EmptyString).

(** The body of the second [while] loop. *)
Definition add_plain_url (citations : list string) (h : hit) : list string :=
  let url := remove_first trailingPunctuation (group 1 h) in
  if array_includes citations url then citations else citations ++ [url].

(** Both [exec] loops advance through [scan]: neither pattern matches the
    empty string. *)
Definition extractCitations (text : string) : list string :=
  let citations := map (group 2) (match_all markdownLinkRegex text) in
  fold_left add_plain_url (match_all urlRegex text) citations.

End Citations.

(** ** Prompt templates *)

Section PromptTemplates.
Import JsString.

Definition nl : string := String (ascii_of_nat 10) EmptyString.

(** The text shared by the two templates, around the brand line. *)
Definition prompt_with (category brandLine : string) : string :=
  "You are a helpful assistant providing recommendations. When asked about "
  ++ category
  ++ ", please provide a comprehensive answer that mentions specific brands and tools when relevant."
  ++ nl ++ nl
  ++ "Question: What are the best options for " ++ category ++ "?"
  ++ nl ++ nl
  ++ "Please provide:" ++ nl
  ++ "1. A detailed answer mentioning specific brands and tools" ++ nl
  ++ "2. Include URLs/citations when mentioning brands (format: [brand name](url))" ++ nl
  ++ "3. Explain the strengths and use cases for each option"
  ++ nl ++ nl
  ++ "Brands to consider: " ++ brandLine
  ++ nl ++ nl
  ++ "Provide a natural, helpful response as if answering a user's question.".

Definition generateVisibilityPrompt (category : string) (brands : list string)
    : string :=
  let brandsList := join ", " brands in
  prompt_with category brandsList.

Definition generateCompetitorPrompt (category mainBrand : string)
    (competitorBrands : list string) : string :=
  let competitorsList := join ", " competitorBrands in
  prompt_with category (mainBrand ++ ", " ++ competitorsList).

End PromptTemplates.

(** ** Providers, database rows and the world *)

Inductive AIProvider : Type := openai | anthropic | groq.

Global Instance AIProvider_eq_dec : EqDecision AIProvider.
Proof. solve_decision. Defined.

Definition AIProvider_index (p : AIProvider) : nat :=
  match p with
  | openai => 0
  | anthropic => 1
  | groq => 2
  end.

Definition AIProvider_of_index (n : nat) : AIProvider :=
  match n with
  | 0 => openai
  | 1 => anthropic
  | _ => groq
  end.

Global Instance AIProvider_countable : Countable AIProvider.
Proof.
  apply (inj_countable' AIProvider_index AIProvider_of_index).
  intros []; reflexivity.
Defined.

(** The string a provider identifier is at run time. *)
Definition provider_name (p : AIProvider) : string :=
  match p with
  | openai => "openai"
  | anthropic => "anthropic"
  | groq => "groq"
  end.

Record AIResponse : Type := {
  text : string;
  citations : list string;
}.

Module Db.

(** The rows of the three tables.  Each has its own [id] column, named
    apart here; timestamps are clock readings. *)
Record Brand : Type := {
  brand_row_id : nat;
  name : string;
  brand_created_at : nat;
  updated_at : nat;
}.

Record PromptRun : Type := {
  run_id : nat;
  run_category : string;
  prompt : string;
  raw_response : string;
  ai_provider : string;
  run_created_at : nat;
}.

Record Mention : Type := {
  mention_id : nat;
  prompt_run_id : nat;
  brand_id : nat;
  mentioned : bool;
  mention_count : nat;
  context : list string;
  citation_urls : list string;
  created_at : nat;
}.

(** The module-level state of the connection module after
    [initializeConnection]. *)
Record Connection : Type := {
  useSupabase : bool;
  supabaseClient : bool;   (* the client is not [null] *)
  pool : bool;             (* the pool is not [null] *)
  databaseUrl : bool;      (* a connection string is set in the environment *)
}.

(** The tables of the schema, with the sequence behind [mentions.id]. *)
Record Tables : Type := {
  brands : list Brand;
  prompt_runs : list PromptRun;
  mentions : list Mention;
  mentions_id_seq : nat;
}.

End Db.

Inductive LogLevel : Type := debug | info | warn | error.

Record World : Type := {
  net_log : list (AIProvider * string);  (* calls of the client libraries *)
  console : list (LogLevel * string);    (* lines written by the logger *)
  connection : Db.Connection;
  tables : Db.Tables;
  db_faults : list bool;  (* per round trip to the database: does it fail? *)
  now : nat;              (* the clock *)
  isProduction : bool;    (* [NODE_ENV === 'production'] *)
}.

(** ** The monad of asynchronous code *)

Definition M (A : Type) : Type := World -> Result A * World.

Definition ret {A} (a : A) : M A := fun w => (Ok a, w).

Definition throw {A} (e : exn) : M A := fun w => (Throw e, w).

Definition bind {A B} (c : M A) (f : A -> M B) : M B :=
  fun w =>
    match c w with
    | (inl e, w') => (inl e, w')
    | (inr a, w') => f a w'
    end.

Notation "x <- c1 ;; c2" := (bind c1 (fun x => c2))
  (at level 100, c1 at next level, right associativity).
Notation "c1 ;; c2" := (bind c1 (fun _ => c2))
  (at level 100, right associativity).

(** [try { body } catch (e) { handler(e) }]: what [body] did to the world
    before it threw stays done. *)
Definition try_catch {A} (body : M A) (handler : exn -> M A) : M A :=
  fun w =>
    match body w with
    | (inl e, w') => handler e w'
    | (inr a, w') => (inr a, w')
    end.

(** A function that may throw, called from asynchronous code. *)
Definition liftR {A} (r : Result A) : M A := fun w => (r, w).

(** [for (const x of xs) { await f(x) }] *)
Fixpoint for_of {A} (xs : list A) (f : A -> M unit) : M unit :=
  match xs with
  | [] => ret tt
  | x :: xs' => f x ;; for_of xs' f
  end.

Definition get {A} (f : World -> A) : M A := fun w => (Ok (f w), w).

(** The logger: the level and the message of each line it prints; the
    context object is not recorded.  Debug lines are dropped in
    production. *)
Definition logger (level : LogLevel) (message : string) : M unit :=
  fun w =>
    match level, isProduction w with
    | debug, true => (Ok tt, w)
    | _, _ =>
        (Ok tt,
         {| net_log := net_log w;
            console := console w ++ [(level, message)];
            connection := connection w;
            tables := tables w;
            db_faults := db_faults w;
            now := now w;
            isProduction := isProduction w |})
    end.

Definition set_net_log (l : list (AIProvider * string)) (w : World) : World :=
  {| net_log := l;
     console := console w;
     connection := connection w;
     tables := tables w;
     db_faults := db_faults w;
     now := now w;
     isProduction := isProduction w |}.

Definition set_database (t : Db.Tables) (faults : list bool) (w : World)
    : World :=
  {| net_log := net_log w;
     console := console w;
     connection := connection w;
     tables := t;
     db_faults := faults;
     now := now w;
     isProduction := isProduction w |}.

(** [error instanceof Error ? error.message : ...]: every [exn] stands for
    an [Error] object. *)
Definition exn_message (e : exn) : string :=
  match e with
  | JsError message => message
  | RegExpSyntaxError pattern =>
      "Invalid regular expression: /" ++ pattern ++ "/gi: Nothing to repeat"
  | DriverError message => message
  end.

(** ** The mention table and its upsert *)

Module MentionStore.
Import Db.

Definition same_key (run brand : nat) (m : Mention) : bool :=
  (prompt_run_id m =? run) && (brand_id m =? brand).

(** [DO UPDATE SET mentioned = EXCLUDED.mentioned, mention_count = ...,
    context = ..., citation_urls = ...] *)
Definition set_listed (old excluded : Mention) : Mention :=
  {| mention_id := mention_id old;
     prompt_run_id := prompt_run_id old;
     brand_id := brand_id old;
     mentioned := mentioned excluded;
     mention_count := mention_count excluded;
     context := context excluded;
     citation_urls := citation_urls excluded;
     created_at := created_at old |}.

(** The update of a merge-duplicates upsert through the hosted API: every
    column of the payload is set from the proposed row. *)
Definition set_payload (old excluded : Mention) : Mention :=
  {| mention_id := mention_id old;
     prompt_run_id := prompt_run_id excluded;
     brand_id := brand_id excluded;
     mentioned := mentioned excluded;
     mention_count := mention_count excluded;
     context := context excluded;
     citation_urls := citation_urls excluded;
     created_at := created_at old |}.

(** [REFERENCES prompt_runs(id)] and [REFERENCES brands(id)] *)
Definition references_hold (t : Tables) (m : Mention) : bool :=
  existsb (fun r => run_id r =? prompt_run_id m) (prompt_runs t)
  && existsb (fun b => brand_row_id b =? brand_id m) (brands t).

Definition with_mentions (rows : list Mention) (seq : nat) (t : Tables)
    : Tables :=
  {| brands := brands t;
     prompt_runs := prompt_runs t;
     mentions := rows;
     mentions_id_seq := seq |}.

(** [INSERT INTO mentions (...) VALUES (...) ON CONFLICT (prompt_run_id,
    brand_id) DO UPDATE SET ... RETURNING *] against the schema: the
    proposed row takes the next value of the [id] sequence and the current
    time; a row with the same key is updated in place by [set], otherwise
    the proposed row is appended if its references hold. *)
Definition insert_on_conflict_update (set : Mention -> Mention -> Mention)
    (run brand : nat) (mentioned_ : bool) (count_ : nat)
    (context_ citation_urls_ : list string) (time : nat) (t : Tables)
    : Result (list Mention) * Tables :=
  let seq := S (mentions_id_seq t) in
  let proposed :=
    {| mention_id := seq;
       prompt_run_id := run;
       brand_id := brand;
       mentioned := mentioned_;
       mention_count := count_;
       context := context_;
       citation_urls := citation_urls_;
       created_at := time |} in
  if existsb (same_key run brand) (mentions t) then
    let rows :=
      map (fun r => if same_key run brand r then set r proposed else r)
        (mentions t) in
    (Ok (List.filter (same_key run brand) rows), with_mentions rows seq t)
  else if references_hold t proposed then
    (Ok [proposed], with_mentions (mentions t ++ [proposed]) seq t)
  else
    (Throw (DriverError "violates foreign key constraint"),
     with_mentions (mentions t) seq t).

(** One round trip to the database running [statement]: it fails when the
    connection does, or when the statement does. *)
Definition round_trip {A} (statement : nat -> Tables -> Result A * Tables)
    : M A :=
  fun w =>
    match db_faults w with
    | true :: faults =>
        (Throw (DriverError "connection failure"), set_database (tables w) faults w)
    | false :: faults =>
        let (r, t) := statement (now w) (tables w) in
        (r, set_database t faults w)
    | [] =>
        let (r, t) := statement (now w) (tables w) in
        (r, set_database t [] w)
    end.

(** [query(text, params)] of the connection module, for a statement
    [text] with its parameters bound. *)
Definition query {A} (statement : nat -> Tables -> Result A * Tables) : M A :=
  try_catch
    (conn <- get connection ;;
     if useSupabase conn && supabaseClient conn then
       logger warn "Raw SQL queries with Supabase should use Supabase client methods. Falling back to direct connection." ;;
       if databaseUrl conn then
         result <- round_trip statement ;;
         logger debug "Executed query via Supabase connection string" ;;
         ret result
       else throw (JsError "Supabase raw SQL queries require DATABASE_URL")
     else if pool conn then
       result <- round_trip statement ;;
       logger debug "Executed query" ;;
       ret result
     else throw (JsError "No database connection available"))
    (fun err => logger error "Query execution failed" ;; throw err).

(** [SupabaseMentionModel.createOrUpdate] *)
Definition SupabaseMentionModel_createOrUpdate (promptRunId brandId : nat)
    (mentioned_ : bool) (mentionCount : nat)
    (context_ citationUrls_ : list string) : M Mention :=
  supabase <- get (fun w => supabaseClient (connection w)) ;;
  if negb supabase then throw (JsError "Supabase client not available")
  else
    try_catch
      (rows <- round_trip
                 (insert_on_conflict_update set_payload promptRunId brandId
                    mentioned_ mentionCount context_ citationUrls_) ;;
       (* [.select().single()]: exactly one row, or an error *)
       match rows with
       | [data] =>
           logger debug "Mention created/updated via Supabase" ;;
           ret data
       | _ => throw (DriverError "JSON object requested, multiple (or no) rows returned")
       end)
      (fun err =>
         logger error "Error creating/updating mention via Supabase" ;;
         throw err).

(** [MentionModel.createOrUpdate] *)
Definition MentionModel_createOrUpdate (promptRunId brandId : nat)
    (mentioned_ : bool) (mentionCount : nat)
    (context_ citationUrls_ : list string) : M Mention :=
  usingSupabase <- get (fun w => useSupabase (connection w)) ;;
  if usingSupabase then
    SupabaseMentionModel_createOrUpdate promptRunId brandId mentioned_
      mentionCount context_ citationUrls_
  else
    try_catch
      (rows <- query
                 (insert_on_conflict_update set_listed promptRunId brandId
                    mentioned_ mentionCount context_ citationUrls_) ;;
       match rows with
       | row :: _ =>
           logger debug "Mention created/updated" ;;
           ret row
       | [] => throw (JsError "Cannot read properties of undefined (reading 'id')")
       end)
      (fun err => logger error "Error creating/updating mention" ;; throw err).

End MentionStore.

(** ** The AI service *)

Record ProcessEnv : Type := {
  OPENAI_API_KEY : option string;
  ANTHROPIC_API_KEY : option string;
  GROQ_API_KEY : option string;
}.

(** An [OpenAIProvider], [AnthropicProvider] or [GroqProvider] holding its
    client. *)
Record ProviderInstance : Type := {
  backend_of : AIProvider;
  apiKey : string;
}.

(** Truthiness of a string that may be [undefined]. *)
Definition truthy (v : option string) : bool :=
  match v with
  | Some s => negb (String.eqb s "")
  | None => false
  end.

(** [if (process.env.KEY) { this.providers.set(p, new Provider(KEY)) }]: the
    constructor throws only on a key that is not truthy, which the guard
    excludes. *)
Definition register (p : AIProvider) (key : option string)
    (providers : gmap AIProvider ProviderInstance)
    : gmap AIProvider ProviderInstance :=
  match key with
  | Some k =>
      if truthy key then <[p := {| backend_of := p; apiKey := k |}]> providers
      else providers
  | None => providers
  end.

(** [new AIService()]: the [providers] map. *)
Definition new_AIService (env : ProcessEnv) : gmap AIProvider ProviderInstance :=
  register groq (GROQ_API_KEY env)
    (register anthropic (ANTHROPIC_API_KEY env)
       (register openai (OPENAI_API_KEY env) ∅)).

Definition provider_label (p : AIProvider) : string :=
  match p with
  | openai => "OpenAI"
  | anthropic => "Anthropic"
  | groq => "Groq"
  end.

Section Service.
Import JsString.

Variable host_RegExp : string -> Result Regex.RegExp.

(** The language-model backends as the client libraries present them: for
    a call, the completion text, or the message of the error that the
    library throws in the end. *)
Variable backend : AIProvider -> string -> string + string.

(** The singleton [aiService]. *)
Variable aiService : gmap AIProvider ProviderInstance.

(** The run and brand models of the storage layer. *)
Variable PromptRunModel_create :
  string -> string -> string -> string -> M Db.PromptRun.
Variable BrandModel_getOrCreate : string -> M Db.Brand.

(** [this.client....create({ messages: [{ role: 'user', content: prompt }] })]:
    one call of the client library, logged as such with its provider and
    prompt.  The HTTP requests are the library's: constructed as it is here,
    with the key alone, a client repeats a request that fails, so one call
    can stand for several requests. *)
Definition client_create (inst : ProviderInstance) (prompt_ : string)
    : M string :=
  fun w =>
    let w' := set_net_log (net_log w ++ [(backend_of inst, prompt_)]) w in
    match backend (backend_of inst) prompt_ with
    | inl message => (Throw (JsError message), w')
    | inr completion => (Ok completion, w')
    end.

(** The [query] method of the three provider classes. *)
Definition Provider_query (inst : ProviderInstance) (prompt_ : string)
    : M AIResponse :=
  let label := provider_label (backend_of inst) in
  try_catch
    (logger debug ("Querying " ++ label) ;;
     text_ <- client_create inst prompt_ ;;
     let citations_ := extractCitations text_ in
     logger debug (label ++ " response received") ;;
     ret {| text := text_; citations := citations_ |})
    (fun err =>
       logger error (label ++ " query failed") ;;
       throw (JsError (label ++ " API error: " ++ exn_message err))).

Definition unavailable_message (provider : AIProvider) : string :=
  "Provider " ++ provider_name provider
  ++ " is not configured or available. Please check your API keys.".

(** [AIService.queryAI] *)
Definition queryAI (provider : AIProvider) (category : string)
    (brands : list string) : M AIResponse :=
  match aiService !! provider with
  | None => throw (JsError (unavailable_message provider))
  | Some providerInstance =>
      let prompt_ := generateVisibilityPrompt category brands in
      logger info
        ("Querying " ++ provider_name provider ++ " for category: " ++ category) ;;
      Provider_query providerInstance prompt_
  end.

(** ** The visibility service *)

Record VisibilityResult : Type := {
  category : string;
  brands : list string;
  mentions : list BrandMention;
  totalMentions : nat;
  timestamp : nat;
  promptRunId : option nat;
}.

(** The brand-specific filter over the citations of the response. *)
Definition cites (mention : BrandMention) (url : string) : bool :=
  includes (toLowerCase url) (toLowerCase (brand mention))
  || includes (toLowerCase (brand mention))
       (split_first "." (toLowerCase url)).

(** The body of the second [mentions.forEach] callback. *)
Definition assign_citations (citations_ : list string) (mention : BrandMention)
    : BrandMention :=
  if 0 <? count mention then
    let specific := List.filter (cites mention) citations_ in
    {| brand := brand mention;
       count := count mention;
       context := context mention;
       citationUrls :=
         if (length specific =? 0) && (0 <? length citations_)
         then firstn 2 citations_
         else specific |}
  else mention.

Definition stored_prompt (category_ : string) (brands_ : list string)
    (isCompetitorMode : bool) (mainBrand : option string) : string :=
  match mainBrand with
  | Some main =>
      if isCompetitorMode && truthy mainBrand
      then "Competitor analysis for " ++ category_ ++ " - Main brand: " ++ main
           ++ ", Competitors: " ++ join ", " brands_
      else "Visibility check for " ++ category_ ++ " - Brands: " ++ join ", " brands_
  | None => "Visibility check for " ++ category_ ++ " - Brands: " ++ join ", " brands_
  end.

(** The body of the [for (const brandName of brands)] loop. *)
Definition store_brand (runId : nat) (mentions_ : list BrandMention)
    (brandName : string) : M unit :=
  brand_row <- BrandModel_getOrCreate brandName ;;
  let mention :=
    List.find (fun m => String.eqb (toLowerCase (brand m)) (toLowerCase brandName))
      mentions_ in
  MentionStore.MentionModel_createOrUpdate runId (Db.brand_row_id brand_row)
    (match mention with Some m => 0 <? count m | None => false end)
    (match mention with Some m => count m | None => 0 end)
    (match mention with Some m => context m | None => [] end)
    (match mention with Some m => citationUrls m | None => [] end) ;;
  ret tt.

(** The inner [try]/[catch] around the database writes, returning the final
    value of the local [promptRunId].  The variable is assigned as soon as
    the run is created, so it stays set when a later write throws. *)
Definition store_run (category_ : string) (brands_ : list string)
    (provider : AIProvider) (isCompetitorMode : bool)
    (mainBrand : option string) (aiResponse : AIResponse)
    (mentions_ : list BrandMention) : M (option nat) :=
  let failed (promptRunId_ : option nat) (dbError : exn) :=
    logger warn "Failed to store visibility check in database" ;;
    ret promptRunId_ in
  let prompt_ := stored_prompt category_ brands_ isCompetitorMode mainBrand in
  created <- try_catch
               (promptRun <- PromptRunModel_create category_ prompt_
                               (text aiResponse) (provider_name provider) ;;
                ret (Some promptRun))
               (fun dbError => failed None dbError ;; ret None) ;;
  match created with
  | None => ret None
  | Some promptRun =>
      try_catch
        (for_of brands_ (store_brand (Db.run_id promptRun) mentions_) ;;
         logger info "Visibility check stored in database" ;;
         ret (Some (Db.run_id promptRun)))
        (failed (Some (Db.run_id promptRun)))
  end.

(** [checkVisibility] *)
Definition checkVisibility (category_ : string) (brands_ : list string)
    (provider : AIProvider) (isCompetitorMode : bool)
    (mainBrand : option string) : M VisibilityResult :=
  try_catch
    (logger info "Checking visibility" ;;
     aiResponse <- queryAI provider category_ brands_ ;;
     extracted <- liftR (extractBrandMentions host_RegExp (text aiResponse) brands_) ;;
     let mentions_ := map (assign_citations (citations aiResponse)) extracted in
     let totalMentions_ := fold_left (fun sum m => sum + count m) mentions_ 0 in
     promptRunId_ <- store_run category_ brands_ provider isCompetitorMode
                       mainBrand aiResponse mentions_ ;;
     timestamp_ <- get now ;;
     ret {| category := category_;
            brands := brands_;
            mentions := mentions_;
            totalMentions := totalMentions_;
            timestamp := timestamp_;
            promptRunId := promptRunId_ |})
    (fun err => logger error "Error checking visibility" ;; throw err).

(** ** The route [POST /api/check-visibility] *)

(** The parsed request body.  [body_category], [body_brands] and
    [body_provider] are [None] when the field is missing or not of the type
    shown.  The bodies covered are those whose [brands] array holds strings
    and whose [mainBrand], when there is one, is a string. *)
Record RequestBody : Type := {
  body_category : option string;
  body_brands : option (list string);
  body_provider : option string;
  body_isCompetitorMode : bool;     (* [Boolean(isCompetitorMode)] *)
  body_mainBrand : option string;
}.

Inductive HttpResponse : Type :=
| Success (data : VisibilityResult)            (* 200, [success: true] *)
| Failure (status : nat) (message : string).   (* [success: false] *)

Definition validProviders : list AIProvider := [openai; anthropic; groq].

(** [validProviders.includes(provider) ? provider : 'openai'] *)
Definition select_provider (provider : option string) : AIProvider :=
  match provider with
  | Some s =>
      match List.find (fun p => String.eqb (provider_name p) s) validProviders with
      | Some p => p
      | None => openai
      end
  | None => openai
  end.

Definition POST (body : RequestBody) : M HttpResponse :=
  try_catch
    (if negb (truthy (body_category body)) then
       ret (Failure 400 "Category is required and must be a string")
     else
       match body_category body, body_brands body with
       | Some category_, Some (b :: bs) =>
           let aiProvider := select_provider (body_provider body) in
           let competitorMode := body_isCompetitorMode body in
           if competitorMode && negb (truthy (body_mainBrand body)) then
             ret (Failure 400 "Main brand is required when competitor mode is enabled")
           else
             logger info "Processing visibility check request" ;;
             result <- checkVisibility category_ (b :: bs) aiProvider
                         competitorMode (body_mainBrand body) ;;
             ret (Success result)
       | _, _ =>
           ret (Failure 400 "Brands array is required and must not be empty")
       end)
    (fun err =>
       logger error "Error checking visibility" ;;
       ret (Failure 500 (exn_message err))).

End Service.

(** ** The dashboard metric *)

Module Dashboard.

(** What [calculateVisibilityScore] returns: the number [0], or the string
    produced by [toFixed(1)], kept as its value in tenths ("66.7" is
    [Fixed1 667]). *)
Inductive Score : Type :=
| Number (n : nat)
| Fixed1 (tenths : nat).

(** Numbers of the language: IEEE 754 binary64. *)
Module Double.

Definition prec : Z := 53.
Definition emax : Z := 1024.

Definition of_nat (n : nat) : SpecFloat.spec_float :=
  SpecFloat.binary_normalize prec emax (Z.of_nat n) 0 false.

Definition div (x y : SpecFloat.spec_float) : SpecFloat.spec_float :=
  SpecFloat.SFdiv prec emax x y.

Definition mul (x y : SpecFloat.spec_float) : SpecFloat.spec_float :=
  SpecFloat.SFmul prec emax x y.

(** [x.toFixed(1)] for a finite [x >= 0], in tenths: the integer [n] for
    which [n / 10 - x] is closest to zero, the larger one of two. *)
Definition toFixed1 (x : SpecFloat.spec_float) : nat :=
  match x with
  | SpecFloat.S754_finite false m e =>
      Z.to_nat
        (if (0 <=? e)%Z then 10 * Z.pos m * 2 ^ e
         else (2 * 10 * Z.pos m + 2 ^ (- e)) / (2 * 2 ^ (- e)))%Z
  | _ => 0
  end.

End Double.

(** [((a / b) * 100).toFixed(1)] for [b > 0], in tenths, as the language
    computes it: the quotient and the product are each rounded to the
    nearest double. *)
Definition percent_double (a b : nat) : nat :=
  Double.toFixed1
    (Double.mul (Double.div (Double.of_nat a) (Double.of_nat b))
       (Double.of_nat 100)).

(** [calculateVisibilityScore] *)
Definition calculateVisibilityScore (mentions_ : list BrandMention)
    (totalBrands : nat) : Score :=
  if totalBrands =? 0 then Number 0
  else
    let mentionedBrands :=
      length (List.filter (fun m => 0 <? count m) mentions_) in
    Fixed1 (percent_double mentionedBrands totalBrands).

(** The percentage shown, in tenths of a percent. *)
Definition tenths_of (s : Score) : nat :=
  match s with
  | Number n => 10 * n
  | Fixed1 t => t
  end.

End Dashboard.

(** ** Notions used in the statements *)

(** The world after the logger has run. *)
Definition logged (level : LogLevel) (message : string) (w : World) : World :=
  snd (logger level message w).

(** The composite key of a mention row, and the uniqueness constraint
    [UNIQUE(prompt_run_id, brand_id)] of the schema. *)
Definition key_of (m : Db.Mention) : nat * nat :=
  (Db.prompt_run_id m, Db.brand_id m).

Definition unique_keys (rows : list Db.Mention) : Prop :=
  NoDup (map key_of rows).



(** The upsert has something to do for the pair: its row exists, or the
    run and the brand it refers to do. *)
Definition can_store (run brand_ : nat) (t : Db.Tables) : bool :=
  existsb (MentionStore.same_key run brand_) (Db.mentions t)
  || (existsb (fun r => Db.run_id r =? run) (Db.prompt_runs t)
      && existsb (fun b => Db.brand_row_id b =? brand_) (Db.brands t)).


(** What the two [DO UPDATE SET] forms have in common: the updated row
    still answers to the key and carries the proposed values. *)
Definition updates_in_place (set : Db.Mention -> Db.Mention -> Db.Mention) : Prop :=
  forall old excluded,
    key_of old = key_of excluded ->
    key_of (set old excluded) = key_of old
    /\ Db.mentioned (set old excluded) = Db.mentioned excluded
    /\ Db.mention_count (set old excluded) = Db.mention_count excluded
    /\ Db.context (set old excluded) = Db.context excluded
    /\ Db.citation_urls (set old excluded) = Db.citation_urls excluded.

(** Request validation of the route, before the provider is looked up. *)
Definition passes_validation (body : RequestBody) : bool :=
  truthy (body_category body)
  && match body_brands body with
     | Some (_ :: _) => true
     | _ => false
     end
  && negb (body_isCompetitorMode body && negb (truthy (body_mainBrand body))).

(** The provider field names one of the enumerated providers. *)
Definition known_provider (provider : option string) : bool :=
  match provider with
  | Some s => existsb (fun p => String.eqb (provider_name p) s) validProviders
  | None => false
  end.

Definition with_provider (provider : option string) (body : RequestBody)
    : RequestBody :=
  {| body_category := body_category body;
     body_brands := body_brands body;
     body_provider := provider;
     body_isCompetitorMode := body_isCompetitorMode body;
     body_mainBrand := body_mainBrand body |}.

(** The outcome of a request that is refused for want of a provider: the
    response carries the message of [queryAI] and no request has gone out
    to a backend. *)
Definition refused_before_network (before : World)
    (outcome : Result HttpResponse * World) : Prop :=
  (exists provider,
     fst outcome = Ok (Failure 500 (unavailable_message provider)))
  /\ net_log (snd outcome) = net_log before.

(** The reading of the score under test: it shows 100.0 exactly when every
    tracked brand is counted at least once. *)
Definition full_score_iff_all_mentioned
    (host_RegExp : string -> Result Regex.RegExp) (text_ : string)
    (brands_ : list string) : Prop :=
  forall ms,
    extractBrandMentions host_RegExp text_ brands_ = Ok ms ->
    Dashboard.tenths_of (Dashboard.calculateVisibilityScore ms (length brands_))
    = 1000
    <-> Forall (fun m => 0 < count m) ms.

(** ** Scenarios *)

Module Scenario.

(** An engine that rejects every pattern outside the fragment. *)
Definition host_RegExp (pattern : string) : Result Regex.RegExp :=
  Throw (RegExpSyntaxError pattern).

Definition env : ProcessEnv :=
  {| OPENAI_API_KEY := Some "sk-test";
     ANTHROPIC_API_KEY := None;
     GROQ_API_KEY := None |}.

Definition reply : string :=
  "Salesforce is a leading CRM. HubSpot also offers CRM tools. Visit https://salesforce.com for details.".

Definition backend (p : AIProvider) (prompt_ : string) : string + string :=
  inr reply.

(** A storage layer that is down. *)
Definition create_fails (category_ prompt_ raw provider : string)
    : M Db.PromptRun :=
  throw (DriverError "connection failure").

Definition getOrCreate_fails (name_ : string) : M Db.Brand :=
  throw (DriverError "connection failure").

Definition postgres : Db.Connection :=
  {| Db.useSupabase := false;
     Db.supabaseClient := false;
     Db.pool := true;
     Db.databaseUrl := true |}.

Definition supabase : Db.Connection :=
  {| Db.useSupabase := true;
     Db.supabaseClient := true;
     Db.pool := false;
     Db.databaseUrl := false |}.

(** A database with one run and one brand and no mention yet. *)
Definition one_run : Db.Tables :=
  {| Db.brands :=
       [{| Db.brand_row_id := 1;
           Db.name := "Salesforce";
           Db.brand_created_at := 1600;
           Db.updated_at := 1600 |}];
     Db.prompt_runs :=
       [{| Db.run_id := 1;
           Db.run_category := "CRM software";
           Db.prompt := "Visibility check for CRM software - Brands: Salesforce";
           Db.raw_response := reply;
           Db.ai_provider := "openai";
           Db.run_created_at := 1600 |}];
     Db.mentions := [];
     Db.mentions_id_seq := 0 |}.

Definition world (conn : Db.Connection) : World :=
  {| net_log := [];
     console := [];
     connection := conn;
     tables := one_run;
     db_faults := [];
     now := 1700;
     isProduction := false |}.

(** A request naming a provider that is not enumerated. *)
Definition unknown_provider_request : RequestBody :=
  {| body_category := Some "CRM software";
     body_brands := Some ["Salesforce"; "HubSpot"];
     body_provider := Some "gemini";
     body_isCompetitorMode := false;
     body_mainBrand := None |}.

(** A competitor-mode request as the form sends it: the competitors in
    [brands], the main brand apart. *)
Definition competitor_request : RequestBody :=
  {| body_category := Some "CRM software";
     body_brands := Some ["HubSpot"; "Pipedrive"];
     body_provider := Some "openai";
     body_isCompetitorMode := true;
     body_mainBrand := Some "Salesforce" |}.

(** 2001 tracked brands of which the first is not mentioned. *)
Definition many_brands : list string := "Zendesk" :: repeat "Acme" 2000.

Definition two_brands : list string := ["Salesforce"; "HubSpot"].

(** The analysis of [reply] for [two_brands], before citations are
    assigned. *)
Definition salesforce_context : list string :=
  ["Salesforce is a leading CRM"; "Visit https://salesforce"].

Definition salesforce_mention : BrandMention :=
  {| brand := "Salesforce";
     count := 2;
     context := salesforce_context;
     citationUrls := [] |}.

Definition hubspot_mention : BrandMention :=
  {| brand := "HubSpot";
     count := 1;
     context := ["HubSpot also offers CRM tools"];
     citationUrls := [] |}.

Definition openai_instance : ProviderInstance :=
  {| backend_of := openai; apiKey := "sk-test" |}.

(** The row for run 1 and brand 1 after a first and after a second
    upsert. *)
Definition first_row : Db.Mention :=
  {| Db.mention_id := 1;
     Db.prompt_run_id := 1;
     Db.brand_id := 1;
     Db.mentioned := false;
     Db.mention_count := 0;
     Db.context := [];
     Db.citation_urls := [];
     Db.created_at := 1700 |}.

Definition second_row : Db.Mention :=
  {| Db.mention_id := 1;
     Db.prompt_run_id := 1;
     Db.brand_id := 1;
     Db.mentioned := true;
     Db.mention_count := 2;
     Db.context := salesforce_context;
     Db.citation_urls := ["https://salesforce.com"];
     Db.created_at := 1700 |}.

End Scenario.

From Stdlib Require Import DecimalString DecimalNat Sorted Permutation.

(** ** The providers that are available *)

(** [process.env.OPENAI_API_KEY] and its two siblings, by provider. *)
Definition api_key (env : ProcessEnv) (p : AIProvider) : option string :=
  match p with
  | openai => OPENAI_API_KEY env
  | anthropic => ANTHROPIC_API_KEY env
  | groq => GROQ_API_KEY env
  end.

(** [AIService.getAvailableProviders]: the keys of the [providers] map in
    insertion order, which for the map the constructor fills is openai,
    anthropic, groq. *)
Definition getAvailableProviders (providers : gmap AIProvider ProviderInstance)
    : list AIProvider :=
  List.filter (fun p => bool_decide (is_Some (providers !! p)))
    [openai; anthropic; groq].

(** ** Notions about characters and substrings *)

Fixpoint any_char (p : ascii -> bool) (s : string) : bool :=
  match s with
  | EmptyString => false
  | String c s' => p c || any_char p s'
  end.

Fixpoint all_chars (p : ascii -> bool) (s : string) : bool :=
  match s with
  | EmptyString => true
  | String c s' => p c && all_chars p s'
  end.

Definition first_char (s : string) : option ascii :=
  match s with
  | EmptyString => None
  | String c _ => Some c
  end.

Fixpoint last_char (s : string) : option ascii :=
  match s with
  | EmptyString => None
  | String c EmptyString => Some c
  | String _ s' => last_char s'
  end.

(** The members of the class [[.!?]] of the sentence separator, and of the
    class [[.,;!?]] stripped from the end of a plain URL. *)
Definition ends_sentence (c : ascii) : bool :=
  existsb (Ascii.eqb c) ["."; "!"; "?"]%char.

Definition trailing_mark (c : ascii) : bool :=
  existsb (Ascii.eqb c) ["."; ","; ";"; "!"; "?"]%char.

(** No white space at either end. *)
Definition no_space_around (s : string) : Prop :=
  (forall c, first_char s = Some c -> JsString.is_space c = false)
  /\ (forall c, last_char s = Some c -> JsString.is_space c = false).

(** [x] occurs in [s] between a prefix and a suffix. *)
Definition within (x s : string) : Prop :=
  exists pre post, s = (pre ++ x ++ post)%string.

(** What removing the first match of [/[.,;!?]+$/] comes to: the run of
    marks at the end of [s] is dropped. *)
Fixpoint strip_end (s : string) : string :=
  match s with
  | EmptyString => EmptyString
  | String c s' =>
      if all_chars trailing_mark s then EmptyString else String c (strip_end s')
  end.

(** ** Notions about the upsert *)

(** What a call of the upsert comes to, given the outcome [st] of its
    statement on the tables [t]: the statement did not run; or it ran and
    threw; or it ran and its first row was returned; or it ran and the rows
    it returned were refused. *)
Inductive upsert_case (st : Result (list Db.Mention) * Db.Tables)
    (r : Result Db.Mention) (t t' : Db.Tables) : Prop :=
| NotRun (e : exn) : r = Throw e -> t' = t -> upsert_case st r t t'
| RanThrew (e : exn) :
    st = (Throw e, t') -> r = Throw e -> upsert_case st r t t'
| RanReturned (row : Db.Mention) (rows : list Db.Mention) :
    st = (Ok (row :: rows), t') -> r = Ok row -> upsert_case st r t t'
| RanRefused (e : exn) (rows : list Db.Mention) :
    st = (Ok rows, t') -> (forall row, rows <> [row]) -> r = Throw e ->
    upsert_case st r t t'.

(** One of the two [DO UPDATE SET] forms of the program. *)
Definition either_set (set : Db.Mention -> Db.Mention -> Db.Mention) : Prop :=
  set = MentionStore.set_listed \/ set = MentionStore.set_payload.

(** The columns of a mention row that no upsert changes. *)
Definition identity_of (m : Db.Mention) : nat * nat :=
  (Db.mention_id m, Db.created_at m).

(** ** Further scenarios *)

Module Cases.

(** A request with an empty list of brands. *)
Definition no_brands_request : RequestBody :=
  {| body_category := Some "CRM software";
     body_brands := Some [];
     body_provider := Some "openai";
     body_isCompetitorMode := false;
     body_mainBrand := None |}.

End Cases.

(** ** The connection module *)

(** The environment variables read by [initializeConnection]. *)
Record DbEnv : Type := {
  SUPABASE_URL : option string;
  NEXT_PUBLIC_SUPABASE_URL : option string;
  DATABASE_URL : option string;
  SUPABASE_DATABASE_URL : option string;
  SUPABASE_SERVICE_ROLE_KEY : option string;
  SUPABASE_ANON_KEY : option string;
}.

(** [a || b] on two values that are strings or [undefined]. *)
Definition or_else (a b : option string) : option string :=
  if truthy a then a else b.

Definition set_connection (c : Db.Connection) (w : World) : World :=
  {| net_log := net_log w;
     console := console w;
     connection := c;
     tables := tables w;
     db_faults := db_faults w;
     now := now w;
     isProduction := isProduction w |}.

(** The module variables [useSupabase], [supabaseClient] and [pool],
    beside what [process.env.DATABASE_URL || process.env.SUPABASE_DATABASE_URL]
    is worth. *)
Definition module_state (env : DbEnv) (useSupabase_ client pool_ : bool)
    : Db.Connection :=
  {| Db.useSupabase := useSupabase_;
     Db.supabaseClient := client;
     Db.pool := pool_;
     Db.databaseUrl :=
       truthy (or_else (DATABASE_URL env) (SUPABASE_DATABASE_URL env)) |}.

Definition assign (c : Db.Connection) : M unit :=
  fun w => (Ok tt, set_connection c w).

Section Connection.

(** [createClient(url, key, options)] of the client library, which may
    reject its arguments. *)
Variable createClient : string -> string -> Result unit.

(** The answer to [supabaseClient.from('brands').select('count').limit(1)]:
    the message of its [error], if any. *)
Variable supabase_probe : M (option string).

(** [initializeConnection], run once when the module is loaded, from the
    initial values [null], [null] and [false] of the module variables. *)
Definition initializeConnection (env : DbEnv) : M unit :=
  let supabaseUrl := or_else (SUPABASE_URL env) (NEXT_PUBLIC_SUPABASE_URL env) in
  let databaseUrl := or_else (DATABASE_URL env) (SUPABASE_DATABASE_URL env) in
  let hasSupabaseUrl :=
    truthy supabaseUrl
    || match databaseUrl with
       | Some url => truthy databaseUrl && JsString.includes url "supabase"
       | None => false
       end in
  let direct :=
    assign (module_state env false false true) ;;
    logger info "PostgreSQL connection pool initialized" in
  assign (module_state env false false false) ;;
  if hasSupabaseUrl then
    let supabaseKey :=
      or_else (SUPABASE_SERVICE_ROLE_KEY env) (SUPABASE_ANON_KEY env) in
    match supabaseUrl, supabaseKey with
    | Some url, Some key =>
        if negb (truthy supabaseUrl) || negb (truthy supabaseKey) then
          logger warn "Supabase URL or key not found, falling back to direct PostgreSQL connection" ;;
          direct
        else
          assign (module_state env true false false) ;;
          liftR (createClient url key) ;;
          assign (module_state env true true false) ;;
          logger info "Supabase client initialized"
    | _, _ =>
        logger warn "Supabase URL or key not found, falling back to direct PostgreSQL connection" ;;
        direct
    end
  else direct.

(** [testConnection] *)
Definition testConnection : M bool :=
  try_catch
    (conn <- get connection ;;
     if Db.useSupabase conn && Db.supabaseClient conn then
       error_ <- supabase_probe ;;
       match error_ with
       | Some message =>
           if negb (JsString.includes message "relation")
              && negb (JsString.includes message "does not exist")
           then logger error "Supabase connection failed" ;; ret false
           else logger debug "Supabase connection successful" ;; ret true
       | None => logger debug "Supabase connection successful" ;; ret true
       end
     else if Db.pool conn then
       (* [SELECT NOW()] *)
       MentionStore.round_trip (fun time t => (Ok time, t)) ;;
       logger debug "Database connection successful" ;;
       ret true
     else
       logger error "No database connection configured" ;;
       ret false)
    (fun _ => logger error "Database connection failed" ;; ret false).

(** ** The route [GET /api/health] *)

Inductive HealthResponse : Type :=
| Healthy (database : string) (timestamp_ : nat)    (* 200, [status: 'healthy'] *)
| Unhealthy (message : string).                     (* 500, [status: 'unhealthy'] *)

Definition health_GET : M HealthResponse :=
  try_catch
    (dbConnected <- testConnection ;;
     timestamp_ <- get now ;;
     ret (Healthy (if dbConnected then "connected" else "disconnected")
            timestamp_))
    (fun err =>
       logger error "Health check failed" ;;
       ret (Unhealthy (exn_message err))).

End Connection.

(** ** Concurrent calls *)

(** [await Promise.all(calls)], with the calls taken one after the other,
    each to its end: every call runs whether or not another one fails, and
    the first failure, if any, is the outcome. *)
Fixpoint promise_all {A} (calls : list (M A)) : M (list A) :=
  match calls with
  | [] => ret []
  | call :: calls' =>
      fun w =>
        match call w with
        | (inl e, w1) => (inl e, snd (promise_all calls' w1))
        | (inr a, w1) =>
            match promise_all calls' w1 with
            | (inl e, w2) => (inl e, w2)
            | (inr l, w2) => (inr (a :: l), w2)
            end
        end
  end.

(** ** Numbers and their decimal form *)

(** A number of the language is [option Z] where it can be [NaN], which is
    [None]. *)

(** [String(n)] for a natural number [n]. *)
Definition decimal (n : nat) : string := NilEmpty.string_of_uint (Nat.to_uint n).

(** The decimal digits at the start of [s], read as a number; [acc] is
    [None] until a digit is read. *)
Fixpoint digits (acc : option Z) (s : string) : option Z :=
  match s with
  | String c s' =>
      if JsString.is_digit c then
        digits
          (Some (10 * match acc with Some n => n | None => 0 end
                 + Z.of_nat (JsString.code c - 48))%Z)
          s'
      else acc
  | EmptyString => acc
  end.

(** [parseInt(s, 10)]: leading white space is skipped, one sign is read,
    then decimal digits up to the first other character; [None] is [NaN].
    The value is exact, as it is in the language below 2^53. *)
Definition parseInt (s : string) : option Z :=
  match JsString.trimStart s with
  | String "-" s' => option_map Z.opp (digits None s')
  | String "+" s' => digits None s'
  | s' => digits None s'
  end.

(** ** The brand and prompt-run models *)

(** A JSON response of a route: the data with status 200, or an error
    message with its status. *)
Inductive Json (A : Type) : Type :=
| Data (data : A)
| Problem (status : nat) (message : string).
Arguments Data {A} data.
Arguments Problem {A} status message.

(** [ORDER BY]: insertion from the right, so rows that compare equal keep
    their order. *)
Fixpoint insert_by {A} (le : A -> A -> bool) (x : A) (l : list A) : list A :=
  match l with
  | [] => [x]
  | y :: l' => if le x y then x :: l else y :: insert_by le x l'
  end.

Definition order_by {A} (le : A -> A -> bool) (l : list A) : list A :=
  fold_right (insert_by le) [] l.

Module Models.
Import Db MentionStore JsString.

Definition with_brands (rows : list Brand) (t : Tables) : Tables :=
  {| brands := rows;
     prompt_runs := prompt_runs t;
     mentions := mentions t;
     mentions_id_seq := mentions_id_seq t |}.

Definition with_prompt_runs (rows : list PromptRun) (t : Tables) : Tables :=
  {| brands := brands t;
     prompt_runs := rows;
     mentions := mentions t;
     mentions_id_seq := mentions_id_seq t |}.

(** A [SELECT]: the rows are read and the tables stay as they are. *)
Definition select {A} (rows : Tables -> A) (time : nat) (t : Tables)
    : Result A * Tables :=
  (Ok (rows t), t).

(** [WHERE LOWER(name) = LOWER($1)] *)
Definition same_name (name_ : string) (b : Brand) : bool :=
  String.eqb (toLowerCase (name b)) (toLowerCase name_).

(** The models of [supabase-models.ts] that read and write through the
    query builder of the hosted API; only the mention upsert is modelled. *)
Record SupabaseModels : Type := {
  SupabaseBrandModel_getOrCreate : string -> M Brand;
  SupabaseBrandModel_getAll : M (list Brand);
  SupabaseBrandModel_getById : nat -> M (option Brand);
  SupabasePromptRunModel_create :
    string -> string -> string -> string -> M PromptRun;
  SupabasePromptRunModel_getAll : Z -> Z -> M (list PromptRun);
  SupabasePromptRunModel_getCount : M (option Z);
  SupabaseMentionModel_getByPromptRunId : nat -> M (list Mention);
}.

Section Statements.

(** The next values of the sequences behind [brands.id] and
    [prompt_runs.id] in a state of the database, and the collation of the
    column [brands.name]. *)
Variable brands_id_seq : Tables -> nat.
Variable prompt_runs_id_seq : Tables -> nat.
Variable collation_le : string -> string -> bool.

Variable supabase : SupabaseModels.

(** [SELECT * FROM brands WHERE LOWER(name) = LOWER($1)] *)
Definition select_brands_named (name_ : string) :=
  select (fun t => List.filter (same_name name_) (brands t)).

(** [INSERT INTO brands (name) VALUES ($1) RETURNING *] against
    [id SERIAL PRIMARY KEY] and [name VARCHAR(255) UNIQUE NOT NULL]. *)
Definition insert_brand (name_ : string) (time : nat) (t : Tables)
    : Result (list Brand) * Tables :=
  let row :=
    {| brand_row_id := brands_id_seq t;
       name := name_;
       brand_created_at := time;
       updated_at := time |} in
  if 255 <? String.length name_ then
    (Throw (DriverError "value too long for type character varying(255)"), t)
  else if existsb (fun b => brand_row_id b =? brand_row_id row) (brands t) then
    (Throw (DriverError "duplicate key value violates unique constraint brands_pkey"), t)
  else if existsb (fun b => String.eqb (name b) name_) (brands t) then
    (Throw (DriverError "duplicate key value violates unique constraint brands_name_key"), t)
  else (Ok [row], with_brands (brands t ++ [row]) t).

(** [SELECT * FROM brands ORDER BY name] *)
Definition select_brands :=
  select (fun t => order_by (fun a b => collation_le (name a) (name b)) (brands t)).

(** [SELECT * FROM brands WHERE id = $1] *)
Definition select_brand (id_ : nat) :=
  select (fun t => List.filter (fun b => brand_row_id b =? id_) (brands t)).

(** [INSERT INTO prompt_runs (category, prompt, raw_response, ai_provider)
    VALUES ($1, $2, $3, $4) RETURNING *] against [id SERIAL PRIMARY KEY] and
    [ai_provider VARCHAR(50) NOT NULL]. *)
Definition insert_prompt_run (category_ prompt_ rawResponse aiProvider : string)
    (time : nat) (t : Tables) : Result (list PromptRun) * Tables :=
  let row :=
    {| run_id := prompt_runs_id_seq t;
       run_category := category_;
       prompt := prompt_;
       raw_response := rawResponse;
       ai_provider := aiProvider;
       run_created_at := time |} in
  if 50 <? String.length aiProvider then
    (Throw (DriverError "value too long for type character varying(50)"), t)
  else if existsb (fun r => run_id r =? run_id row) (prompt_runs t) then
    (Throw (DriverError "duplicate key value violates unique constraint prompt_runs_pkey"), t)
  else (Ok [row], with_prompt_runs (prompt_runs t ++ [row]) t).

(** [SELECT * FROM prompt_runs ORDER BY created_at DESC LIMIT $1 OFFSET $2] *)
Definition select_prompt_runs (limit offset : Z) (time : nat) (t : Tables)
    : Result (list PromptRun) * Tables :=
  if (limit <? 0)%Z then (Throw (DriverError "LIMIT must not be negative"), t)
  else if (offset <? 0)%Z then (Throw (DriverError "OFFSET must not be negative"), t)
  else
    (Ok (firstn (Z.to_nat limit)
           (skipn (Z.to_nat offset)
              (order_by (fun a b => run_created_at b <=? run_created_at a)
                 (prompt_runs t)))),
     t).

(** [SELECT COUNT(...) as count FROM prompt_runs], over all rows: the driver
    returns the count, a [bigint], as its decimal form. *)
Definition count_prompt_runs :=
  select (fun t => decimal (length (prompt_runs t))).

(** [SELECT m.*, b.name as brand_name FROM mentions m JOIN brands b ON
    m.brand_id = b.id WHERE m.prompt_run_id = $1 ORDER BY m.mention_count
    DESC]; the rows are read as [Mention]s, without the extra column. *)
Definition select_mentions_of_run (promptRunId : nat) :=
  select (fun t =>
    order_by (fun a b => mention_count b <=? mention_count a)
      (flat_map
         (fun m =>
            map (fun _ => m)
              (List.filter (fun b => brand_row_id b =? brand_id m) (brands t)))
         (List.filter (fun m => prompt_run_id m =? promptRunId) (mentions t)))).

(** [result.rows[0]], after a use of [result.rows[0].id] that throws when
    there is no row. *)
Definition first_row {A} (rows : list A) : M A :=
  match rows with
  | row :: _ => ret row
  | [] => throw (JsError "Cannot read properties of undefined (reading 'id')")
  end.

(** [BrandModel.getOrCreate] *)
Definition BrandModel_getOrCreate (name_ : string) : M Brand :=
  usingSupabase <- get (fun w => useSupabase (connection w)) ;;
  if usingSupabase then SupabaseBrandModel_getOrCreate supabase name_
  else
    try_catch
      (existing <- query (select_brands_named name_) ;;
       match existing with
       | row :: _ => ret row
       | [] =>
           result <- query (insert_brand name_) ;;
           row <- first_row result ;;
           logger debug "Brand created" ;;
           ret row
       end)
      (fun err => logger error "Error getting or creating brand" ;; throw err).

(** [BrandModel.getAll] *)
Definition BrandModel_getAll : M (list Brand) :=
  usingSupabase <- get (fun w => useSupabase (connection w)) ;;
  if usingSupabase then SupabaseBrandModel_getAll supabase
  else
    try_catch (query select_brands)
      (fun err => logger error "Error getting all brands" ;; throw err).

(** [BrandModel.getById] *)
Definition BrandModel_getById (id_ : nat) : M (option Brand) :=
  usingSupabase <- get (fun w => useSupabase (connection w)) ;;
  if usingSupabase then SupabaseBrandModel_getById supabase id_
  else
    try_catch
      (rows <- query (select_brand id_) ;;
       ret (List.head rows))
      (fun err => logger error "Error getting brand by ID" ;; throw err).

(** [PromptRunModel.create] *)
Definition PromptRunModel_create (category_ prompt_ rawResponse aiProvider : string)
    : M PromptRun :=
  usingSupabase <- get (fun w => useSupabase (connection w)) ;;
  if usingSupabase then
    SupabasePromptRunModel_create supabase category_ prompt_ rawResponse aiProvider
  else
    try_catch
      (result <- query (insert_prompt_run category_ prompt_ rawResponse aiProvider) ;;
       row <- first_row result ;;
       logger debug "Prompt run created" ;;
       ret row)
      (fun err => logger error "Error creating prompt run" ;; throw err).

(** [PromptRunModel.getAll] *)
Definition PromptRunModel_getAll (limit offset : Z) : M (list PromptRun) :=
  usingSupabase <- get (fun w => useSupabase (connection w)) ;;
  if usingSupabase then SupabasePromptRunModel_getAll supabase limit offset
  else
    try_catch (query (select_prompt_runs limit offset))
      (fun err => logger error "Error getting all prompt runs" ;; throw err).

(** [PromptRunModel.getCount] *)
Definition PromptRunModel_getCount : M (option Z) :=
  usingSupabase <- get (fun w => useSupabase (connection w)) ;;
  if usingSupabase then SupabasePromptRunModel_getCount supabase
  else
    try_catch
      (count_ <- query count_prompt_runs ;;
       ret (parseInt count_))
      (fun err => logger error "Error getting prompt runs count" ;; throw err).

(** [MentionModel.getByPromptRunId] *)
Definition MentionModel_getByPromptRunId (promptRunId : nat) : M (list Mention) :=
  usingSupabase <- get (fun w => useSupabase (connection w)) ;;
  if usingSupabase then SupabaseMentionModel_getByPromptRunId supabase promptRunId
  else
    try_catch (query (select_mentions_of_run promptRunId))
      (fun err =>
         logger error "Error getting mentions by prompt run ID" ;; throw err).

End Statements.

End Models.

(** ** The visibility service: metrics and history *)

Module History.

Record Metrics : Type := {
  promptsTracked : option Z;
  brandsTracked : nat;
}.

Record BrandStatus : Type := {
  brandName : string;
  mentioned : bool;
  mentionCount : nat;
}.

Record PromptWithMentions : Type := {
  id : nat;
  category : string;
  prompt : string;
  aiProvider : string;
  timestamp : nat;
  brands : list BrandStatus;
}.

Section Service.

Variable PromptRunModel_getCount : M (option Z).
Variable PromptRunModel_getAll : Z -> Z -> M (list Db.PromptRun).
Variable BrandModel_getAll : M (list Db.Brand).
Variable BrandModel_getById : nat -> M (option Db.Brand).
Variable MentionModel_getByPromptRunId : nat -> M (list Db.Mention).

(** [getMetrics] *)
Definition getMetrics : M Metrics :=
  try_catch
    (promptRunsCount <- PromptRunModel_getCount ;;
     brands_ <- BrandModel_getAll ;;
     ret {| promptsTracked := promptRunsCount;
            brandsTracked := length brands_ |})
    (fun err => logger error "Error getting metrics" ;; throw err).

(** The route [GET /api/metrics]. *)
Definition metrics_GET : M (Json Metrics) :=
  try_catch
    (logger debug "Fetching dashboard metrics" ;;
     metrics <- getMetrics ;;
     ret (Data metrics))
    (fun err =>
       logger error "Error fetching metrics" ;;
       ret (Problem 500 (exn_message err))).

(** The [async] callback mapped over the mentions of a run;
    [brand?.name || 'Unknown']. *)
Definition brand_status (mention : Db.Mention) : M BrandStatus :=
  brand_ <- BrandModel_getById (Db.brand_id mention) ;;
  ret {| brandName :=
           match brand_ with
           | Some b => if String.eqb (Db.name b) "" then "Unknown" else Db.name b
           | None => "Unknown"
           end;
         mentioned := Db.mentioned mention;
         mentionCount := Db.mention_count mention |}.

(** [brandMentions.some(bm => bm.brandName.toLowerCase() ===
    brandFilter.toLowerCase())] *)
Definition hasBrand (brandFilter : string) (brandMentions : list BrandStatus)
    : bool :=
  existsb
    (fun bm =>
       String.eqb (JsString.toLowerCase (brandName bm))
         (JsString.toLowerCase brandFilter))
    brandMentions.

(** The [for (const promptRun of promptRuns)] loop, over the array
    [promptsWithMentions] built so far. *)
Fixpoint collect (brandFilter : option string) (promptRuns : list Db.PromptRun)
    (promptsWithMentions : list PromptWithMentions)
    : M (list PromptWithMentions) :=
  match promptRuns with
  | [] => ret promptsWithMentions
  | promptRun :: rest =>
      mentions_ <- MentionModel_getByPromptRunId (Db.run_id promptRun) ;;
      brandMentions <- promise_all (map brand_status mentions_) ;;
      let skipped :=
        match brandFilter with
        | Some wanted => truthy brandFilter && negb (hasBrand wanted brandMentions)
        | None => false
        end in
      if skipped then collect brandFilter rest promptsWithMentions
      else
        collect brandFilter rest
          (promptsWithMentions ++
           [{| id := Db.run_id promptRun;
               category := Db.run_category promptRun;
               prompt := Db.prompt promptRun;
               aiProvider := Db.ai_provider promptRun;
               timestamp := Db.run_created_at promptRun;
               brands := brandMentions |}])
  end.

(** [getPromptsWithMentions] *)
Definition getPromptsWithMentions (limit offset : Z) (brandFilter : option string)
    : M (list PromptWithMentions) :=
  try_catch
    (logger debug "Fetching prompts with mentions" ;;
     promptRuns <- PromptRunModel_getAll limit offset ;;
     promptsWithMentions <- collect brandFilter promptRuns [] ;;
     logger debug "Fetched prompts with mentions" ;;
     ret promptsWithMentions)
    (fun err =>
       logger error "Error getting prompts with mentions" ;; throw err).

End Service.

(** *** The route [GET /api/prompts] *)

(** [request.nextUrl.searchParams], by the three names the route reads;
    [None] is the [null] of a parameter that is absent. *)
Record SearchParams : Type := {
  limitParam : option string;
  offsetParam : option string;
  brandParam : option string;
}.

(** The limit the route goes on with; [None] when it answers 400. *)
Definition accepted_limit (params : SearchParams) : option Z :=
  match limitParam params with
  | Some s =>
      if truthy (limitParam params) then
        match parseInt s with
        | Some parsedLimit =>
            if (0 <? parsedLimit)%Z && (parsedLimit <=? 100)%Z
            then Some parsedLimit else None
        | None => None
        end
      else Some 50%Z
  | None => Some 50%Z
  end.

Definition accepted_offset (params : SearchParams) : option Z :=
  match offsetParam params with
  | Some s =>
      if truthy (offsetParam params) then
        match parseInt s with
        | Some parsedOffset =>
            if (0 <=? parsedOffset)%Z then Some parsedOffset else None
        | None => None
        end
      else Some 0%Z
  | None => Some 0%Z
  end.

Section Route.

Variable getPromptsWithMentions_ :
  Z -> Z -> option string -> M (list PromptWithMentions).

Definition prompts_GET (params : SearchParams)
    : M (Json (list PromptWithMentions)) :=
  try_catch
    (match accepted_limit params with
     | None => ret (Problem 400 "Limit must be a number between 1 and 100")
     | Some limit =>
         match accepted_offset params with
         | None => ret (Problem 400 "Offset must be a non-negative number")
         | Some offset =>
             logger debug "Fetching historical prompts" ;;
             prompts <- getPromptsWithMentions_ limit offset
                          (if truthy (brandParam params) then brandParam params
                           else None) ;;
             ret (Data prompts)
         end
     end)
    (fun err =>
       logger error "Error fetching prompts" ;;
       ret (Problem 500 (exn_message err))).

End Route.

End History.

(** ** Notions about the routes, the models and the history *)

(** The public fields of a history entry are those of its run. *)
Definition entry_of (run : Db.PromptRun) (entry : History.PromptWithMentions)
    : Prop :=
  History.id entry = Db.run_id run
  /\ History.category entry = Db.run_category run
  /\ History.prompt entry = Db.prompt run
  /\ History.aiProvider entry = Db.ai_provider run
  /\ History.timestamp entry = Db.run_created_at run.

(** What the entries added by the loop of the history have in common:
    every brand is named, and a brand filter finds its brand. *)
Definition well_formed (brandFilter : option string)
    (entry : History.PromptWithMentions) : Prop :=
  Forall (fun status => History.brandName status <> "") (History.brands entry)
  /\ match brandFilter with
     | Some wanted =>
         truthy brandFilter = true ->
         History.hasBrand wanted (History.brands entry) = true
     | None => True
     end.

(** The names of the brand rows differ up to letter case; their ids
    differ. *)
Definition distinct_names (rows : list Db.Brand) : Prop :=
  NoDup (map (fun b => JsString.toLowerCase (Db.name b)) rows).

Definition distinct_ids (rows : list Db.Brand) : Prop :=
  NoDup (map Db.brand_row_id rows).

(** The page of runs that [PromptRunModel.getAll] reads over the pool. *)
Definition page (t : Db.Tables) (limit offset : Z) : list Db.PromptRun :=
  firstn (Z.to_nat limit)
    (skipn (Z.to_nat offset)
       (order_by (fun a b => Db.run_created_at b <=? Db.run_created_at a)
          (Db.prompt_runs t))).

(** The reads of the models over the pool happen in worlds with the same
    tables, away from the hosted API. *)
Definition reading (t : Db.Tables) (w : World) : Prop :=
  tables w = t /\ Db.useSupabase (connection w) = false.

(** The history over the pool, as a function of the tables: the mention
    rows of a run as [MentionModel.getByPromptRunId] reads them, the status
    shown for a mention row, the entry of a run, and the brand filter. *)
Definition mentions_of_run (t : Db.Tables) (run : nat) : list Db.Mention :=
  order_by (fun a b => Db.mention_count b <=? Db.mention_count a)
    (flat_map
       (fun m =>
          map (fun _ => m)
            (List.filter (fun b => Db.brand_row_id b =? Db.brand_id m)
               (Db.brands t)))
       (List.filter (fun m => Db.prompt_run_id m =? run) (Db.mentions t))).

Definition status_in (t : Db.Tables) (m : Db.Mention) : History.BrandStatus :=
  {| History.brandName :=
       match List.head
               (List.filter (fun b => Db.brand_row_id b =? Db.brand_id m)
                  (Db.brands t)) with
       | Some b => if String.eqb (Db.name b) "" then "Unknown" else Db.name b
       | None => "Unknown"
       end;
     History.mentioned := Db.mentioned m;
     History.mentionCount := Db.mention_count m |}.

Definition entry_in (t : Db.Tables) (run : Db.PromptRun)
    : History.PromptWithMentions :=
  {| History.id := Db.run_id run;
     History.category := Db.run_category run;
     History.prompt := Db.prompt run;
     History.aiProvider := Db.ai_provider run;
     History.timestamp := Db.run_created_at run;
     History.brands := map (status_in t) (mentions_of_run t (Db.run_id run)) |}.

Definition passes_filter (brandFilter : option string)
    (entry : History.PromptWithMentions) : bool :=
  match brandFilter with
  | Some wanted =>
      negb (truthy brandFilter)
      || History.hasBrand wanted (History.brands entry)
  | None => true
  end.

(** Where the statuses of an entry come from: a mention row of the run
    and the brand row it refers to. *)
Definition status_of_rows (t : Db.Tables) (run : nat)
    (status : History.BrandStatus) : Prop :=
  exists m b,
    In m (Db.mentions t) /\ Db.prompt_run_id m = run
    /\ In b (Db.brands t) /\ Db.brand_row_id b = Db.brand_id m
    /\ History.mentioned status = Db.mentioned m
    /\ History.mentionCount status = Db.mention_count m
    /\ History.brandName status
       = if String.eqb (Db.name b) "" then "Unknown" else Db.name b.

(** The four values that the loop of [checkVisibility] stores for a brand
    name: those of the first mention with that name up to letter case. *)
Definition stored_values (mentions_ : list BrandMention) (brandName : string)
    : bool * nat * list string * list string :=
  match List.find
          (fun m => String.eqb (JsString.toLowerCase (brand m))
                      (JsString.toLowerCase brandName)) mentions_ with
  | Some m => (0 <? count m, count m, context m, citationUrls m)
  | None => (false, 0, [], [])
  end.

Definition values_of (row : Db.Mention)
    : bool * nat * list string * list string :=
  (Db.mentioned row, Db.mention_count row, Db.context row, Db.citation_urls row).

(** The tables hold a brand row for [brandName] and, for the run, a
    mention row of that brand with the stored values. *)
Definition stored_for (t : Db.Tables) (run : nat)
    (mentions_ : list BrandMention) (brandName : string) : Prop :=
  exists brand_row row,
    In brand_row (Db.brands t)
    /\ JsString.toLowerCase (Db.name brand_row) = JsString.toLowerCase brandName
    /\ In row (Db.mentions t)
    /\ key_of row = (run, Db.brand_row_id brand_row)
    /\ values_of row = stored_values mentions_ brandName.

(** What the loop over the brands relies on and maintains: the connection
    is the pool, and the tables respect [UNIQUE(prompt_run_id, brand_id)] on
    [mentions] and the primary key of [brands]. *)
Definition store_invariant (w : World) : Prop :=
  Db.useSupabase (connection w) = false
  /\ unique_keys (Db.mentions (tables w))
  /\ distinct_ids (Db.brands (tables w)).

(** How a stored brand shows in the history entry of its run: with the
    stored flag and count, under the name it was given up to letter case
    (an empty name shows as "Unknown"). *)
Definition shown_as (mentions_ : list BrandMention) (brandName : string)
    (status : History.BrandStatus) : Prop :=
  let '(mentioned_, count_, _, _) := stored_values mentions_ brandName in
  History.mentioned status = mentioned_
  /\ History.mentionCount status = count_
  /\ JsString.toLowerCase (History.brandName status)
     = JsString.toLowerCase
         (if String.eqb brandName "" then "Unknown" else brandName).

(** ** Scenarios with a database *)

Module Stored.

(** An environment that selects the hosted API, and a client library that
    accepts it. *)
Definition db_env : DbEnv :=
  {| SUPABASE_URL := Some "https://tracker.supabase.co";
     NEXT_PUBLIC_SUPABASE_URL := None;
     DATABASE_URL := None;
     SUPABASE_DATABASE_URL := None;
     SUPABASE_SERVICE_ROLE_KEY := None;
     SUPABASE_ANON_KEY := Some "anon-key" |}.

Definition createClient (url key : string) : Result unit := Ok tt.

(** Sequences that count the rows, a byte-wise collation, and a hosted API
    that is not there. *)
Definition brands_id_seq (t : Db.Tables) : nat := S (length (Db.brands t)).

Definition prompt_runs_id_seq (t : Db.Tables) : nat :=
  S (length (Db.prompt_runs t)).

Definition collation_le : string -> string -> bool := String.leb.

Definition no_client {A} : M A := throw (JsError "Supabase client not available").

Definition no_supabase : Models.SupabaseModels :=
  {| Models.SupabaseBrandModel_getOrCreate := fun _ => no_client;
     Models.SupabaseBrandModel_getAll := no_client;
     Models.SupabaseBrandModel_getById := fun _ => no_client;
     Models.SupabasePromptRunModel_create := fun _ _ _ _ => no_client;
     Models.SupabasePromptRunModel_getAll := fun _ _ => no_client;
     Models.SupabasePromptRunModel_getCount := no_client;
     Models.SupabaseMentionModel_getByPromptRunId := fun _ => no_client |}.

Definition create := Models.PromptRunModel_create prompt_runs_id_seq no_supabase.
Definition getOrCreate := Models.BrandModel_getOrCreate brands_id_seq no_supabase.
Definition getAll := Models.PromptRunModel_getAll no_supabase.
Definition getById := Models.BrandModel_getById no_supabase.
Definition getByPromptRunId := Models.MentionModel_getByPromptRunId no_supabase.

(** The world after one visibility check for [Scenario.two_brands], stored
    over the pool. *)
Definition after_check : World :=
  snd (checkVisibility Scenario.host_RegExp Scenario.backend
         (new_AIService Scenario.env) create getOrCreate
         "CRM software" Scenario.two_brands openai false None
         (Scenario.world Scenario.postgres)).

(** The mentions that this check reports. *)
Definition reported : list BrandMention :=
  map (assign_citations (extractCitations Scenario.reply))
    [Scenario.salesforce_mention; Scenario.hubspot_mention].

Definition response : AIResponse :=
  {| text := Scenario.reply; citations := extractCitations Scenario.reply |}.

(** The rows that this check adds, and its entry in the history. *)
Definition hubspot_row : Db.Brand :=
  {| Db.brand_row_id := 2;
     Db.name := "HubSpot";
     Db.brand_created_at := 1700;
     Db.updated_at := 1700 |}.

Definition new_run : Db.PromptRun :=
  {| Db.run_id := 2;
     Db.run_category := "CRM software";
     Db.prompt := "Visibility check for CRM software - Brands: Salesforce, HubSpot";
     Db.raw_response := Scenario.reply;
     Db.ai_provider := "openai";
     Db.run_created_at := 1700 |}.

Definition history_entry : History.PromptWithMentions :=
  {| History.id := 2;
     History.category := "CRM software";
     History.prompt :=
       "Visibility check for CRM software - Brands: Salesforce, HubSpot";
     History.aiProvider := "openai";
     History.timestamp := 1700;
     History.brands :=
       [{| History.brandName := "Salesforce";
           History.mentioned := true;
           History.mentionCount := 2 |};
        {| History.brandName := "HubSpot";
           History.mentioned := true;
           History.mentionCount := 1 |}] |}.

End Stored.

(** ** The form of the page *)

Module Form.
Import JsString.

(** The state that [handleSubmit] reads. *)
Record FormState : Type := {
  category : string;
  brandsInput : string;
  mainBrand : string;
  aiProvider : AIProvider;
  isCompetitorMode : bool;
}.

(** [s.split(sep)] for a one-character separator. *)
Fixpoint split_on (sep : ascii) (s : string) : list string :=
  match s with
  | EmptyString => [EmptyString]
  | String c s' =>
      if Ascii.eqb c sep then EmptyString :: split_on sep s'
      else
        match split_on sep s' with
        | piece :: pieces => String c piece :: pieces
        | [] => [String c EmptyString]
        end
  end.

(** [brandsInput.split(',').map(b => b.trim()).filter(Boolean)] *)
Definition parse_brands (brandsInput_ : string) : list string :=
  List.filter (fun b => negb (String.eqb b ""))
    (map trim (split_on "," brandsInput_)).

(** [handleSubmit] up to its request: the error that it sets, or the body
    that it posts to [/api/check-visibility], as the route parses it. *)
Definition handleSubmit_request (st : FormState) : string + RequestBody :=
  let brands := parse_brands (brandsInput st) in
  if negb (truthy (Some (category st))) || (length brands =? 0) then
    inl "Please provide both category and at least one brand"
  else if isCompetitorMode st && negb (truthy (Some (trim (mainBrand st)))) then
    inl "Main brand is required when competitor mode is enabled"
  else
    inr {| body_category := Some (category st);
           body_brands := Some brands;
           body_provider := Some (provider_name (aiProvider st));
           body_isCompetitorMode := isCompetitorMode st;
           body_mainBrand :=
             if isCompetitorMode st then Some (trim (mainBrand st)) else None |}.

(** A form filled in with spaces and empty entries between the commas. *)
Definition filled_in : FormState :=
  {| category := "CRM software";
     brandsInput := " HubSpot , ,Pipedrive,";
     mainBrand := " Salesforce ";
     aiProvider := openai;
     isCompetitorMode := true |}.

End Form.
(** * Properties *)

(** Closed goals are settled by evaluation, one conjunct at a time. *)
Ltac by_evaluation :=
  intros;
  repeat match goal with |- _ /\ _ => split end;
  vm_compute; reflexivity.

(** ** The [i] flag *)

Section CaseFolding.
Import JsString Regex.

















End CaseFolding.

(** ** Exceptions and traversals *)

Lemma mapR_Ok_Forall2 {A B} (f : A -> Result B) (l : list A) (l' : list B) :
  mapR f l = Ok l' -> Forall2 (fun x y => f x = Ok y) l l'.
Proof.
  revert l'. induction l as [|x l IH]; intros l' H; simpl in H.
  - injection H as <-. constructor.
  - destruct (f x) as [e|y] eqn:Hx; [discriminate|]. simpl in H.
    destruct (mapR f l) as [e|ys]; [discriminate|]. simpl in H.
    injection H as <-. constructor; auto.
Qed.

(** ** The mention analyzer *)

Section MentionAnalyzerFacts.
Variable host_RegExp : string -> Result Regex.RegExp.

Lemma analyse_mention_keeps text sentences m m' :
  analyse_mention host_RegExp text sentences m = Ok m' ->
  brand m' = brand m /\ citationUrls m' = citationUrls m.
Proof.
  unfold analyse_mention. destruct (new_RegExp_gi _ _) as [e|r]; simpl.
  - discriminate.
  - intros H. injection H as <-. auto.
Qed.

(** One mention per brand, in the order of the brands, none of them with a
    citation yet. *)
Lemma extractBrandMentions_shape text brands_ ms :
  extractBrandMentions host_RegExp text brands_ = Ok ms ->
  map brand ms = brands_ /\ Forall (fun m => citationUrls m = []) ms.
Proof.
  unfold extractBrandMentions. intros H. apply mapR_Ok_Forall2 in H.
  remember (sentences_of text) as sentences eqn:E. clear E.
  revert ms H. induction brands_ as [|b bs IH]; intros ms H; simpl in H.
  - inversion H. split; constructor.
  - inversion H as [|x y l l' Hxy Hrest]; subst.
    apply analyse_mention_keeps in Hxy. destruct Hxy as [Hb Hc].
    destruct (IH _ Hrest) as [IH1 IH2]. simpl in *.
    split; [congruence | constructor; auto].
Qed.

Lemma extractBrandMentions_length text brands_ ms :
  extractBrandMentions host_RegExp text brands_ = Ok ms ->
  length ms = length brands_.
Proof.
  intros H. apply extractBrandMentions_shape in H. destruct H as [H _].
  rewrite <- H. symmetry. apply length_map.
Qed.


(** C10: a brand that is counted zero times can still be given context
    sentences.  Sentences are selected by plain substring containment and
    occurrences are counted between word boundaries: for the text
    "Mojolicious" and the brand "Mojo" the count is 0 and the context
    holds one sentence. *)
Theorem C10_zero_count_with_context :
  exists text brand_ m,
    extractBrandMentions host_RegExp text [brand_] = Ok [m]
    /\ count m = 0
    /\ context m = ["Mojolicious"].
Proof.
  exists "Mojolicious", "Mojo".
  eexists. split; [vm_compute; reflexivity|]. by_evaluation.
Qed.

(** C2 (the code does not escape the brand name): with the brand "C++"
    the pattern [\bc++\b] has a quantifier with nothing to repeat and the
    analyzer throws; with the brand "Notion.so" the dot matches any
    character, so "notionXso" is counted as a mention. *)
Theorem C2_unescaped_brand_name :
  extractBrandMentions host_RegExp "I love C++" ["C++"]
  = Throw (RegExpSyntaxError "\bc++\b")
  /\ extractBrandMentions host_RegExp "Try notionXso today" ["Notion.so"]
     = Ok [{| brand := "Notion.so";
              count := 1;
              context := [];
              citationUrls := [] |}].
Proof. by_evaluation. Qed.

End MentionAnalyzerFacts.

(** ** The citation extractor *)

Lemma array_includes_In (arr : list string) (x : string) :
  JsString.array_includes arr x = true <-> In x arr.
Proof.
  unfold JsString.array_includes. rewrite existsb_exists. split.
  - intros [y [Hy Heq]]. apply String.eqb_eq in Heq. subst. assumption.
  - intros H. exists x. split; [assumption | apply String.eqb_refl].
Qed.

(** The second loop never adds a URL that is already listed. *)
Lemma add_plain_url_NoDup (citations_ : list string) (h : Regex.hit) :
  NoDup citations_ -> NoDup (add_plain_url citations_ h).
Proof.
  intros Hnd. unfold add_plain_url.
  destruct (JsString.array_includes _ _) eqn:Hin; [assumption|].
  apply NoDup_app. repeat split.
  - assumption.
  - intros x Hx Hx'. apply list_elem_of_In in Hx, Hx'.
    destruct Hx' as [<-|[]].
    apply array_includes_In in Hx. congruence.
  - apply NoDup_singleton.
Qed.

Lemma fold_add_plain_url_NoDup (hits : list Regex.hit) (citations_ : list string) :
  NoDup citations_ -> NoDup (fold_left add_plain_url hits citations_).
Proof.
  revert citations_. induction hits as [|h hits IH]; intros cs Hnd; simpl.
  - assumption.
  - apply IH, add_plain_url_NoDup, Hnd.
Qed.

Lemma fold_add_plain_url_prefix (hits : list Regex.hit) (citations_ : list string) :
  exists added,
    fold_left add_plain_url hits citations_ = (citations_ ++ added)%list.
Proof.
  revert citations_. induction hits as [|h hits IH]; intros cs; simpl.
  - exists []. symmetry. apply app_nil_r.
  - destruct (IH (add_plain_url cs h)) as [added Hadded]. rewrite Hadded.
    unfold add_plain_url. destruct (JsString.array_includes _ _).
    + exists added. reflexivity.
    + eexists. rewrite <- app_assoc. reflexivity.
Qed.

(** The markdown URLs come first, one per link in text order; the plain
    URLs follow, and the list has no duplicate as soon as the markdown
    URLs have none. *)
Lemma extractCitations_layout (text_ : string) :
  let linked := map (group 2) (Regex.match_all markdownLinkRegex text_) in
  (exists plain, extractCitations text_ = (linked ++ plain)%list)
  /\ (NoDup linked -> NoDup (extractCitations text_)).
Proof.
  unfold extractCitations. split.
  - apply fold_add_plain_url_prefix.
  - apply fold_add_plain_url_NoDup.
Qed.

Lemma extractCitations_empty : extractCitations "" = [].
Proof. reflexivity. Qed.

(** C4 (the first loop does not deduplicate): a text that links the same
    URL twice in markdown syntax yields that URL twice, so the list is not
    free of duplicates; the plain-URL loop does skip the URLs already
    listed, and the example of the specification comes out as stated. *)
Theorem C4_markdown_links_repeat :
  extractCitations
    "Try [HubSpot](https://hubspot.com) for CRM and [HubSpot](https://hubspot.com) for email."
  = ["https://hubspot.com"; "https://hubspot.com"]
  /\ bool_decide
       (NoDup
          (extractCitations
             "Try [HubSpot](https://hubspot.com) for CRM and [HubSpot](https://hubspot.com) for email."))
     = false
  /\ extractCitations
       "See [HubSpot](https://hubspot.com) and also https://hubspot.com/pricing."
     = ["https://hubspot.com"; "https://hubspot.com/pricing"].
Proof. by_evaluation. Qed.

(** ** Citation attribution *)

Section Attribution.
Variable host_RegExp : string -> Result Regex.RegExp.

(** C5: after the analysis of a response, a brand that was counted zero
    times has an empty list of citation URLs whatever the citations of the
    response are; a brand counted at least once whose own filter selects
    nothing gets the first two citations of the response, in order, when
    there is any citation. *)
Theorem C5_citation_attribution (text_ : string) (brands_ : list string)
    (citations_ : list string) (extracted : list BrandMention)
    (m : BrandMention) :
  extractBrandMentions host_RegExp text_ brands_ = Ok extracted ->
  In m extracted ->
  let attributed := assign_citations citations_ m in
  brand attributed = brand m
  /\ count attributed = count m
  /\ (count m = 0 -> citationUrls attributed = [])
  /\ (0 < count m ->
      List.filter (cites m) citations_ = [] ->
      citations_ <> [] ->
      citationUrls attributed = firstn 2 citations_).
Proof.
  intros Hex Hin attributed.
  apply extractBrandMentions_shape in Hex. destruct Hex as [_ Hnone].
  rewrite List.Forall_forall in Hnone. specialize (Hnone m Hin).
  subst attributed. unfold assign_citations.
  destruct (0 <? count m) eqn:Hpos; simpl.
  - apply Nat.ltb_lt in Hpos. repeat split; try reflexivity.
    + intros Hz. lia.
    + intros _ Hnothing Hsome. rewrite Hnothing. simpl.
      destruct citations_; [congruence | reflexivity].
  - apply Nat.ltb_ge in Hpos. repeat split; try reflexivity.
    + intros _. assumption.
    + intros Hz. lia.
Qed.

End Attribution.

(** ** The visibility score *)

(** *** The doubles *)

Section DoubleFacts.
Import SpecFloat Dashboard Dashboard.Double.
Local Open Scope Z_scope.

Lemma digits2_pos_size (p : positive) : digits2_pos p = Pos.size p.
Proof. induction p as [p IH|p IH|]; cbn; congruence. Qed.

(** A positive number of [d] binary digits lies between [2^(d-1)] and
    [2^d]. *)
Lemma digits_bounds (p : positive) :
  2 ^ (Zdigits2 (Zpos p) - 1) <= Zpos p < 2 ^ Zdigits2 (Zpos p).
Proof.
  cbn [Zdigits2]. rewrite digits2_pos_size.
  pose proof (Pos.size_gt p) as Hgt. pose proof (Pos.size_le p) as Hle.
  apply Pos2Z.pos_lt_pos in Hgt. apply Pos2Z.pos_le_pos in Hle.
  rewrite Pos2Z.inj_pow in Hgt, Hle.
  change (Zpos p~0) with (2 * Zpos p) in Hle.
  replace (Zpos (Pos.size p)) with (Z.succ (Zpos (Pos.size p) - 1)) in Hle at 1
    by lia.
  rewrite Z.pow_succ_r in Hle by lia. lia.
Qed.

Lemma digits_unique (p : positive) (d : Z) :
  2 ^ (d - 1) <= Zpos p < 2 ^ d -> Zdigits2 (Zpos p) = d.
Proof.
  intros [Hlo Hhi]. pose proof (digits_bounds p) as [Hlo' Hhi'].
  assert (Hpos : 0 < Zdigits2 (Zpos p)) by (cbn; lia).
  assert (Hd : 0 < d).
  { destruct (Z_lt_le_dec 0 d) as [|Hn]; [assumption|].
    exfalso. destruct (Z.eq_dec d 0) as [->|]; [cbn in Hhi; lia|].
    rewrite Z.pow_neg_r in Hhi by lia. lia. }
  assert (H1 : d - 1 < Zdigits2 (Zpos p)).
  { apply (Z.pow_lt_mono_r_iff 2); lia. }
  assert (H2 : Zdigits2 (Zpos p) - 1 < d).
  { apply (Z.pow_lt_mono_r_iff 2); lia. }
  lia.
Qed.

Lemma shr_1_half (r : shr_record) :
  0 <= shr_m r -> shr_m (shr_1 r) = shr_m r / 2.
Proof.
  destruct r as [m rb sb]. cbn [shr_m]. intros Hm. unfold shr_1.
  destruct m as [|[p|p|]|p]; cbn [shr_m]; try lia.
  all: try reflexivity.
  - apply Z.div_unique with (r := 1); lia.
  - apply Z.div_unique with (r := 0); lia.
Qed.

Lemma iter_shr_1 (n : positive) :
  forall r, 0 <= shr_m r ->
            shr_m (iter_pos shr_1 n r) = shr_m r / 2 ^ Zpos n.
Proof.
  induction n as [n IH|n IH|]; intros r Hr; cbn [iter_pos].
  - assert (H1 : 0 <= shr_m (shr_1 r))
      by (rewrite shr_1_half by assumption; apply Z.div_pos; lia).
    assert (H2 : 0 <= shr_m (iter_pos shr_1 n (shr_1 r)))
      by (rewrite IH by assumption; apply Z.div_pos; lia).
    rewrite IH, IH, shr_1_half by assumption.
    rewrite !Z.div_div by lia. f_equal.
    replace (Zpos n~1) with (1 + (Zpos n + Zpos n)) by lia.
    rewrite !Z.pow_add_r by lia. reflexivity.
  - assert (H2 : 0 <= shr_m (iter_pos shr_1 n r))
      by (rewrite IH by assumption; apply Z.div_pos; lia).
    rewrite IH, IH by assumption. rewrite Z.div_div by lia. f_equal.
    replace (Zpos n~0) with (Zpos n + Zpos n) by lia.
    rewrite Z.pow_add_r by lia. reflexivity.
  - rewrite shr_1_half by assumption. reflexivity.
Qed.

(** The exponent of a number in the normal range. *)
Lemma fexp_normal (x : Z) : -1021 <= x -> fexp prec emax x = x - 53.
Proof. unfold fexp, emin, prec, emax. lia. Qed.

Lemma shr_m_of_loc (m : Z) (l : location) : shr_m (shr_record_of_loc m l) = m.
Proof. destruct l as [|[]]; reflexivity. Qed.

(** Shifting a mantissa of [d >= 53] digits to 53 digits drops its last
    [d - 53] digits. *)
Lemma shr_fexp_normal (m : positive) (e : Z) (l : location) :
  let d := Zdigits2 (Zpos m) in
  53 <= d -> -1021 <= d + e ->
  exists r,
    shr_fexp prec emax (Zpos m) e l = (r, e + (d - 53))
    /\ shr_m r = Zpos m / 2 ^ (d - 53)
    /\ (d = 53 -> r = shr_record_of_loc (Zpos m) l).
Proof.
  intros d Hd He. unfold shr_fexp. fold d. rewrite fexp_normal by lia.
  replace (d + e - 53 - e) with (d - 53) by lia.
  destruct (d - 53) as [|k|k] eqn:Ek; [| |lia].
  - cbn [shr]. eexists. split; [f_equal; lia|].
    split; [|reflexivity]. rewrite shr_m_of_loc, Z.div_1_r. reflexivity.
  - cbn [shr]. eexists. split; [reflexivity|]. split; [|lia].
    rewrite iter_shr_1 by (rewrite shr_m_of_loc; lia).
    rewrite shr_m_of_loc. reflexivity.
Qed.

Lemma round_nearest_even_cases (m : Z) (l : location) :
  round_nearest_even m l = m \/ round_nearest_even m l = m + 1.
Proof.
  unfold round_nearest_even. destruct l as [|[]]; auto.
  destruct (Z.even m); auto.
Qed.

(** Rounding a mantissa of [d >= 53] digits in the normal range: the
    result has 53 digits and is the mantissa cut to 53 digits, or the next
    number. *)
Lemma round_normal (m : positive) (e : Z) (l : location) :
  let d := Zdigits2 (Zpos m) in
  53 <= d -> -1021 <= d + e -> d + e <= 1023 ->
  exists m' e' m2,
    binary_round_aux prec emax false (Zpos m) e l = S754_finite false m' e'
    /\ Zdigits2 (Zpos m') = 53
    /\ e + (d - 53) <= e' <= e + (d - 53) + 1
    /\ Zpos m / 2 ^ (d - 53) <= m2 <= Zpos m / 2 ^ (d - 53) + 1
    /\ Zpos m' * 2 ^ (e' - (e + (d - 53))) = m2
    /\ (l = loc_Exact -> d = 53 -> m' = m /\ e' = e).
Proof.
  intros d Hd Hlo Hhi. unfold binary_round_aux.
  destruct (shr_fexp_normal m e l Hd Hlo) as (r & -> & Hr & Hexact).
  fold d in Hr, Hexact. fold d.
  pose proof (digits_bounds m) as [Hm_lo Hm_hi]. fold d in Hm_lo, Hm_hi.
  assert (Hpow : 2 ^ (d - 1) = 2 ^ (d - 53) * 2 ^ 52)
    by (rewrite <- Z.pow_add_r by lia; f_equal; lia).
  assert (Hpow' : 2 ^ d = 2 ^ (d - 53) * 2 ^ 53)
    by (rewrite <- Z.pow_add_r by lia; f_equal; lia).
  assert (Hk : 0 < 2 ^ (d - 53)) by (apply Z.pow_pos_nonneg; lia).
  assert (Hm1 : 2 ^ 52 <= shr_m r < 2 ^ 53).
  { rewrite Hr. split.
    - apply Z.div_le_lower_bound; lia.
    - apply Z.div_lt_upper_bound; lia. }
  set (m2 := round_nearest_even (shr_m r) (loc_of_shr_record r)).
  assert (Hm2 : m2 = shr_m r \/ m2 = shr_m r + 1)
    by apply round_nearest_even_cases.
  destruct m2 as [|p2|p2] eqn:Ep2; [lia| |lia].
  destruct (Z_lt_le_dec (Zpos p2) (2 ^ 53)) as [Hsmall|Hbig].
  - assert (Hd2 : Zdigits2 (Zpos p2) = 53)
      by (apply digits_unique; change (53 - 1) with 52; lia).
    destruct (shr_fexp_normal p2 (e + (d - 53)) loc_Exact) as (r' & -> & Hr' & Hsame);
      rewrite ?Hd2; try lia.
    rewrite (Hsame Hd2). cbn [shr_record_of_loc shr_m].
    replace (e + (d - 53) + (53 - 53)) with (e + (d - 53)) by lia.
    replace (e + (d - 53) <=? emax - prec) with true
      by (symmetry; apply Z.leb_le; unfold emax, prec; lia).
    exists p2, (e + (d - 53)), (Zpos p2).
    split; [reflexivity|]. split; [exact Hd2|]. split; [lia|].
    split; [rewrite <- Hr; lia|].
    split; [rewrite Z.sub_diag; cbn; lia|].
    intros -> Hd53. specialize (Hexact Hd53). subst r.
    unfold m2 in Ep2.
    cbn [shr_record_of_loc loc_of_shr_record shr_m round_nearest_even] in Ep2.
    split; [congruence | lia].
  - assert (Hp2 : Zpos p2 = 2 ^ 53) by lia.
    assert (Hd2 : Zdigits2 (Zpos p2) = 54)
      by (apply digits_unique; rewrite Hp2; cbn; lia).
    destruct (shr_fexp_normal p2 (e + (d - 53)) loc_Exact) as (r' & -> & Hr' & _);
      rewrite ?Hd2; try lia.
    rewrite Hd2, Hp2 in Hr'. change (2 ^ 53 / 2 ^ (54 - 53)) with (2 ^ 52) in Hr'.
    rewrite Hr'. change (2 ^ 52) with (Zpos (2 ^ 52)).
    cbv iota beta.
    replace (e + (d - 53) + (54 - 53) <=? emax - prec) with true
      by (symmetry; apply Z.leb_le; unfold emax, prec; lia).
    exists (2 ^ 52)%positive, (e + (d - 53) + (54 - 53)), (Zpos p2).
    split; [reflexivity|]. split; [reflexivity|]. split; [lia|].
    split; [rewrite <- Hr; lia|].
    split.
    + replace (e + (d - 53) + (54 - 53) - (e + (d - 53))) with 1 by lia.
      rewrite Hp2. reflexivity.
    + intros -> Hd53. specialize (Hexact Hd53). subst r.
      unfold m2 in Ep2.
      cbn [shr_record_of_loc loc_of_shr_record shr_m round_nearest_even] in Ep2.
      rewrite Hd53 in Hm_hi. lia.
Qed.

Lemma iter_xO (k p : positive) : Zpos (Pos.iter xO p k) = Zpos p * 2 ^ Zpos k.
Proof.
  induction k as [|k IH] using Pos.peano_ind.
  - cbn [Pos.iter]. lia.
  - rewrite Pos.iter_succ, Pos2Z.inj_xO, IH, Pos2Z.inj_succ, Z.pow_succ_r by lia.
    lia.
Qed.

(** A natural number below [2^53] is a double, held exactly. *)
Lemma of_nat_exact (n : nat) :
  (0 < n)%nat -> Z.of_nat n < 2 ^ 53 ->
  exists M s,
    of_nat n = S754_finite false M (- s)
    /\ 0 <= s <= 52
    /\ Zpos M = Z.of_nat n * 2 ^ s
    /\ Zdigits2 (Zpos M) = 53.
Proof.
  intros Hn Hlt. unfold of_nat, binary_normalize.
  destruct (Z.of_nat n) as [|p|p] eqn:Ep; [lia| |lia].
  unfold binary_round.
  change (Zpos (digits2_pos p)) with (Zdigits2 (Zpos p)).
  pose proof (digits_bounds p) as [Hlo Hhi].
  set (d := Zdigits2 (Zpos p)) in *.
  assert (Hd : 1 <= d <= 53).
  { split; [unfold d; cbn; lia|].
    destruct (Z_le_gt_dec d 53) as [|Hgt]; [assumption|]. exfalso.
    assert (2 ^ 53 <= 2 ^ (d - 1)) by (apply Z.pow_le_mono_r; lia). lia. }
  rewrite fexp_normal by lia. rewrite Z.add_0_r. unfold shl_align.
  rewrite Z.sub_0_r.
  destruct (d - 53) as [|k|k] eqn:Ek; [|lia|].
  - assert (Hd53 : d = 53) by lia.
    destruct (round_normal p 0 loc_Exact) as (m' & e' & m2 & -> & _ & _ & _ & _ & Hsame);
      fold d; try lia.
    fold d in Hsame. destruct (Hsame eq_refl Hd53) as [-> ->].
    exists p, 0. split; [reflexivity|]. split; [lia|].
    split; [cbn; lia | exact Hd53].
  - assert (Hmz : Zpos (Pos.iter xO p k) = Zpos p * 2 ^ Zpos k) by apply iter_xO.
    assert (Hk : Zpos k = 53 - d) by lia.
    assert (Hdz : Zdigits2 (Zpos (Pos.iter xO p k)) = 53).
    { assert (E52 : 2 ^ 52 = 2 ^ (d - 1) * 2 ^ (53 - d))
        by (rewrite <- Z.pow_add_r by lia; f_equal; lia).
      assert (E53 : 2 ^ 53 = 2 ^ d * 2 ^ (53 - d))
        by (rewrite <- Z.pow_add_r by lia; f_equal; lia).
      assert (0 < 2 ^ (53 - d)) by (apply Z.pow_pos_nonneg; lia).
      apply digits_unique. rewrite Hmz, Hk. change (53 - 1) with 52.
      split; [rewrite E52; apply Z.mul_le_mono_nonneg_r
             | rewrite E53; apply Z.mul_lt_mono_pos_r]; lia. }
    destruct (round_normal (Pos.iter xO p k) (Zneg k) loc_Exact)
      as (m' & e' & m2 & -> & _ & _ & _ & _ & Hsame); rewrite ?Hdz; try lia.
    destruct (Hsame eq_refl Hdz) as [-> ->].
    exists (Pos.iter xO p k), (Zpos k). split; [reflexivity|].
    split; [lia|]. split; [exact Hmz | exact Hdz].
Qed.

(** Rounding changes a value by at most one part in [2^52].  Values are
    compared in units of [2^-200], in which the doubles at hand are whole
    numbers. *)
Lemma round_scaled (m : positive) (e : Z) (l : location) :
  let d := Zdigits2 (Zpos m) in
  53 <= d -> -200 <= e -> d + e <= 1023 ->
  exists m' e',
    binary_round_aux prec emax false (Zpos m) e l = S754_finite false m' e'
    /\ Zdigits2 (Zpos m') = 53
    /\ e + (d - 53) <= e' <= e + (d - 53) + 1
    /\ 2 ^ 52 * (Zpos m' * 2 ^ (e' + 200))
       <= (2 ^ 52 + 1) * (Zpos m * 2 ^ (e + 200))
    /\ (2 ^ 52 - 1) * (Zpos m * 2 ^ (e + 200))
       <= 2 ^ 52 * (Zpos m' * 2 ^ (e' + 200)).
Proof.
  intros d Hd He Hhi.
  destruct (round_normal m e l) as (m' & e' & m2 & Hr & Hd' & He' & Hm2 & Hval & _);
    fold d; try lia.
  fold d in He', Hm2, Hval.
  exists m', e'. split; [exact Hr|]. split; [exact Hd'|]. split; [exact He'|].
  pose proof (digits_bounds m) as [Hlo _]. fold d in Hlo.
  set (K := 2 ^ (d - 53)) in *. set (E := 2 ^ (e + 200)).
  assert (HK : 0 < K) by (apply Z.pow_pos_nonneg; lia).
  assert (HE : 0 < E) by (apply Z.pow_pos_nonneg; lia).
  assert (Hlo' : 2 ^ 52 * K <= Zpos m).
  { unfold K. rewrite <- Z.pow_add_r by lia.
    replace (52 + (d - 53)) with (d - 1) by lia. exact Hlo. }
  assert (Hscale : Zpos m' * 2 ^ (e' + 200) = m2 * K * E).
  { replace (e' + 200) with ((e' - (e + (d - 53))) + ((d - 53) + (e + 200))) by lia.
    rewrite !Z.pow_add_r by lia. fold K E. rewrite <- Hval. ring. }
  pose proof (Z.mul_div_le (Zpos m) K HK) as Hdiv1.
  pose proof (Z.mul_succ_div_gt (Zpos m) K HK) as Hdiv2.
  set (Q := Zpos m / K) in *.
  assert (Hup : 2 ^ 52 * (m2 * K) <= (2 ^ 52 + 1) * Zpos m) by nia.
  assert (Hdown : (2 ^ 52 - 1) * Zpos m <= 2 ^ 52 * (m2 * K)) by nia.
  rewrite Hscale. split.
  - replace (2 ^ 52 * (m2 * K * E)) with (2 ^ 52 * (m2 * K) * E) by ring.
    replace ((2 ^ 52 + 1) * (Zpos m * E)) with ((2 ^ 52 + 1) * Zpos m * E) by ring.
    apply Z.mul_le_mono_nonneg_r; lia.
  - replace (2 ^ 52 * (m2 * K * E)) with (2 ^ 52 * (m2 * K) * E) by ring.
    replace ((2 ^ 52 - 1) * (Zpos m * E)) with ((2 ^ 52 - 1) * Zpos m * E) by ring.
    apply Z.mul_le_mono_nonneg_r; lia.
Qed.

Lemma digits_53 (m : positive) :
  Zdigits2 (Zpos m) = 53 -> 2 ^ 52 <= Zpos m < 2 ^ 53.
Proof. intros H. pose proof (digits_bounds m) as Hb. rewrite H in Hb. exact Hb. Qed.

(** The quotient of two natural numbers [a <= b] below [2^53], as the
    doubles compute it, is [a / b] up to one part in [2^51]. *)
Lemma div_scaled (a b : nat) :
  (0 < a <= b)%nat -> Z.of_nat b < 2 ^ 53 ->
  exists mq eq,
    div (of_nat a) (of_nat b) = S754_finite false mq eq
    /\ Zdigits2 (Zpos mq) = 53
    /\ -106 <= eq <= -51
    /\ Z.of_nat b * (2 ^ 52 * (Zpos mq * 2 ^ (eq + 200)))
       <= Z.of_nat a * ((2 ^ 52 + 1) * 2 ^ 200)
    /\ Z.of_nat a * ((2 ^ 52 - 1) * (2 ^ 52 - 1) * 2 ^ 200)
       <= Z.of_nat b * (2 ^ 104 * (Zpos mq * 2 ^ (eq + 200))).
Proof.
  intros [Ha Hab] Hb.
  destruct (of_nat_exact a) as (Ma & sa & -> & Hsa & HMa & Hda); [lia|lia|].
  destruct (of_nat_exact b) as (Mb & sb & -> & Hsb & HMb & Hdb); [lia|lia|].
  pose proof (digits_53 Ma Hda) as HMa53. pose proof (digits_53 Mb Hdb) as HMb53.
  assert (HSa : 0 < 2 ^ sa) by (apply Z.pow_pos_nonneg; lia).
  assert (HSb : 0 < 2 ^ sb) by (apply Z.pow_pos_nonneg; lia).
  assert (Hs : sb <= sa).
  { destruct (Z_le_gt_dec sb sa) as [|Hgt]; [assumption|]. exfalso.
    assert (H2 : 2 ^ (sa + 1) <= 2 ^ sb) by (apply Z.pow_le_mono_r; lia).
    rewrite Z.pow_add_r in H2 by lia. change (2 ^ 1) with 2 in H2. nia. }
  unfold div, SFdiv. cbn [xorb]. unfold SFdiv_core_binary.
  rewrite Hda, Hdb.
  replace (53 + - sa - (53 + - sb)) with (sb - sa) by lia.
  replace (- sa - - sb) with (sb - sa) by lia.
  rewrite fexp_normal by lia.
  rewrite Z.min_l by lia.
  replace (sb - sa - (sb - sa - 53)) with 53 by lia.
  cbv zeta iota beta. rewrite Z.shiftl_mul_pow2 by lia.
  pose proof (Z_div_mod (Zpos Ma * 2 ^ 53) (Zpos Mb) ltac:(lia)) as Hdm.
  destruct (Z.div_eucl (Zpos Ma * 2 ^ 53) (Zpos Mb)) as [q r].
  destruct Hdm as [Hq Hr].
  assert (Hq_lo : 2 ^ 52 <= q) by nia.
  assert (Hq_hi : q < 2 ^ 54) by nia.
  destruct q as [|pq|pq]; [lia| |lia].
  assert (Hdq : Zdigits2 (Zpos pq) = 53 \/ Zdigits2 (Zpos pq) = 54).
  { destruct (Z_lt_le_dec (Zpos pq) (2 ^ 53)).
    - left. apply digits_unique. change (53 - 1) with 52. lia.
    - right. apply digits_unique. change (54 - 1) with 53. lia. }
  destruct (round_scaled pq (sb - sa - 53) (new_location (Zpos Mb) r))
    as (m' & e' & -> & Hd' & He' & Hup & Hdown); [lia|lia|lia|].
  exists m', e'. split; [reflexivity|]. split; [exact Hd'|]. split; [lia|].
  set (V := Zpos m' * 2 ^ (e' + 200)) in *.
  set (E := 2 ^ (sb - sa - 53 + 200)) in *.
  set (F := 2 ^ (147 - sa)).
  assert (HF : 0 < F) by (apply Z.pow_pos_nonneg; lia).
  assert (HE : E = 2 ^ sb * F).
  { unfold E, F. rewrite <- Z.pow_add_r by lia. f_equal. lia. }
  assert (H200 : 2 ^ sa * 2 ^ 53 * F = 2 ^ 200).
  { unfold F. rewrite <- !Z.pow_add_r by lia. f_equal. lia. }
  set (A := Z.of_nat a) in *. set (B := Z.of_nat b) in *.
  (* [X] is [b q E] and [W] is [b E] *)
  set (W := B * E). set (X := Zpos pq * W).
  assert (HW : 0 < W) by (unfold W; rewrite HE; nia).
  assert (HX1 : X <= A * 2 ^ 200).
  { unfold X, W. rewrite HE, <- H200.
    replace (Zpos pq * (B * (2 ^ sb * F))) with (Zpos Mb * Zpos pq * F)
      by (rewrite HMb; ring).
    replace (A * (2 ^ sa * 2 ^ 53 * F)) with (Zpos Ma * 2 ^ 53 * F)
      by (rewrite HMa; ring).
    apply Z.mul_le_mono_nonneg_r; lia. }
  assert (HX2 : A * 2 ^ 200 < X + W).
  { unfold X, W. rewrite HE, <- H200.
    replace (Zpos pq * (B * (2 ^ sb * F)) + B * (2 ^ sb * F))
      with (Zpos Mb * (Zpos pq + 1) * F) by (rewrite HMb; ring).
    replace (A * (2 ^ sa * 2 ^ 53 * F)) with (Zpos Ma * 2 ^ 53 * F)
      by (rewrite HMa; ring).
    apply Z.mul_lt_mono_pos_r; lia. }
  assert (HX3 : 2 ^ 52 * W <= X) by (unfold X; apply Z.mul_le_mono_nonneg_r; lia).
  assert (HupB : 2 ^ 52 * (B * V) <= (2 ^ 52 + 1) * X).
  { unfold X, W.
    replace (2 ^ 52 * (B * V)) with (B * (2 ^ 52 * V)) by ring.
    replace ((2 ^ 52 + 1) * (Zpos pq * (B * E)))
      with (B * ((2 ^ 52 + 1) * (Zpos pq * E))) by ring.
    apply Z.mul_le_mono_nonneg_l; lia. }
  assert (HdownB : (2 ^ 52 - 1) * X <= 2 ^ 52 * (B * V)).
  { unfold X, W.
    replace (2 ^ 52 * (B * V)) with (B * (2 ^ 52 * V)) by ring.
    replace ((2 ^ 52 - 1) * (Zpos pq * (B * E)))
      with (B * ((2 ^ 52 - 1) * (Zpos pq * E))) by ring.
    apply Z.mul_le_mono_nonneg_l; lia. }
  split.
  - replace (B * (2 ^ 52 * V)) with (2 ^ 52 * (B * V)) by ring. lia.
  - replace (B * (2 ^ 104 * V)) with (2 ^ 52 * (2 ^ 52 * (B * V))) by ring. lia.
Qed.

Lemma of_nat_100 : of_nat 100 = S754_finite false 7036874417766400 (-46).
Proof. vm_compute. reflexivity. Qed.

(** The product with 100 is exact up to one part in [2^52]. *)
Lemma mul_100_scaled (mq : positive) (eq : Z) :
  Zdigits2 (Zpos mq) = 53 -> -106 <= eq <= -51 ->
  exists mp ep,
    mul (S754_finite false mq eq) (of_nat 100) = S754_finite false mp ep
    /\ -100 <= ep < 0
    /\ 2 ^ 52 * (Zpos mp * 2 ^ (ep + 200))
       <= (2 ^ 52 + 1) * (100 * (Zpos mq * 2 ^ (eq + 200)))
    /\ (2 ^ 52 - 1) * (100 * (Zpos mq * 2 ^ (eq + 200)))
       <= 2 ^ 52 * (Zpos mp * 2 ^ (ep + 200)).
Proof.
  intros Hdq Heq. rewrite of_nat_100. unfold mul, SFmul. cbn [xorb].
  pose proof (digits_53 mq Hdq) as Hmq.
  set (H := 7036874417766400%positive).
  assert (HH : Zpos H = 100 * 2 ^ 46) by reflexivity.
  assert (Hprod : 2 ^ 104 <= Zpos (mq * H) < 2 ^ 106)
    by (rewrite Pos2Z.inj_mul, HH; lia).
  assert (Hdp : Zdigits2 (Zpos (mq * H)) = 105 \/ Zdigits2 (Zpos (mq * H)) = 106).
  { destruct (Z_lt_le_dec (Zpos (mq * H)) (2 ^ 105)).
    - left. apply digits_unique. change (105 - 1) with 104. lia.
    - right. apply digits_unique. change (106 - 1) with 105. lia. }
  destruct (round_scaled (mq * H) (eq + -46) loc_Exact)
    as (mp & ep & -> & _ & Hep & Hup & Hdown); [lia|lia|lia|].
  exists mp, ep. split; [reflexivity|]. split; [lia|].
  assert (Hval : Zpos (mq * H) * 2 ^ (eq + -46 + 200)
                 = 100 * (Zpos mq * 2 ^ (eq + 200))).
  { rewrite Pos2Z.inj_mul, HH.
    replace (eq + 200) with (46 + (eq + -46 + 200)) by lia.
    rewrite (Z.pow_add_r 2 46) by lia. ring. }
  rewrite Hval in Hup, Hdown. split; assumption.
Qed.

(** [toFixed(1)] shows [t] tenths for the values from [t/10 - 1/20] up to
    [t/10 + 1/20]. *)
Lemma toFixed1_scaled (mp : positive) (ep t : Z) :
  -200 <= ep < 0 -> 0 <= t ->
  let V := Zpos mp * 2 ^ (ep + 200) in
  (20 * V < (2 * t + 1) * 2 ^ 200 ->
   (toFixed1 (S754_finite false mp ep) <= Z.to_nat t)%nat)
  /\ ((2 * t - 1) * 2 ^ 200 <= 20 * V ->
      (Z.to_nat t <= toFixed1 (S754_finite false mp ep))%nat).
Proof.
  intros Hep Ht V. unfold toFixed1.
  replace (0 <=? ep) with false by (symmetry; apply Z.leb_gt; lia).
  set (P := 2 ^ (- ep)). set (G := 2 ^ (ep + 200)) in *.
  assert (HP : 0 < P) by (apply Z.pow_pos_nonneg; lia).
  assert (HG : 0 < G) by (apply Z.pow_pos_nonneg; lia).
  assert (HPG : P * G = 2 ^ 200).
  { unfold P, G. rewrite <- Z.pow_add_r by lia. f_equal. lia. }
  split; intros HV.
  - apply Z2Nat.inj_le; [apply Z.div_pos; lia | lia |].
    apply Z.lt_succ_r. apply Z.div_lt_upper_bound; [lia|].
    assert (Hlt : 20 * Zpos mp < (2 * t + 1) * P).
    { apply (Z.mul_lt_mono_pos_r G); [exact HG|].
      replace (20 * Zpos mp * G) with (20 * V) by (unfold V; ring).
      replace ((2 * t + 1) * P * G) with ((2 * t + 1) * (P * G)) by ring.
      rewrite HPG. exact HV. }
    lia.
  - apply Z2Nat.inj_le; [lia | apply Z.div_pos; lia |].
    apply Z.div_le_lower_bound; [lia|].
    assert (Hle : (2 * t - 1) * P <= 20 * Zpos mp).
    { apply (Z.mul_le_mono_pos_r _ _ G); [exact HG|].
      replace (20 * Zpos mp * G) with (20 * V) by (unfold V; ring).
      replace ((2 * t - 1) * P * G) with ((2 * t - 1) * (P * G)) by ring.
      rewrite HPG. exact HV. }
    lia.
Qed.

End DoubleFacts.

Section PercentFacts.
Import SpecFloat Dashboard Dashboard.Double.

(** The percentage of [a] brands in [b], as the doubles compute it and
    [toFixed(1)] shows it: never above 100.0, 100.0 for all of them, and
    100.0 only when at most one brand in 2000 is missing. *)
Lemma percent_double_spec (a b : nat) :
  0 < b -> a <= b -> (Z.of_nat b < 2 ^ 32)%Z ->
  percent_double a b <= 1000
  /\ (a = b -> percent_double a b = 1000)
  /\ (percent_double a b = 1000 -> 2000 * (b - a) <= b).
Proof.
  intros Hb Hab Hsmall. unfold percent_double.
  destruct a as [|a'].
  { destruct (of_nat_exact b) as (Mb & sb & -> & _); [lia|lia|].
    rewrite of_nat_100. change (of_nat 0) with (S754_zero false).
    unfold div, mul. cbn [SFdiv SFmul xorb toFixed1]. repeat split; lia. }
  set (a := S a') in *.
  destruct (div_scaled a b) as (mq & eq & -> & Hdq & Heq & Hq_up & Hq_down);
    [lia|lia|].
  destruct (mul_100_scaled mq eq Hdq Heq) as (mp & ep & -> & Hep & Hp_up & Hp_down).
  destruct (toFixed1_scaled mp ep 1000) as [Hle1000 Hge1000]; [lia|lia|].
  destruct (toFixed1_scaled mp ep 999) as [Hle999 _]; [lia|lia|].
  cbv zeta in Hle1000, Hge1000, Hle999.
  change (Z.to_nat 1000) with 1000 in *. change (Z.to_nat 999) with 999 in *.
  set (Vp := (Zpos mp * 2 ^ (ep + 200))%Z) in *.
  set (Vq := (Zpos mq * 2 ^ (eq + 200))%Z) in *.
  set (A := Z.of_nat a) in *. set (B := Z.of_nat b) in *.
  assert (HA : (0 < A <= B)%Z) by lia.
  assert (HVq : (0 <= Vq)%Z).
  { unfold Vq. apply Z.mul_nonneg_nonneg; [lia|]. apply Z.pow_nonneg. lia. }
  (* the quotient is at most one, up to rounding *)
  assert (Hq1 : (2 ^ 52 * Vq <= (2 ^ 52 + 1) * 2 ^ 200)%Z).
  { apply (Z.mul_le_mono_pos_l _ _ B); [lia|].
    etransitivity; [exact Hq_up|].
    apply Z.mul_le_mono_nonneg_r; lia. }
  assert (Hupper : (20 * Vp < (2 * 1000 + 1) * 2 ^ 200)%Z) by lia.
  split; [apply Hle1000, Hupper|].
  split.
  - intros Heq_ab. apply Nat.le_antisymm; [apply Hle1000, Hupper|].
    apply Hge1000.
    assert (Hq2 : ((2 ^ 52 - 1) * (2 ^ 52 - 1) * 2 ^ 200 <= 2 ^ 104 * Vq)%Z).
    { apply (Z.mul_le_mono_pos_l _ _ B); [lia|].
      replace B with A at 1 by (unfold A, B; lia). exact Hq_down. }
    lia.
  - intros H1000.
    destruct (Nat.le_gt_cases (2000 * (b - a)) b) as [|Hmiss]; [assumption|].
    exfalso.
    assert (Hlow : (20 * Vp < (2 * 999 + 1) * 2 ^ 200)%Z); [|apply Hle999 in Hlow; lia].
    assert (HAB : (2000 * A + 1 <= 1999 * B)%Z) by lia.
    assert (HU : (B * (2000 * (2 ^ 52 + 1) * Vq) < B * (1999 * 2 ^ 52 * 2 ^ 200))%Z).
    { set (U := (B * (2 ^ 52 * Vq))%Z) in *.
      replace (B * (2000 * (2 ^ 52 + 1) * Vq))%Z
        with (2000 * (2 ^ 52 + 1) * (B * Vq))%Z by ring.
      assert (HU' : (2 ^ 52 * (B * Vq) = U)%Z) by (unfold U; ring).
      lia. }
    apply Z.mul_lt_mono_pos_l in HU; [|lia].
    lia.
Qed.


(** Two mentioned brands of three show 66.7, and 23 of 80 show 28.7, the
    tie 28.75 falling to the double below it.  From 2000 brands on a brand
    can be missing at 100.0: 1999 of 2000 show 100.0, while 1998 of 1999
    show 99.9. *)
Lemma percent_double_examples :
  percent_double 2 3 = 667
  /\ percent_double 23 80 = 287
  /\ percent_double 1998 1999 = 999
  /\ percent_double 1999 2000 = 1000
  /\ percent_double 2000 2001 = 1000.
Proof. by_evaluation. Qed.

End PercentFacts.

Section VisibilityScore.
Import Dashboard.
Variable host_RegExp : string -> Result Regex.RegExp.

Lemma filter_length_le {A} (p : A -> bool) (l : list A) :
  length (List.filter p l) <= length l.
Proof.
  induction l as [|x l IH]; simpl; [lia|]. destruct (p x); simpl; lia.
Qed.

Lemma filter_length_all {A} (p : A -> bool) (l : list A) :
  length (List.filter p l) = length l <-> Forall (fun x => p x = true) l.
Proof.
  induction l as [|x l IH]; simpl.
  - split; [constructor | reflexivity].
  - pose proof (filter_length_le p l) as Hle.
    destruct (p x) eqn:Hx; simpl; split; intros H.
    + constructor; [assumption | apply IH; lia].
    + inversion H; subst. f_equal. apply IH. assumption.
    + lia.
    + inversion H; subst. congruence.
Qed.

(** C7, as the code computes it, in the double precision of the language:
    for the mentions of a brand list (of fewer than [2^32] brands, which is
    all an array can hold) the score lies between 0 and 100; it is 0 for
    the empty brand list; for a non-empty list it is 100.0 when every brand
    is counted at least once, and a score of 100.0 means that at most one
    brand in 2000 is not mentioned; hence, when fewer than 2000 brands are
    tracked, the score is 100.0 exactly when every brand is mentioned. *)
Theorem C7_visibility_score (text_ : string) (brands_ : list string)
    (ms : list BrandMention) :
  extractBrandMentions host_RegExp text_ brands_ = Ok ms ->
  (Z.of_nat (length brands_) < 2 ^ 32)%Z ->
  let score := tenths_of (calculateVisibilityScore ms (length brands_)) in
  let missed :=
    length brands_ - length (List.filter (fun m => 0 <? count m) ms) in
  score <= 1000
  /\ (brands_ = [] -> score = 0)
  /\ (brands_ <> [] -> Forall (fun m => 0 < count m) ms -> score = 1000)
  /\ (score = 1000 -> brands_ <> [] /\ 2000 * missed <= length brands_)
  /\ (length brands_ < 2000 ->
      score = 1000 <-> brands_ <> [] /\ Forall (fun m => 0 < count m) ms).
Proof.
  intros Hex Hsize score missed.
  apply extractBrandMentions_length in Hex.
  pose proof (filter_length_le (fun m => 0 <? count m) ms) as Hle.
  pose proof (filter_length_all (fun m => 0 <? count m) ms) as Hall.
  assert (Hpos : Forall (fun m => (0 <? count m) = true) ms
                 <-> Forall (fun m => 0 < count m) ms).
  { split; intros H; eapply List.Forall_impl; try exact H;
      intros m Hm; simpl in *; [apply Nat.ltb_lt | apply Nat.ltb_lt]; exact Hm. }
  subst score missed. unfold calculateVisibilityScore.
  destruct brands_ as [|b bs]; cbn [length] in *.
  - cbn [Nat.eqb tenths_of]. repeat split; try lia; try congruence.
    intros [Hne _]. congruence.
  - rewrite Hex in *.
    replace (S (length bs) =? 0) with false by (symmetry; apply Nat.eqb_neq; lia).
    cbn [tenths_of].
    set (a := length (List.filter (fun m => 0 <? count m) ms)) in *.
    set (n := S (length bs)) in *.
    assert (Hn : 0 < n) by (unfold n; lia).
    destruct (percent_double_spec a n Hn Hle Hsize) as (Hbound & Hfull & Hmiss).
    split; [exact Hbound|].
    split; [congruence|].
    split; [intros _ Hev; apply Hfull; apply Hpos, Hall in Hev; lia|].
    split; [intros H; split; [discriminate | apply Hmiss, H]|].
    intros Hsmall. split.
    + intros H. split; [discriminate|]. apply Hpos, Hall.
      specialize (Hmiss H). lia.
    + intros [_ H]. apply Hfull. apply Hpos, Hall in H. lia.
Qed.

End VisibilityScore.

(** ** The logger *)

Lemma logger_run (level : LogLevel) (message : string) (w : World) :
  logger level message w = (Ok tt, logged level message w).
Proof. unfold logged, logger. destruct level, (isProduction w); reflexivity. Qed.

Lemma net_log_logged (level : LogLevel) (message : string) (w : World) :
  net_log (logged level message w) = net_log w.
Proof. unfold logged, logger. destruct level, (isProduction w); reflexivity. Qed.

Lemma tables_logged (level : LogLevel) (message : string) (w : World) :
  tables (logged level message w) = tables w.
Proof. unfold logged, logger. destruct level, (isProduction w); reflexivity. Qed.

Lemma db_faults_logged (level : LogLevel) (message : string) (w : World) :
  db_faults (logged level message w) = db_faults w.
Proof. unfold logged, logger. destruct level, (isProduction w); reflexivity. Qed.

Lemma connection_logged (level : LogLevel) (message : string) (w : World) :
  connection (logged level message w) = connection w.
Proof. unfold logged, logger. destruct level, (isProduction w); reflexivity. Qed.

Lemma now_logged (level : LogLevel) (message : string) (w : World) :
  now (logged level message w) = now w.
Proof. unfold logged, logger. destruct level, (isProduction w); reflexivity. Qed.

Lemma tables_set_database (t : Db.Tables) (faults : list bool) (w : World) :
  tables (set_database t faults w) = t.
Proof. reflexivity. Qed.

Lemma net_log_set_database (t : Db.Tables) (faults : list bool) (w : World) :
  net_log (set_database t faults w) = net_log w.
Proof. reflexivity. Qed.

Lemma now_set_database (t : Db.Tables) (faults : list bool) (w : World) :
  now (set_database t faults w) = now w.
Proof. reflexivity. Qed.

Lemma connection_set_database (t : Db.Tables) (faults : list bool) (w : World) :
  connection (set_database t faults w) = connection w.
Proof. reflexivity. Qed.

Lemma tables_set_net_log (l : list (AIProvider * string)) (w : World) :
  tables (set_net_log l w) = tables w.
Proof. reflexivity. Qed.

Lemma db_faults_set_net_log (l : list (AIProvider * string)) (w : World) :
  db_faults (set_net_log l w) = db_faults w.
Proof. reflexivity. Qed.

Lemma net_log_set_net_log (l : list (AIProvider * string)) (w : World) :
  net_log (set_net_log l w) = l.
Proof. reflexivity. Qed.

Create Rewrite HintDb world.

#[global] Hint Rewrite net_log_logged tables_logged db_faults_logged
  connection_logged now_logged tables_set_database net_log_set_database
  now_set_database connection_set_database tables_set_net_log
  db_faults_set_net_log net_log_set_net_log : world.

(** ** The mention upsert *)

Module MentionStoreFacts.
Import Db MentionStore.

Lemma same_key_spec (run brand_ : nat) (m : Mention) :
  same_key run brand_ m = true <-> key_of m = (run, brand_).
Proof.
  unfold same_key, key_of. rewrite andb_true_iff, !Nat.eqb_eq.
  split; [intros [-> ->]; reflexivity | intros H; injection H; auto].
Qed.

Lemma existsb_same_key (run brand_ : nat) (rows : list Mention) :
  existsb (same_key run brand_) rows = true <-> In (run, brand_) (map key_of rows).
Proof.
  rewrite existsb_exists, in_map_iff. split; intros [m Hm]; exists m.
  - destruct Hm as [Hin Hk]. apply same_key_spec in Hk. auto.
  - destruct Hm as [Hk Hin]. split; [assumption | apply same_key_spec, Hk].
Qed.

(** Under the uniqueness constraint at most one row answers to a key. *)
Lemma unique_filter (run brand_ : nat) (rows : list Mention) :
  unique_keys rows ->
  existsb (same_key run brand_) rows = true ->
  exists row, List.filter (same_key run brand_) rows = [row].
Proof.
  unfold unique_keys. induction rows as [|r rows IH]; simpl; intros Hnd Hex.
  - discriminate.
  - apply NoDup_cons in Hnd. destruct Hnd as [Hnotin Hnd].
    destruct (same_key run brand_ r) eqn:Hr.
    + exists r. f_equal.
      apply same_key_spec in Hr.
      rewrite Hr in Hnotin.
      assert (Hnone : existsb (same_key run brand_) rows = false).
      { destruct (existsb _ rows) eqn:E; [|reflexivity].
        apply existsb_same_key in E. apply list_elem_of_In in E. contradiction. }
      clear -Hnone. induction rows as [|x xs IHx]; simpl in *; [reflexivity|].
      apply orb_false_iff in Hnone. destruct Hnone as [-> Hxs]. auto.
    + simpl in Hex. apply IH; assumption.
Qed.

Lemma set_listed_in_place : updates_in_place set_listed.
Proof. intros old ex H. unfold key_of. simpl. auto. Qed.

Lemma set_payload_in_place : updates_in_place set_payload.
Proof. intros old ex H. unfold key_of in *. simpl. auto. Qed.

Section Statement.
Variable set : Mention -> Mention -> Mention.
Hypothesis set_ok : updates_in_place set.
Variables (run brand_ : nat) (mentioned_ : bool) (count_ : nat).
Variables (context_ urls_ : list string) (time : nat).

Local Abbreviation statement :=
  (insert_on_conflict_update set run brand_ mentioned_ count_ context_ urls_ time).

Lemma map_update_keys (proposed : Mention) (rows : list Mention) :
  key_of proposed = (run, brand_) ->
  map key_of
    (map (fun r => if same_key run brand_ r then set r proposed else r) rows)
  = map key_of rows.
Proof.
  intros Hp. induction rows as [|r rows IH]; simpl; [reflexivity|].
  rewrite IH. f_equal. destruct (same_key run brand_ r) eqn:Hr; [|reflexivity].
  apply same_key_spec in Hr. apply set_ok. congruence.
Qed.

Lemma filter_update (proposed : Mention) (rows : list Mention) :
  key_of proposed = (run, brand_) ->
  List.filter (same_key run brand_)
    (map (fun r => if same_key run brand_ r then set r proposed else r) rows)
  = map (fun r => set r proposed) (List.filter (same_key run brand_) rows).
Proof.
  intros Hp. induction rows as [|r rows IH]; simpl; [reflexivity|].
  destruct (same_key run brand_ r) eqn:Hr; simpl.
  - assert (Hs : same_key run brand_ (set r proposed) = true).
    { apply same_key_spec. apply same_key_spec in Hr.
      destruct (set_ok r proposed) as [Hk _]; congruence. }
    rewrite Hs, IH. reflexivity.
  - rewrite Hr. assumption.
Qed.

(** The statement keeps the uniqueness constraint whether it succeeds or
    not. *)
Lemma statement_keeps_unique (t : Tables) :
  unique_keys (mentions t) -> unique_keys (mentions (snd (statement t))).
Proof.
  intros Hu. unfold statement, insert_on_conflict_update.
  destruct (existsb (same_key run brand_) (mentions t)) eqn:Hex; simpl.
  - unfold unique_keys. rewrite map_update_keys; [assumption | reflexivity].
  - destruct (references_hold t _); simpl; [|assumption].
    unfold unique_keys. rewrite map_app. simpl.
    apply NoDup_app. repeat split; [assumption | | apply NoDup_singleton].
    intros k Hk Hk'. apply list_elem_of_In in Hk, Hk'.
    destruct Hk' as [<-|[]]. unfold key_of in Hk. simpl in Hk.
    apply existsb_same_key in Hk. congruence.
Qed.

(** When the statement succeeds it returns one row, the only row of the
    table for the key, carrying the values of the call. *)
Lemma statement_Ok (t t' : Tables) (rows : list Mention) :
  unique_keys (mentions t) ->
  statement t = (Ok rows, t') ->
  exists row,
    rows = [row]
    /\ List.filter (same_key run brand_) (mentions t') = [row]
    /\ mentioned row = mentioned_
    /\ mention_count row = count_
    /\ context row = context_
    /\ citation_urls row = urls_.
Proof.
  intros Hu. unfold statement, insert_on_conflict_update.
  set (proposed := {| mention_id := S (mentions_id_seq t);
                      prompt_run_id := run; brand_id := brand_;
                      mentioned := mentioned_; mention_count := count_;
                      context := context_; citation_urls := urls_;
                      created_at := time |}).
  assert (Hp : key_of proposed = (run, brand_)) by reflexivity.
  destruct (existsb (same_key run brand_) (mentions t)) eqn:Hex.
  - intros H. injection H as <- <-. simpl.
    rewrite filter_update by assumption.
    destruct (unique_filter _ _ _ Hu Hex) as [old Hold]. rewrite Hold. simpl.
    exists (set old proposed). split; [reflexivity|]. split; [reflexivity|].
    assert (Hk : key_of old = key_of proposed).
    { rewrite Hp. apply same_key_spec.
      assert (Hin : In old (List.filter (same_key run brand_) (mentions t)))
        by (rewrite Hold; left; reflexivity).
      apply filter_In in Hin. tauto. }
    destruct (set_ok old proposed Hk) as (_ & H1 & H2 & H3 & H4). auto.
  - destruct (references_hold t proposed); [|discriminate].
    intros H. injection H as <- <-. simpl.
    exists proposed. split; [reflexivity|].
    split; [|repeat split].
    rewrite List.filter_app. simpl.
    replace (same_key run brand_ proposed) with true
      by (symmetry; apply same_key_spec, Hp).
    replace (List.filter (same_key run brand_) (mentions t)) with (@nil Mention);
      [reflexivity|].
    clear -Hex. induction (mentions t) as [|x xs IH]; simpl in *; [reflexivity|].
    apply orb_false_iff in Hex. destruct Hex as [-> Hxs]. auto.
Qed.

End Statement.

(** With the constraint in force and something to store, the statement
    returns exactly one row. *)
Lemma statement_returns set run brand_ m c ctx urls time t :
  updates_in_place set ->
  unique_keys (mentions t) ->
  can_store run brand_ t = true ->
  exists row t',
    insert_on_conflict_update set run brand_ m c ctx urls time t = (Ok [row], t').
Proof.
  intros Hset Hu Hcan. unfold insert_on_conflict_update.
  destruct (existsb (same_key run brand_) (mentions t)) eqn:Hex.
  - rewrite (filter_update set Hset run brand_) by reflexivity.
    destruct (unique_filter _ _ _ Hu Hex) as [old ->].
    eexists _, _. reflexivity.
  - unfold can_store in Hcan. rewrite Hex in Hcan. simpl in Hcan.
    unfold references_hold. cbn [prompt_run_id brand_id]. rewrite Hcan.
    eexists _, _. reflexivity.
Qed.

End MentionStoreFacts.

(** ** The model methods over the world *)

Ltac step_in H :=
  cbv beta iota zeta in H; rewrite ?logger_run in H; cbv beta iota zeta in H.

Ltac step :=
  cbv beta iota zeta; rewrite ?logger_run; cbv beta iota zeta.

Ltac world := autorewrite with world; try reflexivity.

Section UpsertOutcome.
Import Db MentionStore MentionStoreFacts.

(** A round trip either fails on the connection, leaving the tables as
    they were, or runs the statement. *)
Lemma round_trip_outcome {A} (statement : nat -> Tables -> Result A * Tables)
    (w : World) :
  (exists faults,
     round_trip statement w
     = (Throw (DriverError "connection failure"),
        set_database (tables w) faults w))
  \/ (exists faults,
        round_trip statement w
        = (fst (statement (now w) (tables w)),
           set_database (snd (statement (now w) (tables w))) faults w)).
Proof.
  unfold round_trip. destruct (db_faults w) as [|[] faults].
  - right. exists []. destruct (statement _ _); reflexivity.
  - left. exists faults. reflexivity.
  - right. exists faults. destruct (statement _ _); reflexivity.
Qed.

Lemma Supabase_outcome run brand_ m c ctx urls w r w' :
  SupabaseMentionModel_createOrUpdate run brand_ m c ctx urls w = (r, w') ->
  let st :=
    insert_on_conflict_update set_payload run brand_ m c ctx urls
      (now w) (tables w) in
  (tables w' = tables w \/ tables w' = snd st)
  /\ (forall row, r = Ok row -> st = (Ok [row], tables w')).
Proof.
  intros H st. unfold SupabaseMentionModel_createOrUpdate in H.
  cbv [bind get try_catch throw ret] in H.
  destruct (supabaseClient (connection w)); cbv [negb] in H; step_in H.
  2:{ injection H as <- <-. split; [left; reflexivity | discriminate]. }
  destruct (round_trip_outcome
              (insert_on_conflict_update set_payload run brand_ m c ctx urls) w)
    as [[faults Hrt]|[faults Hrt]]; rewrite Hrt in H; clear Hrt; step_in H.
  - injection H as <- <-. split; [left; world | discriminate].
  - fold st in H.
    destruct st as [[e|rows] t'] eqn:Hst; cbn [fst snd] in H; step_in H.
    + injection H as <- <-. split; [right; world | discriminate].
    + destruct rows as [|row [|row2 rows]]; step_in H; injection H as <- <-.
      * split; [right; world | discriminate].
      * split; [right; world |]. intros ? [= <-]. f_equal. world.
      * split; [right; world | discriminate].
Qed.

Lemma query_outcome {A} (statement : nat -> Tables -> Result A * Tables)
    w r w' :
  query statement w = (r, w') ->
  let st := statement (now w) (tables w) in
  (tables w' = tables w \/ tables w' = snd st)
  /\ (forall a, r = Ok a -> st = (Ok a, tables w')).
Proof.
  intros H st. unfold query in H.
  cbv [bind get try_catch throw ret] in H. step_in H.
  destruct (useSupabase (connection w) && supabaseClient (connection w));
    step_in H.
  - destruct (databaseUrl (connection w)); step_in H.
    + match type of H with
      | context [round_trip statement ?w0] =>
          destruct (round_trip_outcome statement w0)
            as [[faults Hrt]|[faults Hrt]]
      end; rewrite Hrt in H; clear Hrt; step_in H.
      * injection H as <- <-. split; [left; world | discriminate].
      * autorewrite with world in H. fold st in H.
        destruct st as [[e|a] t'] eqn:Hst; cbn [fst snd] in H; step_in H;
          injection H as <- <-.
        -- split; [right; world | discriminate].
        -- split; [right; world |]. intros ? [= <-]. f_equal. world.
    + injection H as <- <-. split; [left; world | discriminate].
  - destruct (pool (connection w)); step_in H.
    + destruct (round_trip_outcome statement w)
        as [[faults Hrt]|[faults Hrt]]; rewrite Hrt in H; clear Hrt; step_in H.
      * injection H as <- <-. split; [left; world | discriminate].
      * fold st in H.
        destruct st as [[e|a] t'] eqn:Hst; cbn [fst snd] in H; step_in H;
          injection H as <- <-.
        -- split; [right; world | discriminate].
        -- split; [right; world |]. intros ? [= <-]. f_equal. world.
    + injection H as <- <-. split; [left; world | discriminate].
Qed.

(** Either variant of the upsert leaves the tables alone or runs its
    statement once; what it returns is the first row of the statement. *)
Lemma MentionModel_outcome run brand_ m c ctx urls w r w' :
  MentionModel_createOrUpdate run brand_ m c ctx urls w = (r, w') ->
  exists set,
    updates_in_place set
    /\ let st :=
         insert_on_conflict_update set run brand_ m c ctx urls
           (now w) (tables w) in
       (tables w' = tables w \/ tables w' = snd st)
       /\ (forall row, r = Ok row ->
           exists rows, st = (Ok (row :: rows), tables w')).
Proof.
  intros H. unfold MentionModel_createOrUpdate in H.
  cbv [bind get] in H. step_in H.
  destruct (useSupabase (connection w)).
  - exists set_payload. split; [apply set_payload_in_place|].
    apply Supabase_outcome in H. destruct H as [H1 H2]. split; [exact H1|].
    intros row Hr. exists []. auto.
  - exists set_listed. split; [apply set_listed_in_place|].
    cbv [bind try_catch throw ret] in H.
    destruct (query _ w) as [q wq] eqn:Hq.
    apply query_outcome in Hq. destruct Hq as [Hq1 Hq2]. step_in H.
    destruct q as [e|rows]; step_in H.
    + injection H as <- <-. autorewrite with world.
      split; [exact Hq1 | discriminate].
    + destruct rows as [|row rows]; step_in H; injection H as <- <-;
        autorewrite with world; (split; [exact Hq1|]).
      * discriminate.
      * intros ? [= <-]. exists rows. apply Hq2. reflexivity.
Qed.

Lemma Supabase_as_MentionModel run brand_ m c ctx urls w r w' :
  SupabaseMentionModel_createOrUpdate run brand_ m c ctx urls w = (r, w') ->
  exists set,
    updates_in_place set
    /\ let st :=
         insert_on_conflict_update set run brand_ m c ctx urls
           (now w) (tables w) in
       (tables w' = tables w \/ tables w' = snd st)
       /\ (forall row, r = Ok row ->
           exists rows, st = (Ok (row :: rows), tables w')).
Proof.
  intros H. exists set_payload. split; [apply set_payload_in_place|].
  apply Supabase_outcome in H. destruct H as [H1 H2]. split; [exact H1|].
  intros row Hr. exists []. auto.
Qed.

Lemma round_trip_no_fault {A} (statement : nat -> Tables -> Result A * Tables) w :
  hd false (db_faults w) = false ->
  exists faults,
    round_trip statement w
    = (fst (statement (now w) (tables w)),
       set_database (snd (statement (now w) (tables w))) faults w).
Proof.
  intros H. unfold round_trip. destruct (db_faults w) as [|[] faults]; simpl in H.
  - exists []. destruct (statement _ _); reflexivity.
  - discriminate.
  - exists faults. destruct (statement _ _); reflexivity.
Qed.

(** The upsert returns a row whenever the connection is up and there is
    something to store. *)
Lemma upsert_returns run brand_ m c ctx urls w :
  unique_keys (mentions (tables w)) ->
  can_store run brand_ (tables w) = true ->
  hd false (db_faults w) = false ->
  (if useSupabase (connection w) then supabaseClient (connection w)
   else pool (connection w)) = true ->
  exists row w',
    MentionModel_createOrUpdate run brand_ m c ctx urls w = (Ok row, w').
Proof.
  intros Hu Hcan Hfault Hconn. unfold MentionModel_createOrUpdate.
  cbv [bind get]. step.
  destruct (useSupabase (connection w)) eqn:Hs.
  - unfold SupabaseMentionModel_createOrUpdate.
    cbv [bind get try_catch throw ret]. rewrite Hconn. cbv [negb]. step.
    destruct (round_trip_no_fault
                (insert_on_conflict_update set_payload run brand_ m c ctx urls)
                w Hfault) as [faults ->].
    destruct (statement_returns set_payload run brand_ m c ctx urls (now w)
                (tables w) set_payload_in_place Hu Hcan) as (row & t' & ->).
    cbn [fst snd]. step. eexists _, _. reflexivity.
  - unfold query. cbv [bind get try_catch throw ret]. step.
    rewrite Hs, Hconn. cbn [andb]. step.
    destruct (round_trip_no_fault
                (insert_on_conflict_update set_listed run brand_ m c ctx urls)
                w Hfault) as [faults ->].
    destruct (statement_returns set_listed run brand_ m c ctx urls (now w)
                (tables w) set_listed_in_place Hu Hcan) as (row & t' & ->).
    cbn [fst snd]. step. eexists _, _. reflexivity.
Qed.

(** The uniqueness constraint survives every call, failed or not. *)
Lemma upsert_keeps_unique upsert run brand_ m c ctx urls w r w' :
  upsert = MentionModel_createOrUpdate
  \/ upsert = SupabaseMentionModel_createOrUpdate ->
  unique_keys (mentions (tables w)) ->
  upsert run brand_ m c ctx urls w = (r, w') ->
  unique_keys (mentions (tables w')).
Proof.
  intros Hup Hu H.
  assert (Hout : exists set,
             updates_in_place set
             /\ (tables w' = tables w
                 \/ tables w'
                    = snd (insert_on_conflict_update set run brand_ m c ctx urls
                             (now w) (tables w)))).
  { destruct Hup as [-> | ->];
      [apply MentionModel_outcome in H | apply Supabase_as_MentionModel in H];
      destruct H as (set & Hset & Hst & _); exists set; auto. }
  destruct Hout as (set & Hset & [-> | ->]); [assumption|].
  apply statement_keeps_unique; assumption.
Qed.


End UpsertOutcome.

(** ** The service and the route *)

Lemma console_logged_warn (message : string) (w : World) :
  console (logged warn message w) = (console w ++ [(warn, message)])%list.
Proof. unfold logged, logger. destruct (isProduction w); reflexivity. Qed.

Lemma console_logged_info (message : string) (w : World) :
  console (logged info message w) = (console w ++ [(info, message)])%list.
Proof. unfold logged, logger. destruct (isProduction w); reflexivity. Qed.

(** [reduce((sum, m) => sum + m.count, 0)] is the sum of the counts. *)
Lemma total_is_sum (ms : list BrandMention) (start : nat) :
  fold_left (fun sum m => sum + count m) ms start
  = start + list_sum (map count ms).
Proof.
  revert start. induction ms as [|m ms IH]; intros start; simpl.
  - lia.
  - rewrite IH. lia.
Qed.

Lemma select_provider_unknown (provider : option string) :
  known_provider provider = false -> select_provider provider = openai.
Proof.
  destruct provider as [s|]; [|reflexivity].
  unfold known_provider, select_provider, validProviders.
  cbn [existsb List.find provider_name].
  destruct (String.eqb "openai" s); [reflexivity|].
  destruct (String.eqb "anthropic" s); [discriminate|].
  destruct (String.eqb "groq" s); [discriminate | reflexivity].
Qed.

(** ** The prompt templates *)

Lemma string_app_assoc (a b c : string) :
  ((a ++ b) ++ c = a ++ (b ++ c))%string.
Proof.
  induction a as [|x a IH]; [reflexivity|].
  change (String x (a ++ b) ++ c = String x (a ++ b ++ c))%string.
  change (String x ((a ++ b) ++ c) = String x (a ++ b ++ c))%string.
  rewrite IH. reflexivity.
Qed.

Lemma string_app_nil_l (a : string) : ("" ++ a = a)%string.
Proof. reflexivity. Qed.

Lemma startsWith_app (x post : string) : JsString.startsWith (x ++ post) x = true.
Proof.
  induction x as [|c x IH].
  - destruct post; reflexivity.
  - change (String c x ++ post)%string with (String c (x ++ post)).
    simpl. rewrite Ascii.eqb_refl. assumption.
Qed.

Lemma includes_cons (c : ascii) (s x : string) :
  JsString.includes (String c s) x
  = JsString.startsWith (String c s) x || JsString.includes s x.
Proof. reflexivity. Qed.

Lemma includes_app (pre x post : string) :
  JsString.includes (pre ++ x ++ post) x = true.
Proof.
  induction pre as [|c pre IH].
  - change ("" ++ x ++ post)%string with (x ++ post)%string.
    pose proof (startsWith_app x post) as H.
    destruct (x ++ post)%string; simpl in *; rewrite H; reflexivity.
  - change (String c pre ++ x ++ post)%string
      with (String c (pre ++ x ++ post)).
    rewrite includes_cons, IH. apply orb_true_r.
Qed.

(** Both templates are functions of their arguments, and each carries its
    brand line: the brands as given for the visibility prompt, the main
    brand first for the competitor prompt. *)
Lemma prompts_list_brands (category_ mainBrand : string) (brands_ : list string) :
  JsString.includes (generateVisibilityPrompt category_ brands_)
    ("Brands to consider: " ++ JsString.join ", " brands_) = true
  /\ JsString.includes (generateCompetitorPrompt category_ mainBrand brands_)
       ("Brands to consider: " ++ mainBrand ++ ", " ++ JsString.join ", " brands_)
     = true.
Proof.
  unfold generateVisibilityPrompt, generateCompetitorPrompt, prompt_with.
  split.
  - match goal with
    | |- JsString.includes ?p ?x = true =>
        match p with
        | context C [String.append "Brands to consider: " (String.append ?b ?post)] =>
            let pre := context C [EmptyString] in
            replace p with (pre ++ x ++ post)%string
        end
    end.
    + apply includes_app.
    + rewrite !string_app_assoc, ?string_app_nil_l. reflexivity.
  - match goal with
    | |- JsString.includes ?p ?x = true =>
        match p with
        | context C [String.append "Brands to consider: " (String.append ?b ?post)] =>
            let pre := context C [EmptyString] in
            replace p with (pre ++ x ++ post)%string
        end
    end.
    + apply includes_app.
    + rewrite !string_app_assoc, ?string_app_nil_l. reflexivity.
Qed.

Section ServiceFacts.
Variable host_RegExp : string -> Result Regex.RegExp.
Variable backend : AIProvider -> string -> string + string.
Variable aiService : gmap AIProvider ProviderInstance.
Variable PromptRunModel_create :
  string -> string -> string -> string -> M Db.PromptRun.
Variable BrandModel_getOrCreate : string -> M Db.Brand.

Lemma Provider_query_success inst prompt_ completion w :
  backend (backend_of inst) prompt_ = inr completion ->
  exists w',
    Provider_query backend inst prompt_ w
    = (Ok {| text := completion; citations := extractCitations completion |}, w')
    /\ net_log w' = (net_log w ++ [(backend_of inst, prompt_)])%list
    /\ tables w' = tables w
    /\ db_faults w' = db_faults w.
Proof.
  intros Hb. unfold Provider_query, client_create.
  cbv [bind try_catch ret]. step. rewrite Hb. step.
  eexists. split; [reflexivity|]. repeat split; world.
Qed.

(** Whatever the mode of the request, the prompt that goes out is the
    visibility prompt over the brands as given; the database is not
    touched. *)
Lemma queryAI_success provider inst category_ brands_ completion w :
  aiService !! provider = Some inst ->
  backend (backend_of inst) (generateVisibilityPrompt category_ brands_)
  = inr completion ->
  exists w',
    queryAI backend aiService provider category_ brands_ w
    = (Ok {| text := completion; citations := extractCitations completion |}, w')
    /\ net_log w'
       = (net_log w
          ++ [(backend_of inst, generateVisibilityPrompt category_ brands_)])%list
    /\ tables w' = tables w
    /\ db_faults w' = db_faults w.
Proof.
  intros Hs Hb. unfold queryAI. rewrite Hs. cbv [bind]. step.
  match goal with
  | |- context [Provider_query backend inst ?p ?w0] =>
      destruct (Provider_query_success inst p completion w0 Hb)
        as (w' & Hq & Hn & Ht & Hf)
  end.
  exists w'. rewrite Hq. split; [reflexivity|].
  revert Hn Ht Hf. world. auto.
Qed.

Lemma queryAI_unconfigured provider category_ brands_ w :
  aiService !! provider = None ->
  queryAI backend aiService provider category_ brands_ w
  = (Throw (JsError (unavailable_message provider)), w).
Proof. intros Hs. unfold queryAI. rewrite Hs. reflexivity. Qed.

(** The storage step never throws.  When the run insert throws, or a
    later write in the loop over the brands, the catch writes the warning
    and nothing else; when all of them return, the step reports the new
    run. *)
Lemma store_run_outcome category_ brands_ provider mode mainBrand aiResponse ms w :
  match PromptRunModel_create category_
          (stored_prompt category_ brands_ mode mainBrand) (text aiResponse)
          (provider_name provider) w with
  | (inl dbError, w1) =>
      store_run PromptRunModel_create BrandModel_getOrCreate category_
        brands_ provider mode mainBrand aiResponse ms w
      = (Ok None, logged warn "Failed to store visibility check in database" w1)
  | (inr promptRun, w1) =>
      match for_of brands_
              (store_brand BrandModel_getOrCreate (Db.run_id promptRun) ms)
              w1 with
      | (inl dbError, w2) =>
          store_run PromptRunModel_create BrandModel_getOrCreate category_
            brands_ provider mode mainBrand aiResponse ms w
          = (Ok (Some (Db.run_id promptRun)),
             logged warn "Failed to store visibility check in database" w2)
      | (inr _, w2) =>
          store_run PromptRunModel_create BrandModel_getOrCreate category_
            brands_ provider mode mainBrand aiResponse ms w
          = (Ok (Some (Db.run_id promptRun)),
             logged info "Visibility check stored in database" w2)
      end
  end.
Proof.
  unfold store_run. cbv [bind try_catch ret].
  destruct (PromptRunModel_create _ _ _ _ w) as [[e|run] w1]; step.
  - reflexivity.
  - match goal with
    | |- context [for_of ?l ?f ?w0] => destruct (for_of l f w0) as [[e|[]] w2]
    end; step; reflexivity.
Qed.

(** C6: when the provider call succeeds, a failure of a persistence step
    does not make the entry point fail.  For every implementation of the
    run and brand models, every state of the database and every pattern of
    connection failures: if the mention analyzer returns, the call returns
    a result with the category, the brands, the mentions with their
    citations and the total of the counts, none of which depends on the
    storage.  When the run insert throws, or a brand get-or-create or a
    mention upsert in the loop over the brands, the error is only logged:
    the world that the call leaves is the world in which that step threw,
    with the one warning "Failed to store visibility check in database"
    added to the console, and the result carries the id of the run if the
    insert had returned, no id otherwise.  When every step returns, the
    console ends with "Visibility check stored in database" instead.  If
    the analyzer throws, the call throws that exception before the database
    is touched. *)
Theorem C6_storage_failure_is_swallowed
    (provider : AIProvider) (inst : ProviderInstance)
    (category_ : string) (brands_ : list string)
    (isCompetitorMode : bool) (mainBrand : option string)
    (completion : string) (w : World) :
  aiService !! provider = Some inst ->
  backend (backend_of inst) (generateVisibilityPrompt category_ brands_)
  = inr completion ->
  let outcome :=
    checkVisibility host_RegExp backend aiService PromptRunModel_create
      BrandModel_getOrCreate category_ brands_ provider isCompetitorMode
      mainBrand w in
  let aiResponse :=
    {| text := completion; citations := extractCitations completion |} in
  match extractBrandMentions host_RegExp completion brands_ with
  | inr extracted =>
      let mentions_ := map (assign_citations (citations aiResponse)) extracted in
      exists result w1,
        queryAI backend aiService provider category_ brands_
          (logged info "Checking visibility" w) = (Ok aiResponse, w1)
        /\ fst outcome = Ok result
        /\ category result = category_
        /\ brands result = brands_
        /\ mentions result = mentions_
        /\ totalMentions result = list_sum (map count mentions_)
        /\ match PromptRunModel_create category_
                  (stored_prompt category_ brands_ isCompetitorMode mainBrand)
                  (text aiResponse) (provider_name provider) w1 with
           | (inl dbError, w2) =>
               promptRunId result = None
               /\ snd outcome
                  = logged warn "Failed to store visibility check in database" w2
           | (inr promptRun, w2) =>
               promptRunId result = Some (Db.run_id promptRun)
               /\ match for_of brands_
                          (store_brand BrandModel_getOrCreate
                             (Db.run_id promptRun) mentions_) w2 with
                  | (inl dbError, w3) =>
                      snd outcome
                      = logged warn
                          "Failed to store visibility check in database" w3
                  | (inr _, w3) =>
                      snd outcome
                      = logged info "Visibility check stored in database" w3
                  end
           end
  | inl thrown =>
      fst outcome = Throw thrown
      /\ tables (snd outcome) = tables w
      /\ db_faults (snd outcome) = db_faults w
  end.
Proof.
  intros Hs Hb outcome aiResponse. subst outcome aiResponse.
  unfold checkVisibility.
  cbv [bind try_catch liftR get ret throw]. step.
  match goal with
  | |- context [queryAI backend aiService provider category_ brands_ ?w0] =>
      destruct (queryAI_success provider inst category_ brands_ completion w0 Hs Hb)
        as (w1 & Hq & _ & Ht & Hf)
  end.
  rewrite Hq. step. cbn [text citations].
  destruct (extractBrandMentions host_RegExp completion brands_)
    as [thrown|extracted]; step.
  - cbn [fst snd]. revert Ht Hf. world. auto.
  - match goal with
    | |- context [store_run _ _ ?c ?b ?p ?m ?mb ?r ?ms ?w0] =>
        pose proof (store_run_outcome c b p m mb r ms w0) as Hstore
    end.
    cbn [text] in Hstore.
    destruct (PromptRunModel_create _ _ _ _ w1) as [[dbError|promptRun] w2]
      eqn:Hcreate.
    + rewrite Hstore. step. cbn [fst snd]. eexists _, w1.
      split; [reflexivity|]. split; [reflexivity|].
      cbn [category brands mentions totalMentions promptRunId text].
      rewrite Hcreate. repeat split. apply total_is_sum.
    + destruct (for_of brands_ _ w2) as [[dbError|[]] w3] eqn:Hloop;
        rewrite Hstore; step; cbn [fst snd]; eexists _, w1;
        (split; [reflexivity|]); (split; [reflexivity|]);
        cbn [category brands mentions totalMentions promptRunId text];
        rewrite Hcreate, ?Hloop; repeat split; apply total_is_sum.
Qed.

Lemma checkVisibility_unconfigured provider category_ brands_ mode mainBrand w :
  aiService !! provider = None ->
  exists w',
    checkVisibility host_RegExp backend aiService PromptRunModel_create
      BrandModel_getOrCreate category_ brands_ provider mode mainBrand w
    = (Throw (JsError (unavailable_message provider)), w')
    /\ net_log w' = net_log w.
Proof.
  intros Hs. unfold checkVisibility. cbv [bind try_catch throw]. step.
  rewrite queryAI_unconfigured by assumption. step.
  eexists. split; [reflexivity|]. world.
Qed.

(** C1, as the code has it: the route replaces a provider name that is not
    enumerated (or is missing) by [openai] and handles the request as if
    [openai] had been asked for; and a validated request whose selected
    provider has no configured instance is answered with status 500 and
    the message of [queryAI], without any request to a backend. *)
Theorem C1_unknown_provider_defaults_to_openai (body : RequestBody) (w : World) :
  passes_validation body = true ->
  let post :=
    POST host_RegExp backend aiService PromptRunModel_create
      BrandModel_getOrCreate in
  (known_provider (body_provider body) = false ->
   post body w = post (with_provider (Some "openai") body) w)
  /\ (aiService !! select_provider (body_provider body) = None ->
      refused_before_network w (post body w)
      /\ fst (post body w)
         = Ok (Failure 500
                 (unavailable_message (select_provider (body_provider body))))).
Proof.
  intros Hv post. subst post. split.
  - intros Hunknown. unfold POST. cbn [with_provider body_category body_brands
      body_provider body_isCompetitorMode body_mainBrand].
    rewrite (select_provider_unknown _ Hunknown). reflexivity.
  - intros Hnone. unfold passes_validation in Hv.
    apply andb_true_iff in Hv. destruct Hv as [Hv Hmode].
    apply andb_true_iff in Hv. destruct Hv as [Hcat Hbrands].
    apply negb_true_iff in Hmode.
    unfold POST. cbv [bind try_catch ret]. rewrite Hcat. cbn [negb].
    destruct (body_category body) as [category_|]; [|discriminate].
    destruct (body_brands body) as [[|b bs]|]; try discriminate.
    rewrite Hmode. step.
    match goal with
    | |- context [checkVisibility _ _ _ _ _ ?c ?bs ?p ?m ?mb ?w0] =>
        destruct (checkVisibility_unconfigured p c bs m mb w0 Hnone)
          as (w' & Hcv & Hnet)
    end.
    rewrite Hcv. step. cbn [fst snd exn_message].
    unfold refused_before_network. cbn [fst snd].
    repeat split; eauto; revert Hnet; world; auto.
Qed.

End ServiceFacts.

(** ** The scenarios, checked *)

Section Checked.
Import Scenario.

Local Abbreviation post :=
  (POST host_RegExp backend (new_AIService env) create_fails getOrCreate_fails).

(** With only [openai] configured, a request for the provider "gemini" is
    not refused: it is answered from [openai], to which the prompt goes. *)
Lemma C1_unknown_provider_is_served :
  known_provider (body_provider unknown_provider_request) = false
  /\ ~ refused_before_network (world postgres)
         (post unknown_provider_request (world postgres))
  /\ exists result w',
       post unknown_provider_request (world postgres) = (Ok (Success result), w')
       /\ net_log w'
          = [(openai, generateVisibilityPrompt "CRM software" two_brands)].
Proof.
  split; [reflexivity|]. split.
  - intros [[p H] _]. vm_compute in H. discriminate.
  - eexists _, _. split; vm_compute; reflexivity.
Qed.

(** A known provider without an API key is refused before any request
    goes out. *)
Lemma unconfigured_provider_is_refused :
  post (with_provider (Some "groq") unknown_provider_request) (world postgres)
  = (Ok (Failure 500
           "Provider groq is not configured or available. Please check your API keys."),
     logged error "Error checking visibility"
       (logged error "Error checking visibility"
          (logged info "Checking visibility"
             (logged info "Processing visibility check request"
                (world postgres)))))
  /\ net_log
       (snd (post (with_provider (Some "groq") unknown_provider_request)
               (world postgres))) = [].
Proof. by_evaluation. Qed.

Lemma C1_witness :
  passes_validation unknown_provider_request = true
  /\ post unknown_provider_request (world postgres)
     = post (with_provider (Some "openai") unknown_provider_request)
         (world postgres).
Proof.
  assert (Hv : passes_validation unknown_provider_request = true)
    by reflexivity.
  split; [exact Hv|].
  apply (C1_unknown_provider_defaults_to_openai host_RegExp backend
           (new_AIService env) create_fails getOrCreate_fails
           unknown_provider_request (world postgres) Hv).
  reflexivity.
Defined.

(** C9 (the competitor template is never used): for a competitor-mode
    request with main brand "Salesforce" and competitors "HubSpot" and
    "Pipedrive", the prompt sent to the provider is the visibility prompt
    over the competitors only; it does not name the main brand, whereas
    [generateCompetitorPrompt] would list it first. *)
Theorem C9_competitor_prompt_not_dispatched :
  let sent := generateVisibilityPrompt "CRM software" ["HubSpot"; "Pipedrive"] in
  let meant :=
    generateCompetitorPrompt "CRM software" "Salesforce" ["HubSpot"; "Pipedrive"] in
  passes_validation competitor_request = true
  /\ net_log (snd (post competitor_request (world postgres))) = [(openai, sent)]
  /\ JsString.includes sent "Salesforce" = false
  /\ JsString.includes sent "Brands to consider: HubSpot, Pipedrive" = true
  /\ JsString.includes meant "Brands to consider: Salesforce, HubSpot, Pipedrive"
     = true
  /\ String.eqb sent meant = false.
Proof. by_evaluation. Qed.

Lemma analysis_of_reply :
  extractBrandMentions host_RegExp reply two_brands
  = Ok [salesforce_mention; hubspot_mention].
Proof. vm_compute. reflexivity. Qed.

Lemma C5_witness :
  let citations_ := extractCitations reply in
  let attributed := assign_citations citations_ hubspot_mention in
  brand attributed = brand hubspot_mention
  /\ count attributed = count hubspot_mention
  /\ (count hubspot_mention = 0 -> citationUrls attributed = [])
  /\ (0 < count hubspot_mention ->
      List.filter (cites hubspot_mention) citations_ = [] ->
      citations_ <> [] ->
      citationUrls attributed = firstn 2 citations_).
Proof.
  apply (C5_citation_attribution host_RegExp reply two_brands
           (extractCitations reply) [salesforce_mention; hubspot_mention]
           hubspot_mention).
  - vm_compute. reflexivity.
  - simpl. auto.
Defined.

Lemma C6_witness :
  let outcome :=
    checkVisibility host_RegExp backend (new_AIService env) create_fails
      getOrCreate_fails "CRM software" two_brands openai false None
      (world postgres) in
  let aiResponse :=
    {| text := reply; citations := extractCitations reply |} in
  match extractBrandMentions host_RegExp reply two_brands with
  | inr extracted =>
      let mentions_ := map (assign_citations (citations aiResponse)) extracted in
      exists result w1,
        queryAI backend (new_AIService env) openai "CRM software" two_brands
          (logged info "Checking visibility" (world postgres))
        = (Ok aiResponse, w1)
        /\ fst outcome = Ok result
        /\ category result = "CRM software"
        /\ brands result = two_brands
        /\ mentions result = mentions_
        /\ totalMentions result = list_sum (map count mentions_)
        /\ match create_fails "CRM software"
                  (stored_prompt "CRM software" two_brands false None)
                  (text aiResponse) (provider_name openai) w1 with
           | (inl dbError, w2) =>
               promptRunId result = None
               /\ snd outcome
                  = logged warn "Failed to store visibility check in database" w2
           | (inr promptRun, w2) =>
               promptRunId result = Some (Db.run_id promptRun)
               /\ match for_of two_brands
                          (store_brand getOrCreate_fails
                             (Db.run_id promptRun) mentions_) w2 with
                  | (inl dbError, w3) =>
                      snd outcome
                      = logged warn
                          "Failed to store visibility check in database" w3
                  | (inr _, w3) =>
                      snd outcome
                      = logged info "Visibility check stored in database" w3
                  end
           end
  | inl thrown =>
      fst outcome = Throw thrown
      /\ tables (snd outcome) = tables (world postgres)
      /\ db_faults (snd outcome) = db_faults (world postgres)
  end.
Proof.
  apply (C6_storage_failure_is_swallowed host_RegExp backend
           (new_AIService env) create_fails getOrCreate_fails
           openai openai_instance "CRM software" two_brands false None reply
           (world postgres)).
  - vm_compute. reflexivity.
  - reflexivity.
Defined.

(** With the storage layer down the caller still gets the analysis, and
    the console ends with the warning. *)
Lemma analysis_survives_storage_outage :
  exists result w',
    checkVisibility host_RegExp backend (new_AIService env) create_fails
      getOrCreate_fails "CRM software" two_brands openai false None
      (world postgres) = (Ok result, w')
    /\ map count (mentions result) = [2; 1]
    /\ totalMentions result = 3
    /\ promptRunId result = None
    /\ last (console w')
       = Some (warn, "Failed to store visibility check in database").
Proof. eexists _, _. split; [vm_compute; reflexivity|]. by_evaluation. Qed.

(** The score is not "100 exactly when every brand is mentioned": with no
    tracked brand every brand is mentioned and the score is 0; with 2001
    brands of which one is not mentioned the score is 100.0. *)
Lemma C7_full_score_counterexamples :
  ~ full_score_iff_all_mentioned host_RegExp "" []
  /\ ~ full_score_iff_all_mentioned host_RegExp "Acme is fine" many_brands.
Proof.
  split.
  - intros H. specialize (H [] eq_refl). destruct H as [_ H].
    specialize (H (List.Forall_nil _)). vm_compute in H. discriminate.
  - intros H.
    assert (Hex : exists m ms,
               extractBrandMentions host_RegExp "Acme is fine" many_brands
               = Ok (m :: ms)
               /\ count m = 0
               /\ length (List.filter (fun m => 0 <? count m) (m :: ms)) = 2000).
    { eexists _, _. split; [vm_compute; reflexivity|].
      split; vm_compute; reflexivity. }
    destruct Hex as (m & ms & Hex & Hzero & Hlen).
    specialize (H _ Hex). destruct H as [H _].
    assert (Hscore : Dashboard.tenths_of
                       (Dashboard.calculateVisibilityScore (m :: ms)
                          (length many_brands)) = 1000).
    { unfold Dashboard.calculateVisibilityScore. rewrite Hlen.
      change (length many_brands) with 2001. vm_compute. reflexivity. }
    specialize (H Hscore). apply List.Forall_inv in H. lia.
Qed.

Lemma C7_witness :
  let ms := [salesforce_mention; hubspot_mention] in
  let score :=
    Dashboard.tenths_of
      (Dashboard.calculateVisibilityScore ms (length two_brands)) in
  let missed :=
    length two_brands - length (List.filter (fun m => 0 <? count m) ms) in
  score <= 1000
  /\ (two_brands = [] -> score = 0)
  /\ (two_brands <> [] -> Forall (fun m => 0 < count m) ms -> score = 1000)
  /\ (score = 1000 -> two_brands <> [] /\ 2000 * missed <= length two_brands)
  /\ (length two_brands < 2000 ->
      score = 1000 <-> two_brands <> [] /\ Forall (fun m => 0 < count m) ms).
Proof.
  apply (C7_visibility_score host_RegExp reply two_brands
           [salesforce_mention; hubspot_mention]).
  - vm_compute. reflexivity.
  - reflexivity.
Defined.

Section UpsertTwice.
Import Db MentionStore.

Local Abbreviation after_first upsert :=
  (snd (upsert 1 1 false 0 (@nil string) (@nil string) (world postgres))).
Local Abbreviation after_second upsert w1 :=
  (snd (upsert 1 1 true 2 salesforce_context
          ["https://salesforce.com"] w1)).


(** The same two calls through the Supabase client. *)
Lemma supabase_upsert_twice :
  let w1 :=
    snd (SupabaseMentionModel_createOrUpdate 1 1 false 0 [] [] (world supabase)) in
  SupabaseMentionModel_createOrUpdate 1 1 true 2
    salesforce_context ["https://salesforce.com"] w1
  = (Ok second_row,
     snd (SupabaseMentionModel_createOrUpdate 1 1 true 2
            salesforce_context
            ["https://salesforce.com"] w1))
  /\ mentions
       (tables
          (snd (SupabaseMentionModel_createOrUpdate 1 1 true 2
                  salesforce_context
                  ["https://salesforce.com"] w1)))
     = [second_row].
Proof. by_evaluation. Qed.

End UpsertTwice.

End Checked.

(** * Further properties of the code *)

(** ** The route: validation and the answer *)

Section RouteFacts.
Variable host_RegExp : string -> Result Regex.RegExp.
Variable backend : AIProvider -> string -> string + string.
Variable aiService : gmap AIProvider ProviderInstance.
Variable PromptRunModel_create :
  string -> string -> string -> string -> M Db.PromptRun.
Variable BrandModel_getOrCreate : string -> M Db.Brand.

Local Abbreviation post :=
  (POST host_RegExp backend aiService PromptRunModel_create
     BrandModel_getOrCreate).
Local Abbreviation check :=
  (checkVisibility host_RegExp backend aiService PromptRunModel_create
     BrandModel_getOrCreate).

(** X1: a request that fails validation is answered with status 400 and
    leaves no trace: nothing is logged, no provider is contacted and the
    database is not touched (the world is returned as it was).  The message
    names the first check that fails, in the order category, brands, main
    brand. *)
Theorem X1_invalid_request_is_answered_400 (body : RequestBody) (w : World) :
  passes_validation body = false ->
  exists message,
    post body w = (Ok (Failure 400 message), w)
    /\ (truthy (body_category body) = false ->
        message = "Category is required and must be a string")
    /\ (truthy (body_category body) = true ->
        (forall b bs, body_brands body <> Some (b :: bs)) ->
        message = "Brands array is required and must not be empty")
    /\ (truthy (body_category body) = true ->
        (exists b bs, body_brands body = Some (b :: bs)) ->
        message = "Main brand is required when competitor mode is enabled").
Proof.
  intros Hv. unfold passes_validation in Hv. unfold POST.
  cbv [try_catch ret bind].
  destruct (truthy (body_category body)) eqn:Hcat; cbn [negb].
  - destruct (body_category body) as [category_|] eqn:Hc; [|discriminate].
    destruct (body_brands body) as [[|b bs]|] eqn:Hb.
    + eexists. split; [reflexivity|]. repeat split; try discriminate.
      intros _ (b & bs & H). discriminate.
    + cbn [andb] in Hv. apply negb_false_iff in Hv. rewrite Hv.
      eexists. split; [reflexivity|]. repeat split; try discriminate.
      intros _ H. exfalso. apply (H b bs). reflexivity.
    + eexists. split; [reflexivity|]. repeat split; try discriminate.
      intros _ (b & bs & H). discriminate.
  - eexists. split; [reflexivity|]. repeat split; discriminate.
Qed.

(** X2: a request that passes validation is always answered, never
    rejected with an exception: the route logs the request and calls
    [checkVisibility] with the category and brands of the body, the selected
    provider, the mode and the main brand; the result of the service is
    returned as a success, and an exception of the service becomes a
    response with status 500 that carries the message of the exception,
    after one more line on the error log. *)
Theorem X2_route_answers_every_request (body : RequestBody) (w : World) :
  passes_validation body = true ->
  exists category_ brands_,
    body_category body = Some category_
    /\ body_brands body = Some brands_
    /\ match check category_ brands_ (select_provider (body_provider body))
               (body_isCompetitorMode body) (body_mainBrand body)
               (logged info "Processing visibility check request" w) with
       | (inr result, w') => post body w = (Ok (Success result), w')
       | (inl thrown, w') =>
           post body w
           = (Ok (Failure 500 (exn_message thrown)),
              logged error "Error checking visibility" w')
       end.
Proof.
  intros Hv. unfold passes_validation in Hv.
  apply andb_true_iff in Hv. destruct Hv as [Hv Hmode].
  apply andb_true_iff in Hv. destruct Hv as [Hcat Hbrands].
  apply negb_true_iff in Hmode.
  unfold POST. cbv [bind try_catch ret]. rewrite Hcat. cbn [negb].
  destruct (body_category body) as [category_|]; [|discriminate].
  destruct (body_brands body) as [[|b bs]|]; try discriminate.
  exists category_, (b :: bs). split; [reflexivity|]. split; [reflexivity|].
  rewrite Hmode. step.
  destruct (checkVisibility _ _ _ _ _ _ _ _ _ _ _) as [[thrown|result] w'];
    step; reflexivity.
Qed.

End RouteFacts.

(** ** The provider service *)

(** X3: a provider is available exactly when its API key is set to a
    non-empty string, whatever the other two keys are; its instance holds
    that key; and [getAvailableProviders] lists the providers with such a
    key, in the order openai, anthropic, groq. *)
Theorem X3_provider_available_iff_key_set (env : ProcessEnv) (p : AIProvider) :
  new_AIService env !! p
  = match api_key env p with
    | Some key =>
        if String.eqb key "" then None
        else Some {| backend_of := p; apiKey := key |}
    | None => None
    end
  /\ getAvailableProviders (new_AIService env)
     = List.filter (fun q => truthy (api_key env q)) [openai; anthropic; groq].
Proof.
  assert (Hlookup : forall q,
            new_AIService env !! q
            = match api_key env q with
              | Some key =>
                  if String.eqb key "" then None
                  else Some {| backend_of := q; apiKey := key |}
              | None => None
              end).
  { intros q. unfold new_AIService, register, truthy.
    destruct env as [ko ka kg], q;
      cbn [OPENAI_API_KEY ANTHROPIC_API_KEY GROQ_API_KEY api_key];
      destruct ko as [ko|], ka as [ka|], kg as [kg|];
      try destruct (String.eqb ko ""); try destruct (String.eqb ka "");
      try destruct (String.eqb kg ""); cbn [negb];
      simplify_map_eq; reflexivity. }
  split; [apply Hlookup|].
  unfold getAvailableProviders. cbn [List.filter].
  rewrite !Hlookup. unfold truthy.
  destruct (api_key env openai) as [ko|], (api_key env anthropic) as [ka|],
    (api_key env groq) as [kg|];
    try destruct (String.eqb ko ""); try destruct (String.eqb ka "");
    try destruct (String.eqb kg ""); reflexivity.
Qed.

Section ProviderFacts.
Variable backend : AIProvider -> string -> string + string.
Variable aiService : gmap AIProvider ProviderInstance.

(** X4: a query to a configured provider calls the client library exactly
    once, with the visibility prompt for the category and the brands, on the
    instance of that provider, and does not touch the database: the
    application neither calls again when the call fails nor turns to
    another provider.  (How many HTTP requests the one call takes is the
    library's matter: the clients are constructed with the key alone, so the
    library repeats a request that fails.)  When the call returns, the
    response is its text with the citations extracted from that text; when
    the library throws, the query throws an error whose message is the
    provider's label, " API error: " and the original message. *)
Theorem X4_one_client_call_per_query (provider : AIProvider)
    (inst : ProviderInstance) (category_ : string) (brands_ : list string)
    (w : World) :
  aiService !! provider = Some inst ->
  let prompt_ := generateVisibilityPrompt category_ brands_ in
  let outcome := queryAI backend aiService provider category_ brands_ w in
  net_log (snd outcome) = (net_log w ++ [(backend_of inst, prompt_)])%list
  /\ tables (snd outcome) = tables w
  /\ db_faults (snd outcome) = db_faults w
  /\ fst outcome
     = match backend (backend_of inst) prompt_ with
       | inr completion =>
           Ok {| text := completion; citations := extractCitations completion |}
       | inl message =>
           Throw (JsError (provider_label (backend_of inst) ++ " API error: "
                           ++ message))
       end.
Proof.
  intros Hs prompt_ outcome. subst outcome prompt_.
  unfold queryAI. rewrite Hs. cbv [bind]. step.
  unfold Provider_query, client_create. cbv [bind try_catch ret throw]. step.
  destruct (backend (backend_of inst) _) as [message|completion]; step;
    cbn [fst snd exn_message]; repeat split; world.
Qed.

End ProviderFacts.

(** ** Citation attribution and the stored run *)

Lemma sublist_List_filter {A} (p : A -> bool) (l : list A) :
  sublist (List.filter p l) l.
Proof.
  induction l as [|x l IH]; simpl; [constructor|].
  destruct (p x); [apply sublist_skip | apply sublist_cons]; assumption.
Qed.

(** X5: attributing citations changes nothing of a mention but its URLs.
    A brand that was counted gets URLs taken from the citations of the
    response, in their order (a sub-sequence of them), and at least one
    whenever the response has any citation; a brand that was not counted
    keeps the URLs it had. *)
Theorem X5_citations_come_from_the_response (citations_ : list string)
    (m : BrandMention) :
  let attributed := assign_citations citations_ m in
  brand attributed = brand m
  /\ count attributed = count m
  /\ context attributed = context m
  /\ (0 < count m -> sublist (citationUrls attributed) citations_)
  /\ (0 < count m -> citations_ <> [] -> citationUrls attributed <> [])
  /\ (count m = 0 -> citationUrls attributed = citationUrls m).
Proof.
  intros attributed. subst attributed. unfold assign_citations.
  destruct (0 <? count m) eqn:Hpos; cbn [brand count context citationUrls].
  - repeat split.
    + intros _.
      destruct ((length (List.filter (cites m) citations_) =? 0)
                && (0 <? length citations_)).
      * apply sublist_take.
      * apply sublist_List_filter.
    + intros _ Hne.
      destruct (List.filter (cites m) citations_) as [|u us] eqn:Hf;
        cbn [length Nat.eqb andb].
      * destruct citations_ as [|c cs]; [congruence|]. cbn. discriminate.
      * discriminate.
    + apply Nat.ltb_lt in Hpos. lia.
  - apply Nat.ltb_ge in Hpos. repeat split; try reflexivity; intros; lia.
Qed.

Section StoreRunFacts.
Variable PromptRunModel_create :
  string -> string -> string -> string -> M Db.PromptRun.
Variable BrandModel_getOrCreate : string -> M Db.Brand.

(** X6: storing a run never throws, and the run id it reports is decided
    by the creation of the run alone: it is the id of the created run even
    when storing a brand or a mention fails afterwards, and it is absent
    exactly when the creation fails.  The run is created with the category,
    the stored prompt, the text of the response and the name of the
    provider. *)
Theorem X6_run_id_reported_once_the_run_is_created
    (category_ : string) (brands_ : list string) (provider : AIProvider)
    (isCompetitorMode : bool) (mainBrand : option string)
    (aiResponse : AIResponse) (mentions_ : list BrandMention) (w : World) :
  let created :=
    PromptRunModel_create category_
      (stored_prompt category_ brands_ isCompetitorMode mainBrand)
      (text aiResponse) (provider_name provider) w in
  fst (store_run PromptRunModel_create BrandModel_getOrCreate category_
         brands_ provider isCompetitorMode mainBrand aiResponse mentions_ w)
  = Ok match fst created with
       | inr promptRun => Some (Db.run_id promptRun)
       | inl _ => None
       end.
Proof.
  intros created. subst created. unfold store_run. cbv [bind try_catch ret].
  destruct (PromptRunModel_create _ _ _ _ w) as [[e|run] w1]; step.
  - reflexivity.
  - match goal with
    | |- context [for_of ?l ?f ?w0] => destruct (for_of l f w0) as [[e|[]] w2]
    end; step; reflexivity.
Qed.

End StoreRunFacts.

(** X10: the competitor prompt is the visibility prompt over the main
    brand followed by the competitors, as soon as there is a competitor;
    with no competitor its brand line is the main brand followed by a
    dangling ", ". *)
Theorem X10_competitor_prompt_is_visibility_prompt
    (category_ mainBrand competitor : string) (competitors : list string) :
  generateCompetitorPrompt category_ mainBrand (competitor :: competitors)
  = generateVisibilityPrompt category_ (mainBrand :: competitor :: competitors)
  /\ generateCompetitorPrompt category_ mainBrand []
     = generateVisibilityPrompt category_ [(mainBrand ++ ", ")%string].
Proof.
  unfold generateCompetitorPrompt, generateVisibilityPrompt. split.
  - reflexivity.
  - cbn [JsString.join]. reflexivity.
Qed.

(** ** Sentences, contexts and plain URLs *)

Section TextFacts.
Import JsString Regex.

Lemma cset_ends_sentence c :
  cset_match false (CSet false ["."; "!"; "?"]%char false) c = ends_sentence c.
Proof.
  unfold cset_match, ends_sentence, fold_case. cbn [existsb xorb andb].
  rewrite !orb_false_r. rewrite !(Ascii.eqb_sym c). reflexivity.
Qed.

Lemma cset_trailing_mark c :
  cset_match false (CSet false ["."; ","; ";"; "!"; "?"]%char false) c
  = trailing_mark c.
Proof.
  unfold cset_match, trailing_mark, fold_case. cbn [existsb xorb andb].
  rewrite !orb_false_r. rewrite !(Ascii.eqb_sym c). reflexivity.
Qed.

(** A greedy run at the end of a pattern always matches, and leaves a
    suffix of the input. *)
Lemma star_run (a : cset) (s : string) (prev : option ascii) :
  exists rest,
    star false true a (fun _ s => Some ([], s)) prev s = Some ([], rest)
    /\ String.length rest <= String.length s.
Proof.
  revert prev. induction s as [|c s IH]; intros prev.
  - exists "". split; [reflexivity | cbn; lia].
  - cbn [star]. destruct (cset_match false a c).
    + destruct (IH (Some c)) as (rest & -> & Hle). exists rest.
      split; [reflexivity | cbn; lia].
    + exists (String c s). split; [reflexivity | lia].
Qed.

(** The separator matches at a position exactly when the character there
    ends a sentence, and then consumes it. *)
Lemma separator_exec (prev : option ascii) (c : ascii) (s : string) :
  if ends_sentence c
  then exists rest,
         exec_at sentence_separator prev (String c s) = Some ([], rest)
         /\ String.length rest <= String.length s
  else exec_at sentence_separator prev (String c s) = None.
Proof.
  unfold sentence_separator, compile. cbn [exec_at match_here one].
  rewrite cset_ends_sentence. destruct (ends_sentence c); [|reflexivity].
  apply star_run.
Qed.

Lemma any_char_of_list p (l : list ascii) :
  any_char p (string_of_list_ascii l) = existsb p l.
Proof. induction l as [|c l IH]; [reflexivity|]. cbn. rewrite IH. reflexivity. Qed.

Lemma existsb_rev {A} (p : A -> bool) (l : list A) :
  existsb p (rev l) = existsb p l.
Proof.
  induction l as [|x l IH]; [reflexivity|]. cbn [rev existsb].
  rewrite existsb_app, IH. cbn. rewrite orb_false_r, orb_comm. reflexivity.
Qed.

Lemma split_go_pieces (s : string) :
  forall prev skip cur,
    existsb ends_sentence cur = false ->
    Forall (fun piece => any_char ends_sentence piece = false)
      (split_go sentence_separator prev skip cur s).
Proof.
  induction s as [|c s IH]; intros prev skip cur Hcur.
  - cbn [split_go]. constructor; [|constructor].
    rewrite any_char_of_list, existsb_rev. exact Hcur.
  - cbn [split_go]. destruct skip as [|skip]; [|apply IH; exact Hcur].
    pose proof (separator_exec prev c s) as Hexec.
    assert (Hpiece : any_char ends_sentence (string_of_list_ascii (rev cur)) = false)
      by (rewrite any_char_of_list, existsb_rev; exact Hcur).
    destruct (ends_sentence c) eqn:Hc.
    + destruct Hexec as (rest & -> & Hle).
      destruct (String.length (String c s) - String.length rest) as [|n] eqn:Hn;
        [cbn [String.length] in Hn; lia|].
      constructor; [exact Hpiece | apply IH; reflexivity].
    + rewrite Hexec. apply IH. cbn [existsb]. rewrite Hc, Hcur. reflexivity.
Qed.

Lemma split_pieces (text_ : string) :
  Forall (fun piece => any_char ends_sentence piece = false)
    (split sentence_separator text_).
Proof.
  destruct text_ as [|c s].
  - cbn. constructor; [reflexivity | constructor].
  - apply split_go_pieces. reflexivity.
Qed.

Lemma any_char_trimStart p s :
  any_char p s = false -> any_char p (trimStart s) = false.
Proof.
  induction s as [|c s IH]; [reflexivity|]. cbn [any_char trimStart]. intros H.
  apply orb_false_iff in H as [Hc Hs].
  destruct (is_space c); [auto|]. cbn [any_char]. rewrite Hc, Hs. reflexivity.
Qed.

Lemma trimEnd_cons c s :
  trimEnd (String c s)
  = match trimEnd s with
    | EmptyString => if is_space c then EmptyString else String c EmptyString
    | t => String c t
    end.
Proof. reflexivity. Qed.

Lemma any_char_trimEnd p s :
  any_char p s = false -> any_char p (trimEnd s) = false.
Proof.
  induction s as [|c s IH]; [reflexivity|]. rewrite trimEnd_cons. cbn [any_char].
  intros H. apply orb_false_iff in H as [Hc Hs]. specialize (IH Hs).
  destruct (trimEnd s) as [|d t].
  - destruct (is_space c); cbn [any_char]; rewrite ?Hc; reflexivity.
  - cbn [any_char] in *. rewrite Hc. exact IH.
Qed.

Lemma trimStart_first s c : first_char (trimStart s) = Some c -> is_space c = false.
Proof.
  induction s as [|d s IH]; [discriminate|]. cbn [trimStart].
  destruct (is_space d) eqn:Hd; [exact IH|]. cbn. intros [= <-]. exact Hd.
Qed.

Lemma trimEnd_first s : trimEnd s <> "" -> first_char (trimEnd s) = first_char s.
Proof.
  destruct s as [|c s]; [reflexivity|]. rewrite trimEnd_cons.
  destruct (trimEnd s); [destruct (is_space c); [congruence | reflexivity] | reflexivity].
Qed.

Lemma trimEnd_last s c : last_char (trimEnd s) = Some c -> is_space c = false.
Proof.
  induction s as [|d s IH]; [discriminate|]. rewrite trimEnd_cons.
  destruct (trimEnd s) as [|e t].
  - destruct (is_space d) eqn:Hd; [discriminate|]. cbn. intros [= <-]. exact Hd.
  - exact IH.
Qed.

Lemma trim_no_space_around s : no_space_around (trim s).
Proof.
  unfold trim. split; intros c Hc.
  - destruct (string_dec (trimEnd (trimStart s)) "") as [E|E].
    + rewrite E in Hc. discriminate.
    + rewrite trimEnd_first in Hc by exact E. eapply trimStart_first, Hc.
  - eapply trimEnd_last, Hc.
Qed.

(** The sentences are not blank and hold none of the separator's
    characters. *)
Lemma sentences_of_spec text_ :
  Forall (fun s => trim s <> "" /\ any_char ends_sentence s = false)
    (sentences_of text_).
Proof.
  unfold sentences_of. apply List.Forall_forall. intros s Hin.
  apply List.filter_In in Hin as [Hin Hlen]. split.
  - intros E. rewrite E in Hlen. discriminate.
  - pose proof (split_pieces text_) as H.
    rewrite List.Forall_forall in H. apply H, Hin.
Qed.

Lemma within_includes x s : within x s -> includes s x = true.
Proof. intros (pre & post & ->). apply includes_app. Qed.

Lemma within_trans x y z : within x y -> within y z -> within x z.
Proof.
  intros (p & q & ->) (p' & q' & ->). exists (p' ++ p), (q ++ q').
  rewrite !string_app_assoc. reflexivity.
Qed.

Lemma string_app_nil_r (s : string) : s ++ "" = s.
Proof.
  induction s as [|c s IH]; [reflexivity|].
  change (String c s ++ "") with (String c (s ++ "")). rewrite IH. reflexivity.
Qed.

Lemma string_of_list_ascii_snoc (l : list ascii) (c : ascii) (s : string) :
  string_of_list_ascii (l ++ [c]) ++ s = string_of_list_ascii l ++ String c s.
Proof.
  induction l as [|d l IH]; [reflexivity|].
  cbn [app string_of_list_ascii].
  change (String d ?a ++ ?b) with (String d (a ++ b)). rewrite IH. reflexivity.
Qed.

(** Whatever the expression, the pieces of a split occur in the text. *)
Lemma split_go_within (r : RegExp) (s : string) :
  forall prev skip cur pre,
    (skip <> 0 -> cur = []) ->
    Forall (fun piece => within piece (pre ++ string_of_list_ascii (rev cur) ++ s))
      (split_go r prev skip cur s).
Proof.
  induction s as [|c s IH]; intros prev skip cur pre Hskip.
  - cbn [split_go]. constructor; [|constructor]. exists pre, "". reflexivity.
  - assert (Hcur : within (string_of_list_ascii (rev cur))
                     (pre ++ string_of_list_ascii (rev cur) ++ String c s))
      by (exists pre, (String c s); reflexivity).
    assert (Hnext : forall prev' skip',
              Forall (fun piece =>
                        within piece (pre ++ string_of_list_ascii (rev cur) ++ String c s))
                (split_go r prev' skip' [] s)).
    { intros prev' skip'.
      replace (pre ++ string_of_list_ascii (rev cur) ++ String c s)
        with ((pre ++ string_of_list_ascii (rev cur) ++ String c "")
              ++ string_of_list_ascii (rev []) ++ s)
        by (rewrite !string_app_assoc; reflexivity).
      apply IH. reflexivity. }
    assert (Hopen : forall prev',
              Forall (fun piece =>
                        within piece (pre ++ string_of_list_ascii (rev cur) ++ String c s))
                (split_go r prev' 0 [c] s)).
    { intros prev'.
      replace (pre ++ string_of_list_ascii (rev cur) ++ String c s)
        with ((pre ++ string_of_list_ascii (rev cur))
              ++ string_of_list_ascii (rev [c]) ++ s)
        by (rewrite !string_app_assoc; reflexivity).
      apply IH. congruence. }
    cbn [split_go]. destruct skip as [|skip].
    + destruct (exec_at r prev (String c s)) as [[ms rest]|].
      * destruct (String.length (String c s) - String.length rest) as [|n].
        -- destruct cur as [|d cur]; [apply Hopen|].
           constructor; [exact Hcur | apply Hopen].
        -- constructor; [exact Hcur | apply Hnext].
      * replace (pre ++ string_of_list_ascii (rev cur) ++ String c s)
          with (pre ++ string_of_list_ascii (rev (c :: cur)) ++ s)
          by (cbn [rev]; rewrite string_of_list_ascii_snoc; reflexivity).
        apply IH. congruence.
    + pose proof (Hskip ltac:(discriminate)) as E. subst cur. apply Hnext.
Qed.

Lemma split_within (r : RegExp) (text_ : string) :
  Forall (fun piece => within piece text_) (split r text_).
Proof.
  destruct text_ as [|c s].
  - cbn [split]. destruct (exec_at r None ""); constructor; [|constructor].
    exists "", "". reflexivity.
  - apply (split_go_within r (String c s) None 0 [] ""). congruence.
Qed.

Lemma trimStart_within s : within (trimStart s) s.
Proof.
  induction s as [|c s IH]; [exists "", ""; reflexivity|]. cbn [trimStart].
  destruct (is_space c).
  - destruct IH as (pre & post & E). exists (String c pre), post.
    change (String c pre ++ ?x) with (String c (pre ++ x)). rewrite <- E.
    reflexivity.
  - exists "", "". cbn. rewrite string_app_nil_r. reflexivity.
Qed.

Lemma trimEnd_prefix s : exists post, s = trimEnd s ++ post.
Proof.
  induction s as [|c s IH]; [exists ""; reflexivity|]. rewrite trimEnd_cons.
  destruct IH as (post & E). destruct (trimEnd s) as [|d t].
  - destruct (is_space c).
    + exists (String c s). reflexivity.
    + exists s. reflexivity.
  - exists post. change (String c ?a ++ ?b) with (String c (a ++ b)).
    rewrite <- E. reflexivity.
Qed.

Lemma trim_within s : within (trim s) s.
Proof.
  unfold trim. eapply within_trans; [|apply trimStart_within].
  destruct (trimEnd_prefix (trimStart s)) as (post & E).
  exists "", post. exact E.
Qed.

Lemma sentences_of_within text_ :
  Forall (fun s => within s text_) (sentences_of text_).
Proof.
  unfold sentences_of. apply List.Forall_forall. intros s Hin.
  apply List.filter_In in Hin as [Hin _].
  pose proof (split_within sentence_separator text_) as H.
  rewrite List.Forall_forall in H. apply H, Hin.
Qed.

Lemma head_rev {A} (l : list A) : head (rev l) = last l.
Proof.
  induction l as [|x l IH]; [reflexivity|]. cbn [rev].
  destruct l as [|y l]; [reflexivity|].
  change (last (x :: y :: l)) with (last (y :: l)). rewrite <- IH.
  destruct (rev (y :: l)) eqn:E; [|reflexivity].
  apply (f_equal (@length A)) in E. rewrite length_rev in E. discriminate.
Qed.

(** A pattern that is read keeps the nodes read before it in front. *)
Lemma parse_go_keeps_first (n : nat) :
  forall p st acc re,
    String.length p <= n ->
    last acc = Some NWordBoundary ->
    parse_go st acc p = Parsed re ->
    head re = Some NWordBoundary.
Proof.
  induction n as [|n IH]; intros p st acc re Hlen Hlast Hp.
  - destruct p; [|cbn in Hlen; lia]. cbn in Hp. injection Hp as <-.
    rewrite head_rev. exact Hlast.
  - destruct p as [|c p].
    { cbn in Hp. injection Hp as <-. rewrite head_rev. exact Hlast. }
    cbn [String.length] in Hlen.
    assert (Hpush : forall x, last (x :: acc) = Some NWordBoundary).
    { intros x. destruct acc; [discriminate | exact Hlast]. }
    assert (Hswap : forall a q acc' x,
              acc = NAtom a q :: acc' -> last (x :: acc') = Some NWordBoundary).
    { intros a q acc' x ->. destruct acc'; [discriminate | exact Hlast]. }
    cbn [parse_go] in Hp.
    assert (Hq : forall q,
              match st, acc with
              | AfterAtom, NAtom a QOne :: acc' =>
                  parse_go AfterQuant (NAtom a q :: acc') p
              | _, _ => NothingToRepeat
              end = Parsed re -> head re = Some NWordBoundary).
    { intros q Hq. destruct st; try discriminate.
      destruct acc as [|[a [| | |]| | | |] acc']; try discriminate.
      eapply IH; [|eapply Hswap; reflexivity|exact Hq]. lia. }
    destruct (Ascii.eqb c "*"); [exact (Hq (QStar true) Hp)|].
    destruct (Ascii.eqb c "+"); [exact (Hq (QPlus true) Hp)|].
    destruct (Ascii.eqb c "?").
    { destruct st; try exact (Hq (QOpt true) Hp).
      destruct acc as [|[a q| | | |] acc']; try exact (Hq (QOpt true) Hp).
      eapply IH; [|eapply Hswap; reflexivity|exact Hp]. lia. }
    destruct (Ascii.eqb c ".").
    { eapply IH; [|apply Hpush|exact Hp]. lia. }
    destruct (Ascii.eqb c "\").
    { destruct p as [|d p]; [discriminate|].
      destruct (Ascii.eqb d "b") eqn:Hd.
      - apply Ascii.eqb_eq in Hd. subst d.
        eapply IH; [|apply Hpush|exact Hp]. cbn [String.length] in Hlen. lia.
      - exfalso. revert Hp Hd. clear.
        destruct d as [[] [] [] [] [] [] [] []]; cbn; congruence. }
    destruct (is_syntax_char c); [discriminate|].
    eapply IH; [|apply Hpush|exact Hp]. lia.
Qed.

Lemma bounded_pattern_parse (x : string) (re : list node) :
  parse ("\b" ++ x) = Parsed re -> head re = Some NWordBoundary.
Proof.
  unfold parse. change ("\b" ++ x) with (String "\" (String "b" x)).
  cbn [parse_go]. cbn [Ascii.eqb Bool.eqb andb].
  apply (parse_go_keeps_first (String.length x)); [lia | reflexivity].
Qed.

(** There is no word boundary in the empty text. *)
Lemma no_match_in_empty_text (re : list node) :
  head re = Some NWordBoundary -> match_all (compile true re) "" = [].
Proof.
  destruct re as [|n re]; [discriminate|]. intros [= ->]. reflexivity.
Qed.

Section Analyzer.
Variable host_RegExp : string -> Result RegExp.

Lemma analyse_mention_context text_ sentences m m' :
  analyse_mention host_RegExp text_ sentences m = Ok m' ->
  context m' =
    (context m ++
     map trim (List.filter
                 (fun sentence => includes (toLowerCase sentence) (toLowerCase (brand m)))
                 sentences))%list.
Proof.
  unfold analyse_mention. destruct (new_RegExp_gi _ _); [discriminate|].
  cbn. intros [= <-]. reflexivity.
Qed.

(** X11: the brands are analysed independently of each other: the mention
    reported for a brand in a list is the one reported when that brand is
    analysed alone, so neither the other brands nor the position in the
    list changes a count or a context.  For an empty response text every
    brand has an empty context, and the count 0 whenever its pattern lies in
    the modelled fragment of regular expressions. *)
Theorem X11_each_brand_analysed_alone (text_ : string) (brands_ : list string)
    (ms : list BrandMention) :
  extractBrandMentions host_RegExp text_ brands_ = Ok ms ->
  Forall2 (fun b m => extractBrandMentions host_RegExp text_ [b] = Ok [m])
    brands_ ms
  /\ (text_ = "" ->
      Forall (fun m =>
                context m = []
                /\ (parse ("\b" ++ toLowerCase (brand m) ++ "\b") <> OutsideFragment ->
                    count m = 0)) ms).
Proof.
  unfold extractBrandMentions. intros H. apply mapR_Ok_Forall2 in H.
  split.
  - revert ms H. induction brands_ as [|b bs IH]; intros ms H.
    + inversion H. constructor.
    + cbn [map] in H. inversion H as [|x y l l' Hxy Hrest]; subst.
      constructor; [|apply IH, Hrest].
      cbn [map mapR]. rewrite Hxy. reflexivity.
  - intros ->. change (sentences_of "") with (@nil string) in H.
    revert ms H. induction brands_ as [|b bs IH]; intros ms H.
    + inversion H. constructor.
    + cbn [map] in H. inversion H as [|x y l l' Hxy Hrest]; subst.
      constructor; [|apply IH, Hrest].
      unfold analyse_mention, new_RegExp_gi in Hxy. cbn [brand context] in Hxy.
      destruct (parse ("\b" ++ toLowerCase b ++ "\b")) as [re| |] eqn:Hparse.
      * cbn [rbind] in Hxy. injection Hxy as <-. cbn [context count brand].
        split; [reflexivity|]. intros _.
        rewrite (no_match_in_empty_text re); [reflexivity|].
        eapply bounded_pattern_parse, Hparse.
      * discriminate.
      * destruct (host_RegExp _) as [e|r]; [discriminate|].
        cbn in Hxy. injection Hxy as <-. cbn [context count brand].
        split; [reflexivity|]. rewrite Hparse. congruence.
Qed.

(** X12: every context sentence reported for a brand is quoted from the
    response: it occurs in the text as it stands, it is not empty, it holds
    none of the characters ".", "!" and "?" that separate sentences, and it
    has no white space at either end. *)
Theorem X12_context_quotes_the_response (text_ : string) (brands_ : list string)
    (ms : list BrandMention) :
  extractBrandMentions host_RegExp text_ brands_ = Ok ms ->
  Forall (fun m =>
            Forall (fun s =>
                      includes text_ s = true
                      /\ s <> ""
                      /\ any_char ends_sentence s = false
                      /\ no_space_around s)
              (context m)) ms.
Proof.
  unfold extractBrandMentions. intros H.
  apply mapR_Ok_Forall2 in H.
  remember (map _ brands_) as start eqn:Hstart.
  assert (Hnil : Forall (fun m => context m = []) start).
  { subst start. apply List.Forall_forall. intros m Hin.
    apply List.in_map_iff in Hin as (b & <- & _). reflexivity. }
  clear Hstart. induction H as [|m m' l l' Hm _ IH]; [constructor|].
  apply Forall_cons_1 in Hnil as [Hm0 Hl]. constructor; [|apply IH, Hl].
  apply analyse_mention_context in Hm. rewrite Hm, Hm0. cbn [app].
  apply List.Forall_forall. intros s Hin.
  apply List.in_map_iff in Hin as (sentence & <- & Hin).
  apply List.filter_In in Hin as [Hin _].
  pose proof (sentences_of_spec text_) as Hs. rewrite List.Forall_forall in Hs.
  destruct (Hs _ Hin) as [Hne Hfree].
  pose proof (sentences_of_within text_) as Hw. rewrite List.Forall_forall in Hw.
  split; [|split; [exact Hne | split]].
  - apply within_includes. eapply within_trans; [apply trim_within | apply Hw, Hin].
  - unfold trim. apply any_char_trimEnd, any_char_trimStart, Hfree.
  - apply trim_no_space_around.
Qed.

End Analyzer.

(** *** The plain URLs *)

Lemma star_to_end (s : string) (prev : option ascii) :
  star false true (CSet false ["."; ","; ";"; "!"; "?"]%char false)
    (match_here false [NEnd]) prev s
  = if all_chars trailing_mark s then Some ([], "") else None.
Proof.
  revert prev. induction s as [|c s IH]; intros prev; [reflexivity|].
  cbn [star all_chars]. rewrite cset_trailing_mark.
  destruct (trailing_mark c); cbn [andb].
  - rewrite IH. destruct (all_chars trailing_mark s); reflexivity.
  - reflexivity.
Qed.

(** [/[.,;!?]+$/] matches at a position exactly when what is left of the
    input is a non-empty run of the five marks. *)
Lemma trailingPunctuation_exec (prev : option ascii) (s : string) :
  exec_at trailingPunctuation prev s
  = match s with
    | EmptyString => None
    | String _ _ => if all_chars trailing_mark s then Some ([], "") else None
    end.
Proof.
  unfold trailingPunctuation, compile. cbn [exec_at].
  change (match_here false [?n; NEnd])
    with (one false (CSet false ["."; ","; ";"; "!"; "?"]%char false)
            (star false true (CSet false ["."; ","; ";"; "!"; "?"]%char false)
               (match_here false [NEnd]))).
  destruct s as [|c s]; [reflexivity|]. cbn [one all_chars].
  rewrite cset_trailing_mark, star_to_end.
  destruct (trailing_mark c); reflexivity.
Qed.

Lemma search_trailingPunctuation (s : string) (prev : option ascii) :
  match search trailingPunctuation prev s with
  | Some (pre, (_, rest)) => pre ++ rest
  | None => s
  end = strip_end s.
Proof.
  revert prev. induction s as [|c s IH]; intros prev; [reflexivity|].
  cbn [search]. rewrite trailingPunctuation_exec. cbn [strip_end].
  destruct (all_chars trailing_mark (String c s)); [reflexivity|].
  specialize (IH (Some c)).
  destruct (search trailingPunctuation (Some c) s) as [[pre [ms rest]]|].
  - change (String c pre ++ rest) with (String c (pre ++ rest)). rewrite IH.
    reflexivity.
  - f_equal. exact IH.
Qed.

Lemma remove_first_trailingPunctuation (s : string) :
  remove_first trailingPunctuation s = strip_end s.
Proof. apply search_trailingPunctuation. Qed.

Lemma strip_end_empty (s : string) :
  strip_end s = "" -> all_chars trailing_mark s = true.
Proof.
  destruct s as [|c s]; [reflexivity|]. cbn [strip_end].
  destruct (all_chars trailing_mark (String c s)); [reflexivity | discriminate].
Qed.

Lemma strip_end_last (s : string) (c : ascii) :
  last_char (strip_end s) = Some c -> trailing_mark c = false.
Proof.
  induction s as [|d s IH]; [discriminate|]. cbn [strip_end].
  destruct (all_chars trailing_mark (String d s)) eqn:Hall; [discriminate|].
  cbn [last_char]. destruct (strip_end s) as [|e t] eqn:Hs.
  - intros [= <-]. apply strip_end_empty in Hs. cbn [all_chars] in Hall.
    rewrite Hs, andb_true_r in Hall. exact Hall.
  - exact IH.
Qed.

Lemma strip_end_fixed (s : string) :
  (forall c, last_char s = Some c -> trailing_mark c = false) ->
  strip_end s = s.
Proof.
  induction s as [|d s IH]; [reflexivity|]. intros Hlast. cbn [strip_end].
  destruct (all_chars trailing_mark (String d s)) eqn:Hall.
  - exfalso. clear IH. revert d Hlast Hall.
    induction s as [|e s IHs]; intros d Hlast Hall.
    + cbn [all_chars] in Hall. rewrite andb_true_r in Hall.
      rewrite (Hlast d eq_refl) in Hall. discriminate.
    + apply (IHs e); [exact Hlast|]. cbn [all_chars] in Hall.
      apply andb_true_iff in Hall as [_ Hall]. exact Hall.
  - f_equal. apply IH. intros c Hc. apply Hlast.
    destruct s; [discriminate | exact Hc].
Qed.

(** The URLs that the second loop adds to the [citations] it is given. *)
Lemma fold_add_plain_url_added (hits : list hit) (citations_ : list string) :
  exists added,
    fold_left add_plain_url hits citations_ = (citations_ ++ added)%list
    /\ NoDup added
    /\ (forall u, In u added -> ~ In u citations_)
    /\ (forall u, In u added ->
          exists h, In h hits /\ u = strip_end (group 1 h)).
Proof.
  revert citations_. induction hits as [|h hits IH]; intros cs; cbn [fold_left].
  - exists []. rewrite app_nil_r. repeat split; try constructor; intros u [].
  - destruct (IH (add_plain_url cs h)) as (added & -> & Hnd & Hnew & Hfrom).
    unfold add_plain_url in *. rewrite remove_first_trailingPunctuation in *.
    destruct (array_includes cs (strip_end (group 1 h))) eqn:Hin.
    + exists added. repeat split; [exact Hnd | exact Hnew |].
      intros u Hu. destruct (Hfrom u Hu) as (h' & Hh' & ->).
      exists h'. split; [right; exact Hh' | reflexivity].
    + exists (strip_end (group 1 h) :: added). rewrite <- app_assoc.
      repeat split.
      * apply NoDup_cons. split; [|exact Hnd].
        intros Hu. apply list_elem_of_In in Hu. apply (Hnew _ Hu).
        apply in_or_app. right. left. reflexivity.
      * intros u [<-|Hu] Hcs.
        -- apply array_includes_In in Hcs. congruence.
        -- apply (Hnew u Hu). apply in_or_app. left. exact Hcs.
      * intros u [<-|Hu].
        -- exists h. split; [left; reflexivity | reflexivity].
        -- destruct (Hfrom u Hu) as (h' & Hh' & ->).
           exists h'. split; [right; exact Hh' | reflexivity].
Qed.

(** X13: after the URLs of the markdown links, the citations list the
    plain URLs of the text: each is a match of the URL pattern with its
    trailing punctuation removed, so it does not end with ".", ",", ";",
    "!" or "?" and removing trailing punctuation again leaves it as it is;
    none of them repeats a markdown URL, and no two of them are equal. *)
Theorem X13_plain_urls_are_stripped_and_new (text_ : string) :
  let linked := map (group 2) (match_all markdownLinkRegex text_) in
  exists plain,
    extractCitations text_ = (linked ++ plain)%list
    /\ NoDup plain
    /\ Forall (fun url =>
                 ~ In url linked
                 /\ (forall c, last_char url = Some c -> trailing_mark c = false)
                 /\ remove_first trailingPunctuation url = url
                 /\ exists h, In h (match_all urlRegex text_)
                              /\ url = remove_first trailingPunctuation (group 1 h))
         plain.
Proof.
  intros linked. unfold extractCitations. fold linked.
  destruct (fold_add_plain_url_added (match_all urlRegex text_) linked)
    as (plain & -> & Hnd & Hnew & Hfrom).
  exists plain. split; [reflexivity|]. split; [exact Hnd|].
  apply List.Forall_forall. intros url Hin. split; [apply Hnew, Hin|].
  destruct (Hfrom url Hin) as (h & Hh & ->). split; [|split].
  - intros c. apply strip_end_last.
  - rewrite remove_first_trailingPunctuation. apply strip_end_fixed.
    intros c. apply strip_end_last.
  - exists h. split; [exact Hh|].
    rewrite remove_first_trailingPunctuation. reflexivity.
Qed.

End TextFacts.

(** ** The upsert: what it leaves alone *)

Section UpsertFrame.
Import Db MentionStore MentionStoreFacts.

Lemma round_trip_cases {A} (statement : nat -> Tables -> Result A * Tables)
    (w : World) :
  (exists faults,
     round_trip statement w
     = (Throw (DriverError "connection failure"),
        set_database (tables w) faults w))
  \/ (exists faults r t',
        statement (now w) (tables w) = (r, t')
        /\ round_trip statement w = (r, set_database t' faults w)).
Proof.
  unfold round_trip. destruct (db_faults w) as [|[] faults].
  - right. exists []. destruct (statement _ _) as [r t']. eauto.
  - left. exists faults. reflexivity.
  - right. exists faults. destruct (statement _ _) as [r t']. eauto.
Qed.

Lemma Supabase_cases run brand_ m c ctx urls w r w' :
  SupabaseMentionModel_createOrUpdate run brand_ m c ctx urls w = (r, w') ->
  upsert_case
    (insert_on_conflict_update set_payload run brand_ m c ctx urls
       (now w) (tables w))
    r (tables w) (tables w').
Proof.
  intros H. unfold SupabaseMentionModel_createOrUpdate in H.
  cbv [bind get try_catch throw ret] in H.
  destruct (supabaseClient (connection w)); cbv [negb] in H; step_in H.
  2:{ injection H as <- <-. eapply NotRun; reflexivity. }
  destruct (round_trip_cases
              (insert_on_conflict_update set_payload run brand_ m c ctx urls) w)
    as [[faults Hrt]|(faults & r0 & t' & Hst & Hrt)];
    rewrite Hrt in H; clear Hrt; step_in H.
  - injection H as <- <-. eapply NotRun; [reflexivity | world].
  - rewrite Hst. destruct r0 as [e|rows]; step_in H.
    + injection H as <- <-. eapply RanThrew; [|reflexivity]; f_equal; world.
    + destruct rows as [|row [|row2 rows]]; step_in H; injection H as <- <-.
      * eapply RanRefused; [f_equal; world | discriminate | reflexivity].
      * eapply RanReturned; [f_equal; world | reflexivity].
      * eapply RanRefused; [f_equal; world | discriminate | reflexivity].
Qed.

(** A call of [query] either fails without running its statement, or
    returns what the statement gives on the tables. *)
Lemma query_cases {A} (statement : nat -> Tables -> Result A * Tables)
    w r w' :
  query statement w = (r, w') ->
  (tables w' = tables w /\ exists e, r = Throw e)
  \/ statement (now w) (tables w) = (r, tables w').
Proof.
  intros H. unfold query in H.
  cbv [bind get try_catch throw ret] in H. step_in H.
  destruct (useSupabase (connection w) && supabaseClient (connection w));
    step_in H.
  - destruct (databaseUrl (connection w)); step_in H.
    + match type of H with
      | context [round_trip statement ?w0] =>
          destruct (round_trip_cases statement w0)
            as [[faults Hrt]|(faults & r0 & t' & Hst & Hrt)]
      end; rewrite Hrt in H; clear Hrt; step_in H.
      * injection H as <- <-. left. split; [world | eauto].
      * autorewrite with world in Hst. rewrite Hst.
        destruct r0 as [e|a]; step_in H; injection H as <- <-;
          right; f_equal; world.
    + injection H as <- <-. left. split; [world | eauto].
  - destruct (pool (connection w)); step_in H.
    + destruct (round_trip_cases statement w)
        as [[faults Hrt]|(faults & r0 & t' & Hst & Hrt)];
        rewrite Hrt in H; clear Hrt; step_in H.
      * injection H as <- <-. left. split; [world | eauto].
      * rewrite Hst.
        destruct r0 as [e|a]; step_in H; injection H as <- <-;
          right; f_equal; world.
    + injection H as <- <-. left. split; [world | eauto].
Qed.

Lemma MentionModel_cases run brand_ m c ctx urls w r w' :
  MentionModel_createOrUpdate run brand_ m c ctx urls w = (r, w') ->
  exists set,
    either_set set
    /\ upsert_case
         (insert_on_conflict_update set run brand_ m c ctx urls
            (now w) (tables w))
         r (tables w) (tables w').
Proof.
  intros H. unfold MentionModel_createOrUpdate in H.
  cbv [bind get] in H. step_in H.
  destruct (useSupabase (connection w)).
  - exists set_payload. split; [right; reflexivity|].
    apply Supabase_cases. assumption.
  - exists set_listed. split; [left; reflexivity|].
    cbv [bind try_catch throw ret] in H.
    destruct (query _ w) as [q wq] eqn:Hq.
    apply query_cases in Hq. step_in H.
    destruct Hq as [[Ht [e ->]]|Hst].
    + step_in H. injection H as <- <-.
      eapply NotRun; [reflexivity | world; assumption].
    + destruct q as [e|rows]; step_in H.
      * injection H as <- <-. eapply RanThrew; [|reflexivity].
        rewrite Hst; autorewrite with world; reflexivity.
      * destruct rows as [|row rows]; step_in H; injection H as <- <-.
        -- eapply RanRefused;
             [rewrite Hst; autorewrite with world; reflexivity
             | discriminate | reflexivity].
        -- eapply RanReturned; [|reflexivity].
           rewrite Hst; autorewrite with world; reflexivity.
Qed.

Lemma either_set_in_place set : either_set set -> updates_in_place set.
Proof.
  intros [-> | ->]; [apply set_listed_in_place | apply set_payload_in_place].
Qed.

Lemma either_set_identity set old excluded :
  either_set set -> identity_of (set old excluded) = identity_of old.
Proof. intros [-> | ->]; reflexivity. Qed.

(** A row that already holds the proposed values is left as it is. *)
Lemma either_set_same set old excluded :
  either_set set ->
  key_of old = key_of excluded ->
  mentioned old = mentioned excluded ->
  mention_count old = mention_count excluded ->
  context old = context excluded ->
  citation_urls old = citation_urls excluded ->
  set old excluded = old.
Proof.
  intros Hset Hk H1 H2 H3 H4. destruct old, excluded.
  unfold key_of in Hk. simpl in *. injection Hk as -> ->. subst.
  destruct Hset as [-> | ->]; reflexivity.
Qed.

Section StatementFrame.
Variable set : Mention -> Mention -> Mention.
Hypothesis set_ok : either_set set.
Variables (run brand_ : nat) (mentioned_ : bool) (count_ : nat).
Variables (context_ urls_ : list string) (time : nat).

Local Abbreviation statement :=
  (insert_on_conflict_update set run brand_ mentioned_ count_ context_ urls_ time).

Lemma statement_frame (t : Tables) :
  let t' := snd (statement t) in
  brands t' = brands t
  /\ prompt_runs t' = prompt_runs t
  /\ List.filter (fun r => negb (same_key run brand_ r)) (mentions t')
     = List.filter (fun r => negb (same_key run brand_ r)) (mentions t)
  /\ take (length (mentions t)) (map identity_of (mentions t'))
     = map identity_of (mentions t)
  /\ length (mentions t) <= length (mentions t') <= S (length (mentions t)).
Proof.
  unfold insert_on_conflict_update.
  set (proposed := {| mention_id := S (mentions_id_seq t);
                      prompt_run_id := run; brand_id := brand_;
                      mentioned := mentioned_; mention_count := count_;
                      context := context_; citation_urls := urls_;
                      created_at := time |}).
  assert (Hp : key_of proposed = (run, brand_)) by reflexivity.
  destruct (existsb (same_key run brand_) (mentions t)) eqn:Hex; cbn [snd].
  - cbn [with_mentions brands prompt_runs mentions].
    split; [reflexivity|]. split; [reflexivity|].
    assert (Hmap : map identity_of
                     (map (fun r => if same_key run brand_ r
                                    then set r proposed else r) (mentions t))
                   = map identity_of (mentions t)).
    { clear Hex. induction (mentions t) as [|r rows IH]; simpl; [reflexivity|].
      rewrite IH.
      destruct (same_key run brand_ r);
        [rewrite either_set_identity by exact set_ok|]; reflexivity. }
    split; [|split].
    + clear Hex Hmap. induction (mentions t) as [|r rows IH]; simpl; [reflexivity|].
      destruct (same_key run brand_ r) eqn:Hr; simpl.
      * assert (Hs : same_key run brand_ (set r proposed) = true).
        { apply same_key_spec. apply same_key_spec in Hr.
          destruct (either_set_in_place set set_ok r proposed) as [Hk _];
            congruence. }
        rewrite Hs. simpl. assumption.
      * rewrite Hr. simpl. f_equal. assumption.
    + rewrite Hmap. rewrite <- (length_map identity_of (mentions t)).
      apply firstn_all.
    + rewrite length_map. lia.
  - destruct (references_hold t proposed); cbn [snd with_mentions brands
      prompt_runs mentions].
    + split; [reflexivity|]. split; [reflexivity|]. split; [|split].
      * rewrite List.filter_app. simpl.
        replace (same_key run brand_ proposed) with true
          by (symmetry; apply same_key_spec, Hp).
        simpl. apply app_nil_r.
      * rewrite map_app. rewrite <- (length_map identity_of (mentions t)).
        rewrite take_app_length. reflexivity.
      * rewrite length_app. simpl. lia.
    + split; [reflexivity|]. split; [reflexivity|]. split; [reflexivity|].
      split; [|lia].
      rewrite <- (length_map identity_of (mentions t)). apply firstn_all.
Qed.

Lemma statement_throw_keeps (t t' : Tables) (e : exn) :
  statement t = (Throw e, t') -> mentions t' = mentions t.
Proof.
  unfold insert_on_conflict_update.
  destruct (existsb _ _); [discriminate|].
  destruct (references_hold _ _); [discriminate|].
  intros H. injection H as _ <-. reflexivity.
Qed.

End StatementFrame.

(** X7: an upsert for a run and a brand, whether it succeeds or fails and
    over either connection, leaves the brands and the prompt runs as they
    are, leaves every mention row of another (run, brand) pair unchanged and
    in place, never changes the id or the creation time of an existing row,
    and adds at most one row. *)
Theorem X7_upsert_leaves_other_rows_alone (run brand_ : nat) (m : bool)
    (c : nat) (ctx urls : list string) (w w' : World) (r : Result Mention) :
  MentionModel_createOrUpdate run brand_ m c ctx urls w = (r, w') ->
  brands (tables w') = brands (tables w)
  /\ prompt_runs (tables w') = prompt_runs (tables w)
  /\ List.filter (fun row => negb (same_key run brand_ row))
       (mentions (tables w'))
     = List.filter (fun row => negb (same_key run brand_ row))
         (mentions (tables w))
  /\ take (length (mentions (tables w)))
       (map identity_of (mentions (tables w')))
     = map identity_of (mentions (tables w))
  /\ length (mentions (tables w)) <= length (mentions (tables w'))
     <= S (length (mentions (tables w))).
Proof.
  intros H. apply MentionModel_cases in H. destruct H as (set & Hset & Hcase).
  pose proof (statement_frame set Hset run brand_ m c ctx urls (now w) (tables w))
    as Hframe. cbv zeta in Hframe.
  destruct Hcase as [e _ ->|e Hst _|row rows Hst _|e rows Hst _ _];
    try (rewrite Hst in Hframe; exact Hframe).
  split; [reflexivity|]. split; [reflexivity|]. split; [reflexivity|].
  split; [|lia].
  rewrite <- (length_map identity_of (mentions (tables w))). apply firstn_all.
Qed.

(** X8: the upsert is idempotent: on a table that respects the uniqueness
    constraint, a second successful call with the same arguments returns
    the row the first call returned and leaves the mention rows as the
    first call left them. *)
Theorem X8_upsert_is_idempotent (run brand_ : nat) (m : bool) (c : nat)
    (ctx urls : list string) (w w1 w2 : World) (r1 r2 : Mention) :
  unique_keys (mentions (tables w)) ->
  MentionModel_createOrUpdate run brand_ m c ctx urls w = (Ok r1, w1) ->
  MentionModel_createOrUpdate run brand_ m c ctx urls w1 = (Ok r2, w2) ->
  r2 = r1 /\ mentions (tables w2) = mentions (tables w1).
Proof.
  intros Hu H1 H2.
  assert (Hu1 : unique_keys (mentions (tables w1))).
  { eapply upsert_keeps_unique; [left; reflexivity | exact Hu | exact H1]. }
  apply MentionModel_cases in H1. destruct H1 as (set1 & Hset1 & Hcase1).
  apply MentionModel_cases in H2. destruct H2 as (set2 & Hset2 & Hcase2).
  destruct Hcase1 as [? Hr|? ? Hr|row1 rows1 Hst1 Hr1|? ? ? ? Hr];
    try discriminate.
  injection Hr1 as <-.
  destruct Hcase2 as [? Hr|? ? Hr|row2 rows2 Hst2 Hr2|? ? ? ? Hr];
    try discriminate.
  injection Hr2 as <-.
  destruct (statement_Ok set1 (either_set_in_place set1 Hset1)
              _ _ _ _ _ _ _ _ _ _ Hu Hst1)
    as (row & Hrows & Hfilter & Hm & Hc & Hctx & Hurls).
  injection Hrows as <- ->.
  assert (Hin : In r1 (List.filter (same_key run brand_) (mentions (tables w1))))
    by (rewrite Hfilter; left; reflexivity).
  apply filter_In in Hin. destruct Hin as [Hin Hkey].
  assert (Hex : existsb (same_key run brand_) (mentions (tables w1)) = true).
  { apply existsb_exists. exists r1. auto. }
  unfold insert_on_conflict_update in Hst2. rewrite Hex in Hst2.
  set (proposed := {| mention_id := S (mentions_id_seq (tables w1));
                      prompt_run_id := run; brand_id := brand_;
                      mentioned := m; mention_count := c;
                      context := ctx; citation_urls := urls;
                      created_at := now w1 |}) in *.
  assert (Hsame : forall row,
             In row (mentions (tables w1)) ->
             same_key run brand_ row = true -> set2 row proposed = row).
  { intros row Hrow Hk.
    assert (Hrow1 : In row (List.filter (same_key run brand_)
                              (mentions (tables w1))))
      by (apply filter_In; auto).
    rewrite Hfilter in Hrow1. destruct Hrow1 as [<-|[]].
    apply either_set_same; try assumption; try (symmetry; assumption).
    apply same_key_spec in Hk. rewrite Hk. reflexivity. }
  assert (Hmap : map (fun r => if same_key run brand_ r
                               then set2 r proposed else r)
                   (mentions (tables w1)) = mentions (tables w1)).
  { clear -Hsame. induction (mentions (tables w1)) as [|x xs IH];
      simpl; [reflexivity|].
    rewrite IH by (intros; apply Hsame; [right|]; assumption).
    destruct (same_key run brand_ x) eqn:Hx; [|reflexivity].
    rewrite Hsame; [reflexivity | left; reflexivity | assumption]. }
  rewrite Hmap in Hst2. rewrite Hfilter in Hst2.
  injection Hst2 as <- _ Ht. split; [reflexivity|].
  rewrite <- Ht. reflexivity.
Qed.

(** X9: an upsert that throws has written nothing: on a table that
    respects the uniqueness constraint, whatever made the call fail (the
    connection, a missing run or brand), the mentions, the brands and the
    prompt runs are as they were. *)
Theorem X9_failed_upsert_writes_nothing (run brand_ : nat) (m : bool)
    (c : nat) (ctx urls : list string) (w w' : World) (e : exn) :
  unique_keys (mentions (tables w)) ->
  MentionModel_createOrUpdate run brand_ m c ctx urls w = (Throw e, w') ->
  mentions (tables w') = mentions (tables w)
  /\ brands (tables w') = brands (tables w)
  /\ prompt_runs (tables w') = prompt_runs (tables w).
Proof.
  intros Hu H.
  apply MentionModel_cases in H. destruct H as (set & Hset & Hcase).
  pose proof (statement_frame set Hset run brand_ m c ctx urls (now w) (tables w))
    as Hframe. cbv zeta in Hframe.
  destruct Hcase as [e0 _ ->|e0 Hst _|row rows Hst Hr|e0 rows Hst Hrows _].
  - repeat split.
  - rewrite Hst in Hframe. cbn [snd] in Hframe.
    destruct Hframe as (Hb & Hp & _).
    split; [|split; assumption].
    eapply statement_throw_keeps. exact Hst.
  - discriminate.
  - destruct (statement_Ok set (either_set_in_place set Hset)
                _ _ _ _ _ _ _ _ _ _ Hu Hst) as (row & -> & _).
    exfalso. apply (Hrows row). reflexivity.
Qed.

End UpsertFrame.

(** ** The further properties, on the scenarios *)

Section CheckedFurther.
Import Scenario Cases.

Lemma X1_witness :
  exists message,
    POST host_RegExp backend (new_AIService env) create_fails getOrCreate_fails
      no_brands_request (world postgres)
    = (Ok (Failure 400 message), world postgres)
    /\ (truthy (body_category no_brands_request) = false ->
        message = "Category is required and must be a string")
    /\ (truthy (body_category no_brands_request) = true ->
        (forall b bs, body_brands no_brands_request <> Some (b :: bs)) ->
        message = "Brands array is required and must not be empty")
    /\ (truthy (body_category no_brands_request) = true ->
        (exists b bs, body_brands no_brands_request = Some (b :: bs)) ->
        message = "Main brand is required when competitor mode is enabled").
Proof.
  apply (X1_invalid_request_is_answered_400 host_RegExp backend
           (new_AIService env) create_fails getOrCreate_fails
           no_brands_request (world postgres)).
  reflexivity.
Defined.

Lemma X2_witness :
  exists category_ brands_,
    body_category unknown_provider_request = Some category_
    /\ body_brands unknown_provider_request = Some brands_
    /\ match checkVisibility host_RegExp backend (new_AIService env)
               create_fails getOrCreate_fails category_ brands_
               (select_provider (body_provider unknown_provider_request))
               (body_isCompetitorMode unknown_provider_request)
               (body_mainBrand unknown_provider_request)
               (logged info "Processing visibility check request"
                  (world postgres)) with
       | (inr result, w') =>
           POST host_RegExp backend (new_AIService env) create_fails
             getOrCreate_fails unknown_provider_request (world postgres)
           = (Ok (Success result), w')
       | (inl thrown, w') =>
           POST host_RegExp backend (new_AIService env) create_fails
             getOrCreate_fails unknown_provider_request (world postgres)
           = (Ok (Failure 500 (exn_message thrown)),
              logged error "Error checking visibility" w')
       end.
Proof.
  apply (X2_route_answers_every_request host_RegExp backend
           (new_AIService env) create_fails getOrCreate_fails
           unknown_provider_request (world postgres)).
  reflexivity.
Defined.

Lemma X4_witness :
  let prompt_ := generateVisibilityPrompt "CRM software" two_brands in
  let outcome :=
    queryAI backend (new_AIService env) openai "CRM software" two_brands
      (world postgres) in
  net_log (snd outcome)
  = (net_log (world postgres) ++ [(backend_of openai_instance, prompt_)])%list
  /\ tables (snd outcome) = tables (world postgres)
  /\ db_faults (snd outcome) = db_faults (world postgres)
  /\ fst outcome
     = match backend (backend_of openai_instance) prompt_ with
       | inr completion =>
           Ok {| text := completion; citations := extractCitations completion |}
       | inl message =>
           Throw (JsError (provider_label (backend_of openai_instance)
                           ++ " API error: " ++ message))
       end.
Proof.
  apply (X4_one_client_call_per_query backend (new_AIService env) openai
           openai_instance "CRM software" two_brands (world postgres)).
  reflexivity.
Defined.

Lemma X11_witness :
  Forall2 (fun b m => extractBrandMentions host_RegExp reply [b] = Ok [m])
    two_brands [salesforce_mention; hubspot_mention]
  /\ (reply = "" ->
      Forall (fun m =>
                context m = []
                /\ (Regex.parse ("\b" ++ JsString.toLowerCase (brand m) ++ "\b")
                    <> Regex.OutsideFragment ->
                    count m = 0))
        [salesforce_mention; hubspot_mention]).
Proof.
  apply (X11_each_brand_analysed_alone host_RegExp reply two_brands
           [salesforce_mention; hubspot_mention]).
  vm_compute. reflexivity.
Defined.

Lemma X12_witness :
  Forall (fun m =>
            Forall (fun s =>
                      JsString.includes reply s = true
                      /\ s <> ""
                      /\ any_char ends_sentence s = false
                      /\ no_space_around s)
              (context m))
    [salesforce_mention; hubspot_mention].
Proof.
  apply (X12_context_quotes_the_response host_RegExp reply two_brands
           [salesforce_mention; hubspot_mention]).
  vm_compute. reflexivity.
Defined.

Section UpsertCalls.
Import Db MentionStore.

Local Abbreviation stored :=
  (MentionModel_createOrUpdate 1 1 true 2 salesforce_context
     ["https://salesforce.com"]).

Lemma X7_witness :
  let w := world postgres in
  let w' := snd (stored w) in
  brands (tables w') = brands (tables w)
  /\ prompt_runs (tables w') = prompt_runs (tables w)
  /\ List.filter (fun row => negb (same_key 1 1 row)) (mentions (tables w'))
     = List.filter (fun row => negb (same_key 1 1 row)) (mentions (tables w))
  /\ take (length (mentions (tables w)))
       (map identity_of (mentions (tables w')))
     = map identity_of (mentions (tables w))
  /\ length (mentions (tables w)) <= length (mentions (tables w'))
     <= S (length (mentions (tables w))).
Proof.
  apply (X7_upsert_leaves_other_rows_alone 1 1 true 2 salesforce_context
           ["https://salesforce.com"] (world postgres)
           (snd (stored (world postgres))) (fst (stored (world postgres)))).
  vm_compute. reflexivity.
Defined.

Lemma X8_witness :
  let w1 := snd (stored (world postgres)) in
  let w2 := snd (stored w1) in
  second_row = second_row /\ mentions (tables w2) = mentions (tables w1).
Proof.
  apply (X8_upsert_is_idempotent 1 1 true 2 salesforce_context
           ["https://salesforce.com"] (world postgres)
           (snd (stored (world postgres)))
           (snd (stored (snd (stored (world postgres)))))
           second_row second_row).
  - constructor.
  - vm_compute. reflexivity.
  - vm_compute. reflexivity.
Defined.

(** Run 7 does not exist: the statement violates the foreign key. *)
Lemma X9_witness :
  let w := world postgres in
  let w' := snd (MentionModel_createOrUpdate 7 1 true 2 [] [] w) in
  mentions (tables w') = mentions (tables w)
  /\ brands (tables w') = brands (tables w)
  /\ prompt_runs (tables w') = prompt_runs (tables w).
Proof.
  apply (X9_failed_upsert_writes_nothing 7 1 true 2 [] [] (world postgres)
           (snd (MentionModel_createOrUpdate 7 1 true 2 [] [] (world postgres)))
           (DriverError "violates foreign key constraint")).
  - constructor.
  - vm_compute. reflexivity.
Defined.

End UpsertCalls.

End CheckedFurther.

(** ** The connection module *)

Lemma connection_set_connection c w : connection (set_connection c w) = c.
Proof. reflexivity. Qed.

Lemma tables_set_connection c w : tables (set_connection c w) = tables w.
Proof. reflexivity. Qed.

Lemma db_faults_set_connection c w : db_faults (set_connection c w) = db_faults w.
Proof. reflexivity. Qed.

Lemma net_log_set_connection c w : net_log (set_connection c w) = net_log w.
Proof. reflexivity. Qed.

Lemma db_faults_set_database t faults w :
  db_faults (set_database t faults w) = faults.
Proof. reflexivity. Qed.

Lemma connection_set_net_log l w : connection (set_net_log l w) = connection w.
Proof. reflexivity. Qed.

Lemma now_set_net_log l w : now (set_net_log l w) = now w.
Proof. reflexivity. Qed.

#[global] Hint Rewrite connection_set_connection tables_set_connection
  db_faults_set_connection net_log_set_connection db_faults_set_database
  connection_set_net_log now_set_net_log : world.

Section ConnectionFacts.
Variable createClient : string -> string -> Result unit.

(** X14: when [initializeConnection] returns, the module is connected one
    way and one way only.  The hosted API is selected exactly when a
    Supabase URL and a Supabase key are both set to non-empty strings (a
    database URL that mentions "supabase" does not select it by itself);
    then the client is there and the pool is not, and otherwise the pool is
    there and the client is not.  So the object that the models look for is
    never missing.  Initialisation touches neither the tables nor the
    network. *)
Theorem X14_connection_after_initialisation (env : DbEnv) (w w' : World) :
  initializeConnection createClient env w = (Ok tt, w') ->
  let supabaseUrl := or_else (SUPABASE_URL env) (NEXT_PUBLIC_SUPABASE_URL env) in
  let supabaseKey :=
    or_else (SUPABASE_SERVICE_ROLE_KEY env) (SUPABASE_ANON_KEY env) in
  let conn := connection w' in
  Db.useSupabase conn = truthy supabaseUrl && truthy supabaseKey
  /\ Db.supabaseClient conn = Db.useSupabase conn
  /\ Db.pool conn = negb (Db.useSupabase conn)
  /\ (if Db.useSupabase conn then Db.supabaseClient conn else Db.pool conn) = true
  /\ tables w' = tables w
  /\ db_faults w' = db_faults w
  /\ net_log w' = net_log w.
Proof.
  intros H. cbv zeta. unfold initializeConnection in H. cbv zeta in H.
  set (url_ := or_else (SUPABASE_URL env) (NEXT_PUBLIC_SUPABASE_URL env)) in *.
  set (key_ := or_else (SUPABASE_SERVICE_ROLE_KEY env) (SUPABASE_ANON_KEY env)) in *.
  clearbody url_ key_.
  cbv [bind assign liftR] in H. step_in H.
  assert (Hdirect : forall w0,
            logged info "PostgreSQL connection pool initialized"
              (set_connection (module_state env false false true) w0) = w' ->
            truthy url_ && truthy key_ = false ->
            tables w0 = tables w -> db_faults w0 = db_faults w ->
            net_log w0 = net_log w ->
            Db.useSupabase (connection w') = truthy url_ && truthy key_
            /\ Db.supabaseClient (connection w') = Db.useSupabase (connection w')
            /\ Db.pool (connection w') = negb (Db.useSupabase (connection w'))
            /\ (if Db.useSupabase (connection w')
                then Db.supabaseClient (connection w')
                else Db.pool (connection w')) = true
            /\ tables w' = tables w
            /\ db_faults w' = db_faults w
            /\ net_log w' = net_log w).
  { intros w0 <- -> Ht Hf Hn. autorewrite with world.
    cbn [module_state Db.useSupabase Db.supabaseClient Db.pool negb].
    repeat split; assumption. }
  destruct (truthy url_) eqn:Hurl; cbn [orb] in H.
  - destruct url_ as [url|]; [|discriminate].
    destruct key_ as [key|].
    + cbn [negb orb] in H.
      destruct (truthy (Some key)) eqn:Hkey; cbn [negb] in H; step_in H.
      * destruct (createClient url key) as [e|[]]; [discriminate|]. step_in H.
        injection H as <-. autorewrite with world.
        cbn [module_state Db.useSupabase Db.supabaseClient Db.pool negb].
        repeat split.
      * injection H as H. eapply Hdirect; [exact H | reflexivity | | |]; world.
    + step_in H. injection H as H.
      eapply Hdirect; [exact H | reflexivity | | |]; world.
  - set (mentioned_ := match or_else (DATABASE_URL env) (SUPABASE_DATABASE_URL env) with
                        | Some url => _
                        | None => false
                        end) in H.
    destruct mentioned_.
    + destruct url_ as [url|].
      * destruct key_ as [key|].
        -- cbn [negb orb] in H. step_in H.
           injection H as H. eapply Hdirect; [exact H | reflexivity | | |]; world.
        -- step_in H. injection H as H.
           eapply Hdirect; [exact H | reflexivity | | |]; world.
      * step_in H. injection H as H.
        eapply Hdirect; [exact H | reflexivity | | |]; world.
    + step_in H. injection H as H.
      eapply Hdirect; [exact H | reflexivity | | |]; world.
Qed.

End ConnectionFacts.

(** ** The health route *)

Section HealthFacts.
Variable supabase_probe : M (option string).

Lemma testConnection_returns (w : World) :
  exists dbConnected w1,
    testConnection supabase_probe w = (Ok dbConnected, w1)
    /\ (Db.useSupabase (connection w) && Db.supabaseClient (connection w) = false ->
        tables w1 = tables w
        /\ now w1 = now w
        /\ dbConnected
           = Db.pool (connection w) && negb (hd false (db_faults w))).
Proof.
  unfold testConnection. cbv [bind get try_catch ret]. step.
  destruct (Db.useSupabase (connection w) && Db.supabaseClient (connection w)).
  - destruct (supabase_probe w) as [[e|[message|]] w1]; step.
    + eexists _, _. split; [reflexivity | discriminate].
    + destruct (negb (JsString.includes message "relation")
                && negb (JsString.includes message "does not exist")); step;
        eexists _, _; (split; [reflexivity | discriminate]).
    + eexists _, _. split; [reflexivity | discriminate].
  - destruct (Db.pool (connection w)); step.
    + unfold MentionStore.round_trip.
      destruct (db_faults w) as [|[] faults]; step; eexists _, _;
        (split; [reflexivity | intros _; repeat split; world]).
    + eexists _, _. split; [reflexivity | intros _; repeat split; world].
Qed.

(** X15: the health route always answers "healthy" with status 200,
    whatever the state of the database and whatever the probe of the hosted
    API does: [testConnection] never throws, so the route's answer for a
    failed check is never given, and a database that cannot be reached
    only shows as "disconnected".  Over the pool the check leaves the
    tables as they are, and reports "connected" exactly when the pool is
    there and the round trip does not fail. *)
Theorem X15_health_is_always_healthy (w : World) :
  exists dbConnected w1,
    testConnection supabase_probe w = (Ok dbConnected, w1)
    /\ health_GET supabase_probe w
       = (Ok (Healthy (if dbConnected then "connected" else "disconnected")
                (now w1)), w1)
    /\ (Db.useSupabase (connection w) && Db.supabaseClient (connection w) = false ->
        tables w1 = tables w
        /\ now w1 = now w
        /\ dbConnected
           = Db.pool (connection w) && negb (hd false (db_faults w))).
Proof.
  destruct (testConnection_returns w) as (dbConnected & w1 & Ht & Hpg).
  exists dbConnected, w1. split; [exact Ht|]. split; [|exact Hpg].
  unfold health_GET. cbv [bind get try_catch ret]. rewrite Ht. reflexivity.
Qed.

End HealthFacts.

(** ** The history route and its parameters *)

Section PromptsRouteFacts.
Import History.
Variable getPromptsWithMentions_ :
  Z -> Z -> option string -> M (list PromptWithMentions).

(** X16: the history route calls the service only with a limit between 1
    and 100 and an offset that is not negative, the defaults 50 and 0
    standing for a parameter that is absent or empty, and with a brand
    filter that is never the empty string.  A limit or an offset that is
    refused is answered with status 400 before anything is logged or read;
    an exception of the service becomes a response with status 500 that
    carries its message. *)
Theorem X16_history_route_validates_its_parameters (params : SearchParams)
    (w : World) :
  match accepted_limit params, accepted_offset params with
  | Some limit, Some offset =>
      (1 <= limit <= 100)%Z
      /\ (0 <= offset)%Z
      /\ (truthy (limitParam params) = false -> limit = 50%Z)
      /\ (truthy (offsetParam params) = false -> offset = 0%Z)
      /\ exists brandFilter,
           (brandFilter = None \/
            brandFilter = brandParam params /\ truthy (brandParam params) = true)
           /\ match getPromptsWithMentions_ limit offset brandFilter
                      (logged debug "Fetching historical prompts" w) with
              | (inr prompts, w') =>
                  prompts_GET getPromptsWithMentions_ params w
                  = (Ok (Data prompts), w')
              | (inl thrown, w') =>
                  prompts_GET getPromptsWithMentions_ params w
                  = (Ok (Problem 500 (exn_message thrown)),
                     logged error "Error fetching prompts" w')
              end
  | None, _ =>
      truthy (limitParam params) = true
      /\ prompts_GET getPromptsWithMentions_ params w
         = (Ok (Problem 400 "Limit must be a number between 1 and 100"), w)
  | Some _, None =>
      truthy (offsetParam params) = true
      /\ prompts_GET getPromptsWithMentions_ params w
         = (Ok (Problem 400 "Offset must be a non-negative number"), w)
  end.
Proof.
  unfold prompts_GET. cbv [bind try_catch ret].
  destruct (accepted_limit params) as [limit|] eqn:Hl.
  - destruct (accepted_offset params) as [offset|] eqn:Ho.
    + assert (Hlimit : (1 <= limit <= 100)%Z
                       /\ (truthy (limitParam params) = false -> limit = 50%Z)).
      { unfold accepted_limit in Hl.
        destruct (limitParam params) as [s|]; [|injection Hl as <-; split; [lia|auto]].
        destruct (truthy (Some s)); [|injection Hl as <-; split; [lia|auto]].
        destruct (parseInt s) as [n|]; [|discriminate].
        destruct ((0 <? n)%Z && (n <=? 100)%Z) eqn:Hn; [|discriminate].
        injection Hl as <-. apply andb_true_iff in Hn as [H0 H1].
        apply Z.ltb_lt in H0. apply Z.leb_le in H1. split; [lia | discriminate]. }
      assert (Hoffset : (0 <= offset)%Z
                        /\ (truthy (offsetParam params) = false -> offset = 0%Z)).
      { unfold accepted_offset in Ho.
        destruct (offsetParam params) as [s|]; [|injection Ho as <-; split; [lia|auto]].
        destruct (truthy (Some s)); [|injection Ho as <-; split; [lia|auto]].
        destruct (parseInt s) as [n|]; [|discriminate].
        destruct (0 <=? n)%Z eqn:Hn; [|discriminate].
        injection Ho as <-. apply Z.leb_le in Hn. split; [lia | discriminate]. }
      destruct Hlimit as [Hl1 Hl2], Hoffset as [Ho1 Ho2].
      split; [exact Hl1|]. split; [exact Ho1|]. split; [exact Hl2|].
      split; [exact Ho2|].
      exists (if truthy (brandParam params) then brandParam params else None).
      split.
      * destruct (truthy (brandParam params)); [right; auto | left; reflexivity].
      * step.
        destruct (getPromptsWithMentions_ _ _ _ _) as [[thrown|prompts] w'];
          step; reflexivity.
    + split; [|reflexivity].
      unfold accepted_offset in Ho.
      destruct (offsetParam params) as [s|]; [|discriminate].
      destruct (truthy (Some s)); [reflexivity | discriminate].
  - split; [|reflexivity].
    unfold accepted_limit in Hl.
    destruct (limitParam params) as [s|]; [|discriminate].
    destruct (truthy (Some s)); [reflexivity | discriminate].
Qed.

End PromptsRouteFacts.

Section ParseIntFacts.
Import History.

Lemma digits_of_uint (rest : string) (d : Decimal.uint) :
  (forall acc, digits acc rest = acc) ->
  forall a,
    digits (Some (Z.of_nat a)) (NilEmpty.string_of_uint d ++ rest)
    = Some (Z.of_nat (Nat.of_uint_acc d a)).
Proof.
  intros Hrest. induction d as [|d IH|d IH|d IH|d IH|d IH|d IH|d IH|d IH|d IH|d IH];
    intros a; cbn [NilEmpty.string_of_uint Nat.of_uint_acc];
    [apply Hrest| | | | | | | | | |];
    change (String ?c ?s ++ rest) with (String c (s ++ rest));
    cbn [digits]; change (JsString.is_digit _) with true; cbv iota;
    rewrite <- IH; f_equal; f_equal; rewrite Nat.tail_mul_spec;
    match goal with
    | |- context [JsString.code ?c - 48] =>
        let v := eval vm_compute in (JsString.code c - 48) in
        change (JsString.code c - 48) with v
    end; lia.
Qed.

Lemma decimal_starts_with_digit (n : nat) :
  exists c s, decimal n = String c s /\ JsString.is_digit c = true
              /\ JsString.is_space c = false
              /\ c <> "-"%char /\ c <> "+"%char.
Proof.
  unfold decimal. destruct (Nat.to_uint n) eqn:E;
    try (eexists _, _; split; [reflexivity|];
         repeat split; try reflexivity; discriminate).
  exfalso. pose proof (Unsigned.of_to n) as H. rewrite E in H.
  cbn in H. subst n. discriminate.
Qed.

Lemma digits_decimal (n : nat) (rest : string) :
  (forall acc, digits acc rest = acc) ->
  digits None (decimal n ++ rest) = Some (Z.of_nat n).
Proof.
  intros Hrest. rewrite <- (Unsigned.of_to n) at 2. unfold decimal, Nat.of_uint.
  destruct (Nat.to_uint n) eqn:E.
  { exfalso. pose proof (Unsigned.of_to n) as H. rewrite E in H.
    cbn in H. subst n. discriminate. }
  all: cbn [NilEmpty.string_of_uint Nat.of_uint_acc];
    change (String ?c ?s ++ rest) with (String c (s ++ rest));
    cbn [digits]; change (JsString.is_digit _) with true; cbv iota;
    match goal with
    | |- context [JsString.code ?c - 48] =>
        let v := eval vm_compute in (JsString.code c - 48) in
        change (JsString.code c - 48) with v
    end;
    match goal with
    | |- digits (Some ?z) _ = Some (Z.of_nat (Nat.of_uint_acc _ ?a)) =>
        change z with (Z.of_nat a)
    end;
    apply digits_of_uint, Hrest.
Qed.

Lemma digits_stop (c : ascii) (rest : string) :
  JsString.is_digit c = false -> forall acc, digits acc (String c rest) = acc.
Proof. intros H acc. cbn [digits]. rewrite H. reflexivity. Qed.

Lemma parseInt_decimal_then (n : nat) (rest : string) :
  (forall acc, digits acc rest = acc) ->
  parseInt (decimal n ++ rest) = Some (Z.of_nat n)
  /\ parseInt ("-" ++ decimal n ++ rest) = Some (- Z.of_nat n)%Z
  /\ parseInt ("+" ++ decimal n ++ rest) = Some (Z.of_nat n).
Proof.
  intros Hrest. pose proof (digits_decimal n rest Hrest) as Hd.
  destruct (decimal_starts_with_digit n) as (c & s & E & Hdigit & Hspace & Hm & Hp).
  unfold parseInt. split; [|split].
  - rewrite E in *. change (String c s ++ rest) with (String c (s ++ rest)) in *.
    cbn [JsString.trimStart]. rewrite Hspace.
    destruct c as [[] [] [] [] [] [] [] []]; try exact Hd; congruence.
  - change ("-" ++ decimal n ++ rest) with (String "-" (decimal n ++ rest)).
    change (JsString.trimStart (String "-" (decimal n ++ rest)))
      with (String "-" (decimal n ++ rest)).
    cbv iota beta. rewrite Hd. reflexivity.
  - change ("+" ++ decimal n ++ rest) with (String "+" (decimal n ++ rest)).
    change (JsString.trimStart (String "+" (decimal n ++ rest)))
      with (String "+" (decimal n ++ rest)).
    cbv iota beta. exact Hd.
Qed.

Lemma parseInt_decimal (n : nat) : parseInt (decimal n) = Some (Z.of_nat n).
Proof.
  destruct (parseInt_decimal_then n "" (fun acc => eq_refl)) as (H & _).
  rewrite string_app_nil_r in H. exact H.
Qed.

(** X17: [parseInt] reads back the decimal form of a number: for every
    natural number [n] that the language holds exactly, parsing [String(n)]
    gives [n], also when characters that are not digits follow (as in
    "20abc"), and a leading "-" gives [-n].  Hence a limit parameter written
    as a decimal number is accepted exactly when the number lies between 1
    and 100, and an offset parameter written so is always accepted. *)
Theorem X17_parseInt_reads_decimal_numbers (n : nat) :
  (Z.of_nat n < 2 ^ 53)%Z ->
  parseInt (decimal n) = Some (Z.of_nat n)
  /\ parseInt ("-" ++ decimal n) = Some (- Z.of_nat n)%Z
  /\ (forall c rest,
        JsString.is_digit c = false ->
        parseInt (decimal n ++ String c rest) = Some (Z.of_nat n))
  /\ (forall params,
        limitParam params = Some (decimal n) ->
        accepted_limit params
        = if (1 <=? n) && (n <=? 100) then Some (Z.of_nat n) else None)
  /\ (forall params,
        offsetParam params = Some (decimal n) ->
        accepted_offset params = Some (Z.of_nat n)).
Proof.
  intros _.
  destruct (parseInt_decimal_then n "" (fun acc => eq_refl)) as (H1 & H2 & _).
  rewrite string_app_nil_r in H1, H2.
  assert (Htruthy : truthy (Some (decimal n)) = true).
  { destruct (decimal_starts_with_digit n) as (c & s & -> & _). reflexivity. }
  split; [exact H1|]. split; [exact H2|]. split; [|split].
  - intros c rest Hc.
    apply (parseInt_decimal_then n (String c rest) (digits_stop c rest Hc)).
  - intros params E. unfold accepted_limit. rewrite E, Htruthy, H1.
    destruct (1 <=? n) eqn:Ha; destruct (n <=? 100) eqn:Hb; cbn [andb];
      repeat match goal with
        | H : (_ <=? _) = true |- _ => apply Nat.leb_le in H
        | H : (_ <=? _) = false |- _ => apply Nat.leb_gt in H
        end.
    + replace (0 <? Z.of_nat n)%Z with true by (symmetry; apply Z.ltb_lt; lia).
      replace (Z.of_nat n <=? 100)%Z with true by (symmetry; apply Z.leb_le; lia).
      reflexivity.
    + replace (Z.of_nat n <=? 100)%Z with false by (symmetry; apply Z.leb_gt; lia).
      rewrite andb_false_r. reflexivity.
    + replace (0 <? Z.of_nat n)%Z with false by (symmetry; apply Z.ltb_ge; lia).
      reflexivity.
    + replace (0 <? Z.of_nat n)%Z with false by (symmetry; apply Z.ltb_ge; lia).
      reflexivity.
  - intros params E. unfold accepted_offset. rewrite E, Htruthy, H1.
    replace (0 <=? Z.of_nat n)%Z with true by (symmetry; apply Z.leb_le; lia).
    reflexivity.
Qed.

End ParseIntFacts.

(** ** The history service, whatever the models *)

Lemma promise_all_Forall {A} (P : A -> Prop) (calls : list (M A)) :
  Forall (fun call => forall w a w', call w = (Ok a, w') -> P a) calls ->
  forall w l w', promise_all calls w = (Ok l, w') -> Forall P l.
Proof.
  induction 1 as [|call calls Hcall _ IH]; intros w l w' H; cbn [promise_all] in H.
  - injection H as <- _. constructor.
  - unfold ret in H. destruct (call w) as [[e|a] w1] eqn:Hc; [discriminate|].
    destruct (promise_all calls w1) as [[e|l'] w2] eqn:Hrest; [discriminate|].
    injection H as <- _. constructor; [eapply Hcall, Hc | eapply IH, Hrest].
Qed.

(** Calls that keep an invariant of the world and return a function of
    their argument, taken together. *)
Lemma promise_all_map {A B} (I : World -> Prop) (f : A -> M B) (g : A -> B)
    (xs : list A) :
  (forall x w r w', I w -> f x w = (r, w') ->
                    I w' /\ forall b, r = Ok b -> b = g x) ->
  forall w r w',
    I w -> promise_all (map f xs) w = (r, w') ->
    I w' /\ forall l, r = Ok l -> l = map g xs.
Proof.
  intros Hf. induction xs as [|x xs IH]; intros w r w' Hw H;
    cbn [map promise_all] in H.
  - injection H as <- <-. split; [exact Hw|]. intros l [= <-]. reflexivity.
  - destruct (f x w) as [[e|b] w1] eqn:Hx;
      destruct (Hf _ _ _ _ Hw Hx) as [Hw1 Hb].
    + injection H as <- <-.
      destruct (promise_all (map f xs) w1) as [r2 w2] eqn:Hrest. cbn [snd].
      split; [eapply IH; eassumption | discriminate].
    + destruct (promise_all (map f xs) w1) as [[e|l] w2] eqn:Hrest;
        injection H as <- <-;
        destruct (IH _ _ _ Hw1 Hrest) as [Hw2 Hl].
      * split; [exact Hw2 | discriminate].
      * split; [exact Hw2|]. intros l' [= <-]. cbn [map].
        rewrite (Hb b eq_refl), (Hl l eq_refl). reflexivity.
Qed.

Section HistoryFacts.
Import History.
Variable PromptRunModel_getAll : Z -> Z -> M (list Db.PromptRun).
Variable BrandModel_getById : nat -> M (option Db.Brand).
Variable MentionModel_getByPromptRunId : nat -> M (list Db.Mention).

Local Abbreviation collect_ :=
  (collect BrandModel_getById MentionModel_getByPromptRunId).
Local Abbreviation history :=
  (getPromptsWithMentions PromptRunModel_getAll BrandModel_getById
     MentionModel_getByPromptRunId).

Lemma brand_status_named mention w status w' :
  brand_status BrandModel_getById mention w = (Ok status, w') ->
  brandName status <> ""
  /\ mentioned status = Db.mentioned mention
  /\ mentionCount status = Db.mention_count mention.
Proof.
  unfold brand_status. cbv [bind ret].
  destruct (BrandModel_getById _ w) as [[e|brand_] w1]; [discriminate|].
  intros [= <- _]. cbn [brandName mentioned mentionCount].
  split; [|split; reflexivity].
  destruct brand_ as [b|]; [|discriminate].
  destruct (String.eqb (Db.name b) "") eqn:E; [discriminate|].
  apply String.eqb_neq in E. exact E.
Qed.

Lemma collect_spec (brandFilter : option string) (promptRuns : list Db.PromptRun) :
  forall acc w entries w',
    collect_ brandFilter promptRuns acc w = (Ok entries, w') ->
    exists kept added,
      entries = (acc ++ added)%list
      /\ sublist kept promptRuns
      /\ Forall2 entry_of kept added
      /\ Forall (well_formed brandFilter) added
      /\ (truthy brandFilter = false -> kept = promptRuns).
Proof.
  induction promptRuns as [|run rest IH]; intros acc w entries w' H;
    cbn [collect] in H.
  - injection H as <- _. exists [], []. rewrite app_nil_r.
    repeat split; constructor.
  - cbv [bind] in H.
    destruct (MentionModel_getByPromptRunId _ w) as [[e|mentions_] w1];
      [discriminate|].
    destruct (promise_all _ w1) as [[e|statuses] w2] eqn:Hall; [discriminate|].
    assert (Hnamed : Forall (fun status => brandName status <> "") statuses).
    { eapply promise_all_Forall; [|exact Hall].
      apply List.Forall_forall. intros call Hin.
      apply List.in_map_iff in Hin as (mention & <- & _).
      intros w0 a w0' Hc. eapply brand_status_named, Hc. }
    match type of H with
    | (if ?b then _ else _) _ = _ => destruct b eqn:Hskip
    end.
    + destruct (IH _ _ _ _ H) as (kept & added & -> & Hsub & Hof & Hwf & Hall').
      exists kept, added. split; [reflexivity|]. split; [apply sublist_cons, Hsub|].
      split; [exact Hof|]. split; [exact Hwf|].
      intros Hf. exfalso. destruct brandFilter as [wanted|]; [|discriminate].
      rewrite Hf in Hskip. discriminate.
    + destruct (IH _ _ _ _ H) as (kept & added & -> & Hsub & Hof & Hwf & Hall').
      eexists (run :: kept), (_ :: added). rewrite <- app_assoc.
      split; [reflexivity|]. split; [apply sublist_skip, Hsub|].
      split; [constructor; [repeat split | exact Hof]|].
      split.
      * constructor; [|exact Hwf]. split; [exact Hnamed|].
        cbn [brands]. destruct brandFilter as [wanted|]; [|exact I].
        intros Ht. rewrite Ht in Hskip. cbn [andb] in Hskip.
        apply negb_false_iff in Hskip. exact Hskip.
      * intros Hf. f_equal. apply Hall', Hf.
Qed.

(** X18: whatever the models do, the history that is returned lists runs
    of the page that [PromptRunModel.getAll] returned, in the order of the
    page and each at most once, with the id, category, prompt, provider and
    time of its run; every brand in it has a name that is not empty;
    without a brand filter (or with an empty one) no run of the page is left
    out, and with a brand filter every entry has a brand of that name up to
    letter case. *)
Theorem X18_history_lists_runs_of_the_page (limit offset : Z)
    (brandFilter : option string) (w w' : World)
    (entries : list PromptWithMentions) :
  history limit offset brandFilter w = (Ok entries, w') ->
  exists promptRuns kept w1,
    PromptRunModel_getAll limit offset
      (logged debug "Fetching prompts with mentions" w) = (Ok promptRuns, w1)
    /\ sublist kept promptRuns
    /\ Forall2 entry_of kept entries
    /\ Forall (fun entry =>
                 Forall (fun status => brandName status <> "") (brands entry))
         entries
    /\ (truthy brandFilter = false -> kept = promptRuns)
    /\ (forall wanted,
          brandFilter = Some wanted -> wanted <> "" ->
          Forall (fun entry => hasBrand wanted (brands entry) = true) entries).
Proof.
  unfold getPromptsWithMentions. cbv [bind try_catch ret throw]. step.
  destruct (PromptRunModel_getAll limit offset _) as [[e|promptRuns] w1] eqn:Hall;
    step; [discriminate|].
  destruct (collect_ brandFilter promptRuns [] w1) as [[e|collected] w2] eqn:Hc;
    step; [discriminate|].
  intros [= <- _]. apply collect_spec in Hc.
  destruct Hc as (kept & added & -> & Hsub & Hof & Hwf & Hfalsy).
  exists promptRuns, kept, w1. cbn [app].
  split; [reflexivity|]. split; [exact Hsub|]. split; [exact Hof|].
  split; [|split; [exact Hfalsy|]].
  - eapply List.Forall_impl; [|exact Hwf]. intros entry [H _]. exact H.
  - intros wanted -> Hne. eapply List.Forall_impl; [|exact Hwf].
    intros entry [_ H]. apply H. cbn.
    destruct (String.eqb wanted "") eqn:E; [|reflexivity].
    apply String.eqb_eq in E. contradiction.
Qed.

End HistoryFacts.

(** ** Queries over the pool *)

Section QueryFacts.
Import Db MentionStore Models.

(** The connection and the clock are the same after a round trip. *)
Lemma round_trip_frame {A} (statement : nat -> Tables -> Result A * Tables) w :
  connection (snd (round_trip statement w)) = connection w
  /\ now (snd (round_trip statement w)) = now w
  /\ net_log (snd (round_trip statement w)) = net_log w.
Proof.
  unfold round_trip. destruct (db_faults w) as [|[] faults];
    try destruct (statement _ _); cbn [snd]; repeat split; world.
Qed.

Lemma query_frame {A} (statement : nat -> Tables -> Result A * Tables) w r w' :
  query statement w = (r, w') ->
  connection w' = connection w /\ now w' = now w /\ net_log w' = net_log w.
Proof.
  intros H. unfold query in H.
  cbv [bind get try_catch throw ret] in H. step_in H.
  pose proof (round_trip_frame statement w) as (Hc & Hn & Hl).
  pose proof (round_trip_frame statement
                (logged warn "Raw SQL queries with Supabase should use Supabase client methods. Falling back to direct connection." w))
    as (Hc' & Hn' & Hl').
  autorewrite with world in Hc', Hn', Hl'.
  destruct (useSupabase (connection w) && supabaseClient (connection w));
    step_in H.
  - destruct (databaseUrl (connection w)); step_in H.
    + destruct (round_trip statement _) as [[e|a] w1]; cbn [snd] in *; step_in H;
        injection H as <- <-; repeat split; world; assumption.
    + injection H as <- <-. repeat split; world.
  - destruct (pool (connection w)); step_in H.
    + destruct (round_trip statement _) as [[e|a] w1]; cbn [snd] in *; step_in H;
        injection H as <- <-; repeat split; world; assumption.
    + injection H as <- <-. repeat split; world.
Qed.

(** A query that reads: the tables stay, and what is returned is what the
    tables hold. *)
Lemma query_select {A} (rows : Tables -> A) w r w' :
  query (select rows) w = (r, w') ->
  tables w' = tables w /\ (forall a, r = Ok a -> a = rows (tables w)).
Proof.
  intros H. apply query_cases in H. destruct H as [[Ht [e ->]]|H].
  - split; [exact Ht | discriminate].
  - unfold select in H. injection H as <- <-. split; [reflexivity|].
    intros a [= <-]. reflexivity.
Qed.

(** A query runs its statement when the pool is there and the connection
    holds. *)
Lemma query_runs {A} (statement : nat -> Tables -> Result A * Tables) w :
  useSupabase (connection w) = false ->
  pool (connection w) = true ->
  hd false (db_faults w) = false ->
  exists w',
    query statement w = (fst (statement (now w) (tables w)), w')
    /\ tables w' = snd (statement (now w) (tables w))
    /\ db_faults w' = tl (db_faults w)
    /\ connection w' = connection w
    /\ now w' = now w.
Proof.
  intros Hs Hp Hf. unfold query. cbv [bind get try_catch throw ret]. step.
  rewrite Hs, Hp. cbn [andb]. step. unfold round_trip.
  destruct (db_faults w) as [|[] faults]; [| discriminate |];
    destruct (statement (now w) (tables w)) as [[e|a] t']; step; cbn [fst snd];
    eexists; (split; [reflexivity|]); repeat split; world.
Qed.

End QueryFacts.

(** ** [ORDER BY] *)

Lemma insert_by_Permutation {A} (le : A -> A -> bool) (x : A) (l : list A) :
  Permutation (insert_by le x l) (x :: l).
Proof.
  induction l as [|y l IH]; cbn [insert_by]; [reflexivity|].
  destruct (le x y); [reflexivity|].
  rewrite IH. apply perm_swap.
Qed.

Lemma order_by_Permutation {A} (le : A -> A -> bool) (l : list A) :
  Permutation (order_by le l) l.
Proof.
  induction l as [|x l IH]; [reflexivity|]. unfold order_by in *. cbn [fold_right].
  rewrite insert_by_Permutation. constructor. exact IH.
Qed.

Lemma order_by_length {A} (le : A -> A -> bool) (l : list A) :
  length (order_by le l) = length l.
Proof. apply Permutation_length, order_by_Permutation. Qed.

Lemma order_by_In {A} (le : A -> A -> bool) (l : list A) (x : A) :
  In x (order_by le l) <-> In x l.
Proof.
  split; apply Permutation_in;
    [apply order_by_Permutation | symmetry; apply order_by_Permutation].
Qed.

Lemma In_firstn {A} (n : nat) (l : list A) (x : A) : In x (firstn n l) -> In x l.
Proof.
  revert l. induction n as [|n IH]; intros l H; [destruct H|].
  destruct l as [|y l]; [destruct H|]. destruct H as [->|H]; [left; reflexivity|].
  right. apply IH, H.
Qed.

Lemma In_skipn {A} (n : nat) (l : list A) (x : A) : In x (skipn n l) -> In x l.
Proof.
  revert l. induction n as [|n IH]; intros l H; [exact H|].
  destruct l as [|y l]; [destruct H|]. right. apply IH, H.
Qed.

Section Descending.
Context {A : Type} (key : A -> nat).

Local Abbreviation desc := (fun a b : A => key b <=? key a).
Local Abbreviation above := (fun a b : A => key b <= key a).

Lemma insert_by_descending (x : A) (l : list A) :
  StronglySorted above l -> StronglySorted above (insert_by desc x l).
Proof.
  induction 1 as [|y l Hl IH Hy]; cbn [insert_by].
  - constructor; constructor.
  - destruct (key y <=? key x) eqn:E.
    + apply Nat.leb_le in E. constructor; [constructor; assumption|].
      constructor; [exact E|].
      eapply List.Forall_impl; [|exact Hy]. cbn. intros b Hb. lia.
    + apply Nat.leb_gt in E. constructor; [exact IH|].
      apply List.Forall_forall. intros b Hb.
      apply (Permutation_in _ (insert_by_Permutation desc x l)) in Hb.
      destruct Hb as [<-|Hb]; [lia|].
      rewrite List.Forall_forall in Hy. apply Hy, Hb.
Qed.

Lemma order_by_descending (l : list A) : StronglySorted above (order_by desc l).
Proof.
  induction l as [|x l IH]; [constructor|]. unfold order_by in *.
  cbn [fold_right]. apply insert_by_descending, IH.
Qed.

Lemma StronglySorted_skipn (R : A -> A -> Prop) (n : nat) (l : list A) :
  StronglySorted R l -> StronglySorted R (skipn n l).
Proof.
  revert l. induction n as [|n IH]; intros l H; [exact H|].
  destruct l as [|x l]; [constructor|]. cbn [skipn]. apply IH.
  inversion H; assumption.
Qed.

Lemma StronglySorted_firstn (R : A -> A -> Prop) (n : nat) (l : list A) :
  StronglySorted R l -> StronglySorted R (firstn n l).
Proof.
  revert l. induction n as [|n IH]; intros l H; [constructor|].
  destruct l as [|x l]; [constructor|]. cbn [firstn].
  inversion H as [|? ? Hl Hx]; subst. constructor; [apply IH, Hl|].
  apply List.Forall_forall. intros y Hy. rewrite List.Forall_forall in Hx.
  apply Hx. eapply In_firstn, Hy.
Qed.

End Descending.

Lemma StronglySorted_sublist {A} (R : A -> A -> Prop) (k l : list A) :
  sublist k l -> StronglySorted R l -> StronglySorted R k.
Proof.
  induction 1 as [|x k l Hsub IH|x k l Hsub IH]; intros Hl.
  - constructor.
  - inversion Hl as [|? ? Hl' Hx]; subst. constructor; [apply IH, Hl'|].
    apply List.Forall_forall. intros y Hy. rewrite List.Forall_forall in Hx.
    apply Hx. apply list_elem_of_In. eapply elem_of_sublist; [|exact Hsub].
    apply list_elem_of_In, Hy.
  - inversion Hl; subst. apply IH. assumption.
Qed.

Lemma StronglySorted_map {A B} (R : B -> B -> Prop) (f : A -> B) (l : list A) :
  StronglySorted (fun a b => R (f a) (f b)) l -> StronglySorted R (map f l).
Proof.
  induction 1 as [|x l Hl IH Hx]; cbn [map]; constructor; [exact IH|].
  apply List.Forall_forall. intros y Hy.
  apply List.in_map_iff in Hy as (a & <- & Ha).
  rewrite List.Forall_forall in Hx. apply Hx, Ha.
Qed.

(** ** The brand and prompt-run models over the pool *)

Section ModelFacts.
Import Db MentionStore MentionStoreFacts Models.
Variable brands_id_seq : Tables -> nat.
Variable prompt_runs_id_seq : Tables -> nat.
Variable collation_le : string -> string -> bool.
Variable supabase : SupabaseModels.

Local Abbreviation getOrCreate := (BrandModel_getOrCreate brands_id_seq supabase).
Local Abbreviation create := (PromptRunModel_create prompt_runs_id_seq supabase).
Local Abbreviation getCount := (PromptRunModel_getCount supabase).
Local Abbreviation getAll := (PromptRunModel_getAll supabase).
Local Abbreviation getById := (BrandModel_getById supabase).
Local Abbreviation getByPromptRunId := (MentionModel_getByPromptRunId supabase).
Local Abbreviation metrics :=
  (History.getMetrics getCount (BrandModel_getAll collation_le supabase)).
Local Abbreviation metrics_route :=
  (History.metrics_GET getCount (BrandModel_getAll collation_le supabase)).
Local Abbreviation history :=
  (History.getPromptsWithMentions getAll getById getByPromptRunId).
Local Abbreviation store run mentions_ := (store_brand getOrCreate run mentions_).

Lemma same_name_spec name_ b :
  same_name name_ b = true
  <-> JsString.toLowerCase (name b) = JsString.toLowerCase name_.
Proof. unfold same_name. apply String.eqb_eq. Qed.

Lemma insert_brand_cases name_ time t r t' :
  insert_brand brands_id_seq name_ time t = (r, t') ->
  (t' = t /\ exists e, r = Throw e)
  \/ (exists row,
        r = Ok [row] /\ name row = name_ /\ brand_created_at row = time
        /\ t' = with_brands (brands t ++ [row]) t
        /\ existsb (fun b => String.eqb (name b) name_) (brands t) = false
        /\ existsb (fun b => brand_row_id b =? brand_row_id row) (brands t) = false).
Proof.
  unfold insert_brand.
  destruct (255 <? String.length name_); [intros [= <- <-]; left; eauto|].
  destruct (existsb _ (brands t)) eqn:Hid; [intros [= <- <-]; left; eauto|].
  destruct (existsb (fun b => String.eqb (name b) name_) (brands t)) eqn:Hname;
    [intros [= <- <-]; left; eauto|].
  intros [= <- <-]. right. eexists. repeat split; try reflexivity; assumption.
Qed.

(** What a call of [BrandModel.getOrCreate] over the pool comes to: it
    fails and writes nothing, or it finds a row, or it finds none and
    appends one. *)
Lemma getOrCreate_cases name_ w r w' :
  useSupabase (connection w) = false ->
  getOrCreate name_ w = (r, w') ->
  connection w' = connection w
  /\ now w' = now w
  /\ ((tables w' = tables w /\ exists e, r = Throw e)
      \/ (tables w' = tables w
          /\ exists row others,
               List.filter (same_name name_) (brands (tables w)) = row :: others
               /\ r = Ok row)
      \/ (List.filter (same_name name_) (brands (tables w)) = []
          /\ exists row,
               r = Ok row /\ name row = name_
               /\ tables w' = with_brands (brands (tables w) ++ [row]) (tables w)
               /\ existsb (fun b => brand_row_id b =? brand_row_id row)
                    (brands (tables w)) = false)).
Proof.
  intros Hs H. unfold BrandModel_getOrCreate in H.
  cbv [bind get] in H. step_in H. rewrite Hs in H.
  cbv [bind try_catch throw ret] in H.
  destruct (query (select_brands_named name_) w) as [q1 w1] eqn:Hq1.
  pose proof (query_frame _ _ _ _ Hq1) as (Hc1 & Hn1 & _).
  apply query_select in Hq1. destruct Hq1 as [Ht1 Hrows].
  destruct q1 as [e|existing]; step_in H.
  { injection H as <- <-. split; [world; exact Hc1|]. split; [world; exact Hn1|].
    left. split; [world; exact Ht1 | eauto]. }
  specialize (Hrows existing eq_refl). subst existing.
  destruct (List.filter (same_name name_) (brands (tables w)))
    as [|row others] eqn:Hfilter.
  - destruct (query (insert_brand brands_id_seq name_) w1) as [q2 w2] eqn:Hq2.
    pose proof (query_frame _ _ _ _ Hq2) as (Hc2 & Hn2 & _).
    apply query_cases in Hq2. rewrite Ht1, Hn1 in Hq2.
    destruct q2 as [e|result]; step_in H.
    + injection H as <- <-. split; [world; congruence|]. split; [world; congruence|].
      left. split; [|eauto]. world.
      destruct Hq2 as [[Ht2 _]|Hq2]; [congruence|].
      apply insert_brand_cases in Hq2.
      destruct Hq2 as [[-> _]|(row & Hr & _)]; [reflexivity | discriminate].
    + destruct Hq2 as [[_ [e He]]|Hq2]; [discriminate|].
      apply insert_brand_cases in Hq2.
      destruct Hq2 as [[_ [e He]]|(row & Hr & Hname & _ & Ht2 & _ & Hfresh)];
        [discriminate|].
      injection Hr as ->. unfold first_row in H. cbv [ret] in H. step_in H.
      injection H as <- <-. split; [world; congruence|]. split; [world; congruence|].
      right. right. split; [reflexivity|]. exists row.
      split; [reflexivity|]. split; [exact Hname|].
      split; [world; exact Ht2 | exact Hfresh].
  - injection H as <- <-. split; [exact Hc1|]. split; [exact Hn1|].
    right. left. split; [exact Ht1|]. eauto.
Qed.

Lemma filter_same_name_unique name_ rows row :
  distinct_names rows ->
  In row rows ->
  same_name name_ row = true ->
  List.filter (same_name name_) rows = [row].
Proof.
  unfold distinct_names. induction rows as [|b rows IH]; intros Hnd Hin Hrow;
    [destruct Hin|].
  cbn [map] in Hnd. apply NoDup_cons in Hnd as [Hb Hnd].
  cbn [List.filter]. destruct Hin as [->|Hin].
  - rewrite Hrow. f_equal.
    clear IH. induction rows as [|b rows IH]; [reflexivity|].
    cbn [List.filter]. destruct (same_name name_ b) eqn:E.
    + exfalso. apply Hb. apply list_elem_of_In. left.
      apply same_name_spec in E, Hrow. congruence.
    + apply IH.
      * intros Hin. apply Hb. apply list_elem_of_In in Hin.
        apply list_elem_of_In. right. exact Hin.
      * cbn [map] in Hnd. apply NoDup_cons in Hnd as [_ Hnd]. exact Hnd.
  - destruct (same_name name_ b) eqn:E.
    + exfalso. apply Hb. apply list_elem_of_In.
      apply List.in_map_iff. exists row. split; [|exact Hin].
      apply same_name_spec in E, Hrow. congruence.
    + apply IH; assumption.
Qed.

(** The row that [BrandModel.getOrCreate] returns, on any table. *)
Lemma getOrCreate_row name_ w w' row :
  useSupabase (connection w) = false ->
  getOrCreate name_ w = (Ok row, w') ->
  JsString.toLowerCase (name row) = JsString.toLowerCase name_
  /\ In row (brands (tables w'))
  /\ (brands (tables w') = brands (tables w)
      \/ brands (tables w') = (brands (tables w) ++ [row])%list
         /\ name row = name_
         /\ Forall (fun b => same_name name_ b = false) (brands (tables w))
         /\ Forall (fun b => brand_row_id b <> brand_row_id row)
              (brands (tables w)))
  /\ prompt_runs (tables w') = prompt_runs (tables w)
  /\ mentions (tables w') = mentions (tables w)
  /\ mentions_id_seq (tables w') = mentions_id_seq (tables w)
  /\ connection w' = connection w.
Proof.
  intros Hs H.
  destruct (getOrCreate_cases _ _ _ _ Hs H) as (Hc & Hn & Hcase).
  destruct Hcase as [[_ [e He]]|[(Ht & found & others & Hf & Hr)
                                |(Hf & created & Hr & Hname & Ht & Hfresh)]];
    [discriminate| |].
  - injection Hr as <-.
    assert (Hin : In row (List.filter (same_name name_) (brands (tables w))))
      by (rewrite Hf; left; reflexivity).
    apply List.filter_In in Hin as [Hin Hsame]. rewrite Ht.
    split; [apply same_name_spec, Hsame|]. split; [exact Hin|].
    split; [left; reflexivity|]. repeat split; assumption.
  - injection Hr as <-. rewrite Ht.
    cbn [with_brands brands prompt_runs mentions mentions_id_seq].
    assert (Hnone : Forall (fun b => same_name name_ b = false)
                      (brands (tables w))).
    { apply List.Forall_forall. intros b Hin.
      destruct (same_name name_ b) eqn:E; [|reflexivity].
      assert (Hb : In b (List.filter (same_name name_) (brands (tables w))))
        by (apply List.filter_In; auto).
      rewrite Hf in Hb. destruct Hb. }
    assert (Hids : Forall (fun b => brand_row_id b <> brand_row_id row)
                     (brands (tables w))).
    { apply List.Forall_forall. intros b Hin Heq.
      assert (Hex : existsb (fun b => brand_row_id b =? brand_row_id row)
                      (brands (tables w)) = true).
      { apply existsb_exists. exists b. split; [exact Hin|].
        apply Nat.eqb_eq, Heq. }
      congruence. }
    split; [rewrite Hname; reflexivity|].
    split; [apply in_or_app; right; left; reflexivity|].
    split; [right; auto|]. split; [reflexivity|]. split; [reflexivity|].
    split; [reflexivity | exact Hc].
Qed.

(** Names that differ up to letter case still do so afterwards. *)
Lemma getOrCreate_keeps_names name_ w w' row :
  useSupabase (connection w) = false ->
  distinct_names (brands (tables w)) ->
  getOrCreate name_ w = (Ok row, w') ->
  distinct_names (brands (tables w')).
Proof.
  intros Hs Hnd H.
  destruct (getOrCreate_row _ _ _ _ Hs H) as (_ & _ & Hgrow & _).
  destruct Hgrow as [->|(-> & Hname & Hnone & _)]; [exact Hnd|].
  unfold distinct_names. rewrite map_app. apply NoDup_app.
  split; [exact Hnd|]. split; [|apply NoDup_singleton].
  intros x Hx Hx'. apply list_elem_of_In in Hx, Hx'. destruct Hx' as [<-|[]].
  apply List.in_map_iff in Hx as (b & Hb & Hin).
  rewrite List.Forall_forall in Hnone. specialize (Hnone b Hin).
  assert (Hyes : same_name name_ b = true)
    by (apply same_name_spec; rewrite Hname in Hb; exact Hb).
  congruence.
Qed.

(** X19: over the pool, and on a table whose brand names differ up to
    letter case, [BrandModel.getOrCreate] returns a row of the table whose
    name is the requested one up to letter case; it either leaves the
    brands as they are or appends that one row, under the name as given,
    when no row had that name up to letter case; it never touches the runs
    or the mentions, and the names still differ afterwards.  Asking again,
    under any spelling of the name, returns the same row and writes
    nothing. *)
Theorem X19_brand_is_found_or_created_once (name_ : string) (w w' : World)
    (row : Brand) :
  useSupabase (connection w) = false ->
  distinct_names (brands (tables w)) ->
  getOrCreate name_ w = (Ok row, w') ->
  JsString.toLowerCase (name row) = JsString.toLowerCase name_
  /\ In row (brands (tables w'))
  /\ (brands (tables w') = brands (tables w)
      \/ brands (tables w') = (brands (tables w) ++ [row])%list
         /\ name row = name_
         /\ Forall (fun b => same_name name_ b = false) (brands (tables w)))
  /\ prompt_runs (tables w') = prompt_runs (tables w)
  /\ mentions (tables w') = mentions (tables w)
  /\ distinct_names (brands (tables w'))
  /\ (forall other w1 r2 w2,
        JsString.toLowerCase other = JsString.toLowerCase name_ ->
        useSupabase (connection w1) = false ->
        tables w1 = tables w' ->
        getOrCreate other w1 = (Ok r2, w2) ->
        r2 = row /\ tables w2 = tables w1).
Proof.
  intros Hs Hnd H.
  destruct (getOrCreate_row _ _ _ _ Hs H)
    as (Hlow & Hin & Hgrow & Hruns & Hmentions & _).
  pose proof (getOrCreate_keeps_names _ _ _ _ Hs Hnd H) as Hnd'.
  split; [exact Hlow|]. split; [exact Hin|].
  split; [destruct Hgrow as [Hg|(Hg & Hname & Hnone & _)]; [left | right]; auto|].
  split; [exact Hruns|]. split; [exact Hmentions|]. split; [exact Hnd'|].
  intros other w1 r2 w2 Hother Hs1 Ht1 H2.
  destruct (getOrCreate_cases _ _ _ _ Hs1 H2) as (_ & _ & Hcase2).
  assert (Hone : List.filter (same_name other) (brands (tables w1)) = [row]).
  { rewrite Ht1. apply filter_same_name_unique; [exact Hnd' | exact Hin|].
    apply same_name_spec. congruence. }
  destruct Hcase2 as [[_ [e He]]|[(Ht & found & others & Hf & Hr)
                                  |(Hf & _)]]; [discriminate| |congruence].
  rewrite Hone in Hf. injection Hf as <- _. injection Hr as <-. auto.
Qed.

Lemma insert_prompt_run_cases category_ prompt_ raw provider time t r t' :
  insert_prompt_run prompt_runs_id_seq category_ prompt_ raw provider time t
  = (r, t') ->
  (t' = t /\ exists e, r = Throw e)
  \/ (exists row,
        r = Ok [row]
        /\ row = {| run_id := run_id row;
                    run_category := category_;
                    prompt := prompt_;
                    raw_response := raw;
                    ai_provider := provider;
                    run_created_at := time |}
        /\ t' = with_prompt_runs (prompt_runs t ++ [row]) t
        /\ existsb (fun r => run_id r =? run_id row) (prompt_runs t) = false).
Proof.
  unfold insert_prompt_run.
  destruct (50 <? String.length provider); [intros [= <- <-]; left; eauto|].
  destruct (existsb _ (prompt_runs t)) eqn:Hid; [intros [= <- <-]; left; eauto|].
  intros [= <- <-]. right. eexists. repeat split; try reflexivity; assumption.
Qed.

Lemma create_cases category_ prompt_ raw provider w r w' :
  useSupabase (connection w) = false ->
  create category_ prompt_ raw provider w = (r, w') ->
  connection w' = connection w
  /\ now w' = now w
  /\ ((tables w' = tables w /\ exists e, r = Throw e)
      \/ exists row,
           r = Ok row
           /\ row = {| run_id := run_id row;
                       run_category := category_;
                       prompt := prompt_;
                       raw_response := raw;
                       ai_provider := provider;
                       run_created_at := now w |}
           /\ tables w'
              = with_prompt_runs (prompt_runs (tables w) ++ [row]) (tables w)
           /\ existsb (fun r => run_id r =? run_id row) (prompt_runs (tables w))
              = false).
Proof.
  intros Hs H. unfold PromptRunModel_create in H.
  cbv [bind get] in H. step_in H. rewrite Hs in H.
  cbv [bind try_catch throw ret] in H.
  destruct (query _ w) as [q w1] eqn:Hq.
  pose proof (query_frame _ _ _ _ Hq) as (Hc & Hn & _).
  apply query_cases in Hq.
  destruct q as [e|result]; step_in H.
  - injection H as <- <-. split; [world; exact Hc|]. split; [world; exact Hn|].
    left. split; [|eauto]. world.
    destruct Hq as [[Ht _]|Hq]; [exact Ht|].
    apply insert_prompt_run_cases in Hq.
    destruct Hq as [[-> _]|(row & Hr & _)]; [reflexivity | discriminate].
  - destruct Hq as [[_ [e He]]|Hq]; [discriminate|].
    apply insert_prompt_run_cases in Hq.
    destruct Hq as [[_ [e He]]|(row & Hr & Hrow & Ht & Hfresh)]; [discriminate|].
    injection Hr as ->. unfold first_row in H. cbv [ret] in H. step_in H.
    injection H as <- <-. split; [world; exact Hc|]. split; [world; exact Hn|].
    right. exists row. split; [reflexivity|]. split; [exact Hrow|].
    split; [world; exact Ht | exact Hfresh].
Qed.

(** X20: over the pool, [PromptRunModel.create] never touches the brands
    or the mentions.  When it throws, the runs are as they were; when it
    returns, the runs are the old ones followed by the returned run, which
    carries the four values of the call and the time of the call under an
    id that no older run has, and a count of the runs taken next is one
    more than the number of older runs. *)
Theorem X20_created_run_is_appended (category_ prompt_ raw provider : string)
    (w w' : World) (r : Result PromptRun) :
  useSupabase (connection w) = false ->
  create category_ prompt_ raw provider w = (r, w') ->
  brands (tables w') = brands (tables w)
  /\ mentions (tables w') = mentions (tables w)
  /\ match r with
     | inl _ => prompt_runs (tables w') = prompt_runs (tables w)
     | inr run =>
         prompt_runs (tables w') = (prompt_runs (tables w) ++ [run])%list
         /\ run_category run = category_
         /\ prompt run = prompt_
         /\ raw_response run = raw
         /\ ai_provider run = provider
         /\ run_created_at run = now w
         /\ Forall (fun old => run_id old <> run_id run) (prompt_runs (tables w))
         /\ (forall w1 n w2,
               tables w1 = tables w' ->
               useSupabase (connection w1) = false ->
               getCount w1 = (Ok n, w2) ->
               n = Some (Z.of_nat (S (length (prompt_runs (tables w))))))
     end.
Proof.
  intros Hs H. destruct (create_cases _ _ _ _ _ _ _ Hs H) as (_ & _ & Hcase).
  destruct Hcase as [[Ht [e ->]]|(row & -> & Hrow & Ht & Hfresh)].
  - rewrite Ht. auto.
  - rewrite Ht. cbn [with_prompt_runs brands mentions prompt_runs].
    split; [reflexivity|]. split; [reflexivity|].
    split; [reflexivity|]. rewrite Hrow. cbn.
    repeat (split; [reflexivity|]). split.
    + apply List.Forall_forall. intros old Hin Heq.
      assert (Hex : existsb (fun r => run_id r =? run_id row)
                      (prompt_runs (tables w)) = true).
      { apply existsb_exists. exists old. split; [exact Hin|].
        apply Nat.eqb_eq. rewrite Hrow. exact Heq. }
      congruence.
    + intros w1 n w2 Ht1 Hs1 Hcount. unfold PromptRunModel_getCount in Hcount.
      cbv [bind get] in Hcount. step_in Hcount. rewrite Hs1 in Hcount.
      cbv [bind try_catch throw ret] in Hcount.
      destruct (query count_prompt_runs w1) as [q wq] eqn:Hq.
      apply query_select in Hq. destruct Hq as [_ Hq].
      destruct q as [e|counted]; step_in Hcount; [discriminate|].
      injection Hcount as <- _. rewrite (Hq counted eq_refl), Ht1.
      cbn [with_prompt_runs prompt_runs]. rewrite parseInt_decimal, length_app.
      cbn [length]. do 2 f_equal. lia.
Qed.

Lemma getAll_cases limit offset w r w' :
  useSupabase (connection w) = false ->
  getAll limit offset w = (r, w') ->
  tables w' = tables w
  /\ connection w' = connection w
  /\ forall runs, r = Ok runs ->
       (0 <= limit)%Z /\ (0 <= offset)%Z
       /\ runs = page (tables w) limit offset.
Proof.
  intros Hs H. unfold PromptRunModel_getAll in H.
  cbv [bind get] in H. step_in H. rewrite Hs in H.
  cbv [try_catch throw] in H.
  destruct (query _ w) as [q wq] eqn:Hq.
  pose proof (query_frame _ _ _ _ Hq) as (Hc & _).
  apply query_cases in Hq.
  assert (Ht : tables wq = tables w).
  { destruct Hq as [[Ht _]|Hq]; [exact Ht|]. unfold select_prompt_runs in Hq.
    destruct (limit <? 0)%Z; [injection Hq as _ <-; reflexivity|].
    destruct (offset <? 0)%Z; injection Hq as _ <-; reflexivity. }
  destruct q as [e|rows]; step_in H; injection H as <- <-.
  - split; [world; exact Ht|]. split; [world; exact Hc | discriminate].
  - split; [exact Ht|]. split; [exact Hc|]. intros runs [= <-].
    destruct Hq as [[_ [e He]]|Hq]; [discriminate|].
    unfold select_prompt_runs in Hq.
    destruct (limit <? 0)%Z eqn:Hl; [discriminate|].
    destruct (offset <? 0)%Z eqn:Ho; [discriminate|].
    apply Z.ltb_ge in Hl, Ho. injection Hq as <- _. auto.
Qed.

Lemma page_facts (t : Tables) (limit offset : Z) :
  length (page t limit offset)
  = Nat.min (Z.to_nat limit) (length (prompt_runs t) - Z.to_nat offset)
  /\ (forall run, In run (page t limit offset) -> In run (prompt_runs t))
  /\ StronglySorted (fun a b => run_created_at b <= run_created_at a)
       (page t limit offset)
  /\ (offset = 0%Z ->
      forall run other,
        In run (page t limit offset) -> In other (prompt_runs t) ->
        run_created_at run < run_created_at other ->
        In other (page t limit offset)).
Proof.
  unfold page.
  set (sorted := order_by (fun a b => run_created_at b <=? run_created_at a)
                   (prompt_runs t)).
  assert (Hsorted : StronglySorted (fun a b => run_created_at b <= run_created_at a)
                      sorted) by apply order_by_descending.
  split; [|split; [|split]].
  - rewrite length_firstn, length_skipn. unfold sorted. rewrite order_by_length.
    reflexivity.
  - intros run Hin. apply In_firstn, In_skipn in Hin.
    apply order_by_In in Hin. exact Hin.
  - apply StronglySorted_firstn, StronglySorted_skipn, Hsorted.
  - intros -> run other Hrun Hother Hlt.
    change (Z.to_nat 0) with 0 in *. change (skipn 0 sorted) with sorted in *.
    apply (order_by_In (fun a b => run_created_at b <=? run_created_at a)) in Hother.
    fold sorted in Hother.
    rewrite <- (firstn_skipn (Z.to_nat limit) sorted) in Hother, Hsorted.
    apply in_app_or in Hother. destruct Hother as [Hother|Hother]; [exact Hother|].
    exfalso.
    revert Hsorted Hrun Hother Hlt. generalize (firstn (Z.to_nat limit) sorted).
    generalize (skipn (Z.to_nat limit) sorted). clear. intros back front.
    induction front as [|x front IH]; intros Hsorted Hrun Hother Hlt;
      [destruct Hrun|].
    cbn [app] in Hsorted. inversion Hsorted as [|? ? Hrest Hx]; subst.
    destruct Hrun as [->|Hrun]; [|apply IH; assumption].
    rewrite List.Forall_forall in Hx.
    specialize (Hx other (in_or_app _ _ _ (or_intror Hother))). lia.
Qed.

(** X21: over the pool, a page returned by [PromptRunModel.getAll] was
    asked for with a limit and an offset that are not negative; it leaves
    the tables as they are, holds as many runs as the limit allows of those
    left after the offset, holds only runs of the table, newest first, and
    a first page leaves out no run that is newer than one it holds. *)
Theorem X21_history_page (limit offset : Z) (w w' : World)
    (runs : list PromptRun) :
  useSupabase (connection w) = false ->
  getAll limit offset w = (Ok runs, w') ->
  tables w' = tables w
  /\ (0 <= limit)%Z /\ (0 <= offset)%Z
  /\ length runs
     = Nat.min (Z.to_nat limit)
         (length (prompt_runs (tables w)) - Z.to_nat offset)
  /\ (forall run, In run runs -> In run (prompt_runs (tables w)))
  /\ StronglySorted (fun a b => run_created_at b <= run_created_at a) runs
  /\ (offset = 0%Z ->
      forall run other,
        In run runs -> In other (prompt_runs (tables w)) ->
        run_created_at run < run_created_at other -> In other runs).
Proof.
  intros Hs H. destruct (getAll_cases _ _ _ _ _ Hs H) as (Ht & _ & Hruns).
  destruct (Hruns runs eq_refl) as (Hl & Ho & ->).
  split; [exact Ht|]. split; [exact Hl|]. split; [exact Ho|].
  apply page_facts.
Qed.

Lemma getMetrics_cases w r w' :
  useSupabase (connection w) = false ->
  metrics w = (r, w') ->
  tables w' = tables w
  /\ forall m, r = Ok m ->
       m = {| History.promptsTracked :=
                Some (Z.of_nat (length (prompt_runs (tables w))));
              History.brandsTracked := length (brands (tables w)) |}.
Proof.
  intros Hs H. unfold History.getMetrics in H.
  cbv [bind try_catch throw ret] in H.
  unfold PromptRunModel_getCount in H at 1. cbv [bind get] in H. step_in H.
  rewrite Hs in H. cbv [bind try_catch throw ret] in H.
  destruct (query count_prompt_runs w) as [q1 w1] eqn:Hq1.
  pose proof (query_frame _ _ _ _ Hq1) as (Hc1 & _).
  apply query_select in Hq1. destruct Hq1 as [Ht1 Hcount].
  destruct q1 as [e|counted]; step_in H.
  { injection H as <- <-. split; [world; exact Ht1 | discriminate]. }
  unfold BrandModel_getAll in H. cbv [bind get] in H. step_in H.
  rewrite Hc1, Hs in H. cbv [try_catch throw] in H.
  destruct (query (select_brands collation_le) w1) as [q2 w2] eqn:Hq2.
  apply query_select in Hq2. destruct Hq2 as [Ht2 Hrows].
  destruct q2 as [e|rows]; step_in H; injection H as <- <-.
  { split; [world; congruence | discriminate]. }
  split; [congruence|]. intros m [= <-].
  rewrite (Hcount counted eq_refl), (Hrows rows eq_refl), Ht1.
  rewrite parseInt_decimal, order_by_length. reflexivity.
Qed.

Lemma getMetrics_runs w :
  useSupabase (connection w) = false ->
  pool (connection w) = true ->
  db_faults w = [] ->
  exists m w', metrics w = (Ok m, w').
Proof.
  intros Hs Hp Hf. unfold History.getMetrics.
  cbv [bind try_catch throw ret].
  unfold PromptRunModel_getCount at 1. cbv [bind get]. step.
  rewrite Hs. cbv [bind try_catch throw ret].
  destruct (query_runs count_prompt_runs w Hs Hp) as (w1 & -> & _ & Hf1 & Hc1 & _);
    [rewrite Hf; reflexivity|].
  cbn [fst count_prompt_runs select]. step.
  unfold BrandModel_getAll. cbv [bind get]. step.
  rewrite Hc1, Hs. cbv [try_catch throw].
  destruct (query_runs (select_brands collation_le) w1) as (w2 & -> & _);
    [congruence | congruence | rewrite Hf1, Hf; reflexivity|].
  cbn [fst select_brands select]. step. eauto.
Qed.

(** X22: over the pool the metrics route always answers and never writes:
    either with the number of prompt runs and the number of brands in the
    tables, or with status 500 and the message of the exception that
    [getMetrics] threw; with the pool there and no failure of the
    connection it answers with the numbers. *)
Theorem X22_metrics_count_the_rows (w : World) :
  useSupabase (connection w) = false ->
  exists response w',
    metrics_route w = (Ok response, w')
    /\ tables w' = tables w
    /\ match response with
       | Data m =>
           History.promptsTracked m
           = Some (Z.of_nat (length (prompt_runs (tables w))))
           /\ History.brandsTracked m = length (brands (tables w))
       | Problem status message =>
           status = 500
           /\ exists thrown w1,
                metrics (logged debug "Fetching dashboard metrics" w)
                = (Throw thrown, w1)
                /\ message = exn_message thrown
       end
    /\ (pool (connection w) = true -> db_faults w = [] ->
        exists m, response = Data m).
Proof.
  intros Hs. unfold History.metrics_GET. cbv [bind try_catch ret]. step.
  assert (Hruns : pool (connection w) = true -> db_faults w = [] ->
                  exists m w1,
                    metrics (logged debug "Fetching dashboard metrics" w)
                    = (Ok m, w1)).
  { intros Hp Hf. apply getMetrics_runs; world; assumption. }
  destruct (metrics (logged debug "Fetching dashboard metrics" w))
    as [[thrown|m] w1] eqn:Hm; step.
  - apply getMetrics_cases in Hm; [|world; exact Hs]. destruct Hm as [Ht _].
    autorewrite with world in Ht.
    eexists _, _. split; [reflexivity|]. split; [world; exact Ht|].
    split; [split; [reflexivity | eauto]|].
    intros Hp Hf. destruct (Hruns Hp Hf) as (m & w2 & Hm). discriminate.
  - apply getMetrics_cases in Hm; [|world; exact Hs]. destruct Hm as [Ht Hm].
    autorewrite with world in Ht, Hm. rewrite (Hm m eq_refl).
    eexists _, _. split; [reflexivity|]. split; [exact Ht|].
    split; [split; reflexivity | eauto].
Qed.

(** *** The history over the pool *)

Lemma getById_reads id_ t w r w' :
  reading t w -> getById id_ w = (r, w') ->
  reading t w'
  /\ forall found, r = Ok found ->
       found = List.head (List.filter (fun b => brand_row_id b =? id_) (brands t)).
Proof.
  intros [Ht Hs] H. unfold BrandModel_getById in H.
  cbv [bind get] in H. step_in H. rewrite Hs in H.
  cbv [bind try_catch throw ret] in H.
  destruct (query _ w) as [q wq] eqn:Hq.
  pose proof (query_frame _ _ _ _ Hq) as (Hc & _).
  apply query_select in Hq. destruct Hq as [Htq Hrows].
  destruct q as [e|found]; step_in H; injection H as <- <-.
  - split; [split; world; congruence | discriminate].
  - split; [split; congruence|]. intros b [= <-].
    rewrite (Hrows found eq_refl), Ht. reflexivity.
Qed.

Lemma getByPromptRunId_reads run t w r w' :
  reading t w -> getByPromptRunId run w = (r, w') ->
  reading t w'
  /\ forall rows, r = Ok rows -> rows = mentions_of_run t run.
Proof.
  intros [Ht Hs] H. unfold MentionModel_getByPromptRunId in H.
  cbv [bind get] in H. step_in H. rewrite Hs in H.
  cbv [try_catch throw] in H.
  destruct (query _ w) as [q wq] eqn:Hq.
  pose proof (query_frame _ _ _ _ Hq) as (Hc & _).
  apply query_select in Hq. destruct Hq as [Htq Hrows].
  destruct q as [e|found]; step_in H; injection H as <- <-.
  - split; [split; world; congruence | discriminate].
  - split; [split; congruence|]. intros b [= <-].
    rewrite (Hrows found eq_refl), Ht. reflexivity.
Qed.

Lemma brand_status_reads t mention w r w' :
  reading t w ->
  History.brand_status getById mention w = (r, w') ->
  reading t w' /\ forall status, r = Ok status -> status = status_in t mention.
Proof.
  intros Hw H. unfold History.brand_status in H. cbv [bind ret] in H.
  destruct (getById _ w) as [[e|found] w1] eqn:Hg;
    destruct (getById_reads _ _ _ _ _ Hw Hg) as [Hw1 Hfound];
    injection H as <- <-.
  - split; [exact Hw1 | discriminate].
  - split; [exact Hw1|]. intros status [= <-].
    rewrite (Hfound found eq_refl). reflexivity.
Qed.

Lemma collect_reads t brandFilter (promptRuns : list PromptRun) :
  forall acc w r w',
    reading t w ->
    History.collect getById getByPromptRunId brandFilter promptRuns acc w
    = (r, w') ->
    reading t w'
    /\ forall entries,
         r = Ok entries ->
         entries
         = (acc ++ List.filter (passes_filter brandFilter)
                     (map (entry_in t) promptRuns))%list.
Proof.
  induction promptRuns as [|run rest IH]; intros acc w r w' Hw H;
    cbn [History.collect] in H.
  - injection H as <- <-. split; [exact Hw|]. intros entries [= <-].
    cbn. symmetry. apply app_nil_r.
  - cbv [bind] in H.
    destruct (getByPromptRunId _ w) as [[e|rows] w1] eqn:Hrows;
      destruct (getByPromptRunId_reads _ _ _ _ _ Hw Hrows) as [Hw1 Hr].
    { injection H as <- <-. split; [exact Hw1 | discriminate]. }
    rewrite (Hr rows eq_refl) in H.
    destruct (promise_all _ w1) as [[e|statuses] w2] eqn:Hall;
      destruct (promise_all_map (reading t) _ (status_in t) _
                  (brand_status_reads t) _ _ _ Hw1 Hall) as [Hw2 Hs].
    { injection H as <- <-. split; [exact Hw2 | discriminate]. }
    rewrite (Hs statuses eq_refl) in H.
    cbn [map List.filter]. unfold passes_filter at 1. cbn [entry_in History.brands].
    destruct brandFilter as [wanted|].
    + destruct (truthy (Some wanted)); cbn [andb negb orb] in *.
      * destruct (History.hasBrand wanted _); cbn [negb] in H.
        -- destruct (IH _ _ _ _ Hw2 H) as [Hw' He]. split; [exact Hw'|].
           intros entries Hent. rewrite (He entries Hent), <- app_assoc. reflexivity.
        -- apply (IH _ _ _ _ Hw2 H).
      * destruct (IH _ _ _ _ Hw2 H) as [Hw' He]. split; [exact Hw'|].
        intros entries Hent. rewrite (He entries Hent), <- app_assoc. reflexivity.
    + destruct (IH _ _ _ _ Hw2 H) as [Hw' He]. split; [exact Hw'|].
      intros entries Hent. rewrite (He entries Hent), <- app_assoc. reflexivity.
Qed.

Lemma entry_in_statuses (t : Tables) (run : PromptRun) :
  Forall (status_of_rows t (run_id run)) (History.brands (entry_in t run))
  /\ StronglySorted
       (fun a b => History.mentionCount b <= History.mentionCount a)
       (History.brands (entry_in t run)).
Proof.
  cbn [entry_in History.brands]. split.
  - apply List.Forall_forall. intros status Hin.
    apply List.in_map_iff in Hin as (m & <- & Hm).
    unfold mentions_of_run in Hm. apply order_by_In in Hm.
    apply List.in_flat_map in Hm as (m0 & Hm0 & Hjoin).
    apply List.in_map_iff in Hjoin as (b0 & -> & Hb0).
    apply List.filter_In in Hm0 as [Hm0 Hrun]. apply Nat.eqb_eq in Hrun.
    destruct (List.filter (fun b => brand_row_id b =? brand_id m) (brands t))
      as [|b rest] eqn:Hf; [destruct Hb0|].
    assert (Hb : In b (List.filter (fun b => brand_row_id b =? brand_id m)
                         (brands t))) by (rewrite Hf; left; reflexivity).
    apply List.filter_In in Hb as [Hb Hid]. apply Nat.eqb_eq in Hid.
    exists m, b. unfold status_in. rewrite Hf. cbn. auto 10.
  - apply (StronglySorted_map (fun a b => History.mentionCount b <= History.mentionCount a)
             (status_in t)).
    cbn [status_in History.mentionCount]. apply order_by_descending.
Qed.

(** X24: over the pool the history only reads: whether it returns or
    throws, the tables are as they were.  What it returns is a function of
    the tables: the entries of the runs of the page that pass the brand
    filter, so at most [limit] entries, newest first; and every brand shown
    in an entry comes from a mention row of that run and from the brand row
    with the id of the mention, bears the name of that brand row ("Unknown"
    only for an empty name), and the brands of an entry are ordered by the
    number of mentions, largest first. *)
Theorem X24_history_over_the_pool (limit offset : Z)
    (brandFilter : option string) (w w' : World)
    (r : Result (list History.PromptWithMentions)) :
  useSupabase (connection w) = false ->
  history limit offset brandFilter w = (r, w') ->
  tables w' = tables w
  /\ forall entries,
       r = Ok entries ->
       entries
       = List.filter (passes_filter brandFilter)
           (map (entry_in (tables w)) (page (tables w) limit offset))
       /\ length entries <= Z.to_nat limit
       /\ StronglySorted
            (fun a b => History.timestamp b <= History.timestamp a) entries
       /\ Forall
            (fun entry =>
               Forall (status_of_rows (tables w) (History.id entry))
                 (History.brands entry)
               /\ StronglySorted
                    (fun a b => History.mentionCount b <= History.mentionCount a)
                    (History.brands entry))
            entries.
Proof.
  intros Hs H. unfold History.getPromptsWithMentions in H.
  cbv [bind try_catch ret throw] in H. step_in H.
  destruct (getAll limit offset _) as [[e|promptRuns] w1] eqn:Hall; step_in H.
  { injection H as <- <-.
    apply getAll_cases in Hall; [|world; exact Hs]. destruct Hall as (Ht & _).
    autorewrite with world in Ht. split; [world; exact Ht | discriminate]. }
  apply getAll_cases in Hall; [|world; exact Hs].
  destruct Hall as (Ht1 & Hc1 & Hruns). autorewrite with world in Ht1, Hc1, Hruns.
  destruct (Hruns promptRuns eq_refl) as (Hl & Ho & Hpage).
  assert (Hw1 : reading (tables w) w1) by (split; congruence).
  destruct (History.collect _ _ brandFilter promptRuns [] w1)
    as [[e|collected] w2] eqn:Hc; step_in H;
    destruct (collect_reads _ _ _ _ _ _ _ Hw1 Hc) as [[Ht2 _] Hentries];
    injection H as <- <-.
  { split; [world; exact Ht2 | discriminate]. }
  split; [world; exact Ht2|]. intros entries [= <-].
  rewrite (Hentries collected eq_refl), Hpage. cbn [app].
  destruct (page_facts (tables w) limit offset) as (Hlen & _ & Hsorted & _).
  split; [reflexivity|]. split; [|split].
  - etransitivity; [apply sublist_length, sublist_List_filter|].
    rewrite length_map, Hlen. lia.
  - eapply StronglySorted_sublist; [apply sublist_List_filter|].
    apply StronglySorted_map. exact Hsorted.
  - apply List.Forall_forall. intros entry Hin.
    apply List.filter_In in Hin as [Hin _].
    apply List.in_map_iff in Hin as (run & <- & _).
    apply entry_in_statuses.
Qed.

(** *** What a check stores *)

Lemma stored_values_lower mentions_ a b :
  JsString.toLowerCase a = JsString.toLowerCase b ->
  stored_values mentions_ a = stored_values mentions_ b.
Proof. intros E. unfold stored_values. rewrite E. reflexivity. Qed.

Lemma distinct_ids_same rows a b :
  distinct_ids rows -> In a rows -> In b rows ->
  brand_row_id a = brand_row_id b -> a = b.
Proof.
  unfold distinct_ids. induction rows as [|x rows IH]; intros Hnd Ha Hb E;
    [destruct Ha|].
  cbn [map] in Hnd. apply NoDup_cons in Hnd as [Hx Hnd].
  destruct Ha as [->|Ha], Hb as [->|Hb].
  - reflexivity.
  - exfalso. apply Hx. apply list_elem_of_In, List.in_map_iff. eauto.
  - exfalso. apply Hx. apply list_elem_of_In, List.in_map_iff. eauto.
  - apply IH; assumption.
Qed.

Lemma filter_id_unique rows row :
  distinct_ids rows -> In row rows ->
  List.filter (fun b => brand_row_id b =? brand_row_id row) rows = [row].
Proof.
  unfold distinct_ids. induction rows as [|b rows IH]; intros Hnd Hin;
    [destruct Hin|].
  cbn [map] in Hnd. apply NoDup_cons in Hnd as [Hb Hnd]. cbn [List.filter].
  destruct Hin as [->|Hin].
  - rewrite Nat.eqb_refl. f_equal.
    clear IH Hnd. induction rows as [|x rows IH]; [reflexivity|].
    cbn [List.filter]. destruct (brand_row_id x =? brand_row_id row) eqn:E.
    + exfalso. apply Hb. apply Nat.eqb_eq in E. rewrite <- E.
      apply list_elem_of_In. left. reflexivity.
    + apply IH. intros Hin. apply Hb. apply list_elem_of_In in Hin.
      apply list_elem_of_In. right. exact Hin.
  - destruct (brand_row_id b =? brand_row_id row) eqn:E.
    + exfalso. apply Hb. apply Nat.eqb_eq in E. rewrite E.
      apply list_elem_of_In, List.in_map_iff. eauto.
    + apply IH; assumption.
Qed.

Lemma toLowerCase_empty s : JsString.toLowerCase s = "" -> s = "".
Proof. destruct s; [reflexivity | discriminate]. Qed.

Lemma upsert_connection run brand_ m c ctx urls w r w' :
  useSupabase (connection w) = false ->
  MentionModel_createOrUpdate run brand_ m c ctx urls w = (r, w') ->
  connection w' = connection w.
Proof.
  intros Hs H. unfold MentionModel_createOrUpdate in H.
  cbv [bind get] in H. step_in H. rewrite Hs in H.
  cbv [bind try_catch throw ret] in H.
  destruct (query _ w) as [q wq] eqn:Hq.
  apply query_frame in Hq. destruct Hq as (Hc & _).
  destruct q as [e|rows]; step_in H.
  - injection H as <- <-. world. exact Hc.
  - destruct rows as [|row rows]; step_in H; injection H as <- <-; world; exact Hc.
Qed.

(** One turn of the loop over the brands. *)
Lemma store_brand_step run mentions_ brandName w w' :
  store_invariant w ->
  store run mentions_ brandName w = (Ok tt, w') ->
  store_invariant w'
  /\ stored_for (tables w') run mentions_ brandName
  /\ (forall other,
        stored_for (tables w) run mentions_ other ->
        stored_for (tables w') run mentions_ other)
  /\ prompt_runs (tables w') = prompt_runs (tables w)
  /\ (exists added, brands (tables w') = (brands (tables w) ++ added)%list)
  /\ List.filter (fun row => negb (prompt_run_id row =? run)) (mentions (tables w'))
     = List.filter (fun row => negb (prompt_run_id row =? run)) (mentions (tables w)).
Proof.
  intros (Hs & Hu & Hids) H. unfold store_brand in H.
  cbv [bind ret] in H.
  destruct (getOrCreate brandName w) as [[e|brand_row] w1] eqn:Hg; [discriminate|].
  destruct (getOrCreate_row _ _ _ _ Hs Hg)
    as (Hlow & Hin & Hgrow & Hruns1 & Hmentions1 & _ & Hc1).
  assert (Hids1 : distinct_ids (brands (tables w1))).
  { destruct Hgrow as [->|(-> & _ & _ & Hfresh)]; [exact Hids|].
    unfold distinct_ids. rewrite map_app. apply NoDup_app.
    split; [exact Hids|]. split; [|apply NoDup_singleton].
    intros x Hx Hx'. apply list_elem_of_In in Hx, Hx'. destruct Hx' as [<-|[]].
    apply List.in_map_iff in Hx as (b & Hb & Hbin).
    rewrite List.Forall_forall in Hfresh. apply (Hfresh b Hbin Hb). }
  assert (Hprefix : exists added,
            brands (tables w1) = (brands (tables w) ++ added)%list).
  { destruct Hgrow as [->|(-> & _)]; [exists []; symmetry; apply app_nil_r|eauto]. }
  set (found := List.find _ mentions_) in H.
  match type of H with
  | context [MentionModel_createOrUpdate run ?b ?m ?c ?ctx ?urls w1] =>
      destruct (MentionModel_createOrUpdate run b m c ctx urls w1)
        as [[e|row] w2] eqn:Hup;
      [discriminate|];
      assert (Hvalues : (m, c, ctx, urls) = stored_values mentions_ brandName)
        by (unfold stored_values; fold found; destruct found; reflexivity)
  end.
  injection H as <-.
  assert (Hs1 : useSupabase (connection w1) = false) by congruence.
  assert (Hu1 : unique_keys (mentions (tables w1))) by congruence.
  pose proof (upsert_connection _ _ _ _ _ _ _ _ _ Hs1 Hup) as Hc2.
  pose proof (upsert_keeps_unique _ _ _ _ _ _ _ _ _ _
                (or_introl eq_refl) Hu1 Hup) as Hu2.
  apply MentionModel_cases in Hup. destruct Hup as (set & Hset & Hcase).
  destruct Hcase as [? Hr|? ? Hr|first rest Hst Hr|? ? ? ? Hr]; try discriminate.
  injection Hr as <-.
  match type of Hst with
  | insert_on_conflict_update ?s ?r ?b ?m ?c ?ctx ?urls ?time ?t = _ =>
      pose proof (statement_frame s Hset r b m c ctx urls time t) as Hframe
  end.
  cbv zeta in Hframe. rewrite Hst in Hframe. cbn [snd] in Hframe.
  destruct Hframe as (Hb2 & Hruns2 & Hother2 & _).
  destruct (statement_Ok set (either_set_in_place set Hset)
              _ _ _ _ _ _ _ _ _ _ Hu1 Hst)
    as (row' & Hrows & Hfilter & Hm & Hc & Hctx & Hurls).
  injection Hrows as <- ->.
  assert (Hrow : In row (mentions (tables w2)) /\
                 key_of row = (run, brand_row_id brand_row)).
  { assert (Hin' : In row (List.filter (same_key run (brand_row_id brand_row))
                             (mentions (tables w2))))
      by (rewrite Hfilter; left; reflexivity).
    apply List.filter_In in Hin' as [Hin' Hkey]. split; [exact Hin'|].
    apply same_key_spec, Hkey. }
  destruct Hrow as [Hrow Hkey].
  assert (Hrowvalues : values_of row = stored_values mentions_ brandName).
  { rewrite <- Hvalues. unfold values_of. congruence. }
  split; [|split; [|split; [|split; [|split]]]].
  - repeat split; congruence.
  - exists brand_row, row. rewrite Hb2. auto.
  - intros other (brand0 & row0 & Hin0 & Hlow0 & Hrow0 & Hkey0 & Hvalues0).
    assert (Hin0' : In brand0 (brands (tables w1))).
    { destruct Hprefix as [added ->]. apply in_or_app. left. exact Hin0. }
    destruct (Nat.eq_dec (brand_row_id brand0) (brand_row_id brand_row)) as [E|E].
    + assert (brand0 = brand_row)
        by (eapply distinct_ids_same; eassumption).
      subst brand0. exists brand_row, row. rewrite Hb2.
      split; [exact Hin|]. split; [exact Hlow0|]. split; [exact Hrow|].
      split; [exact Hkey|]. rewrite Hrowvalues.
      apply stored_values_lower. congruence.
    + exists brand0, row0. rewrite Hb2.
      split; [exact Hin0'|]. split; [exact Hlow0|]. split; [|auto].
      assert (Hkeep : In row0
                        (List.filter
                           (fun r => negb (same_key run (brand_row_id brand_row) r))
                           (mentions (tables w2)))).
      { rewrite Hother2, Hmentions1. apply List.filter_In. split; [exact Hrow0|].
        apply negb_true_iff. destruct (same_key _ _ row0) eqn:Hk; [|reflexivity].
        apply same_key_spec in Hk. rewrite Hkey0 in Hk.
        injection Hk as Hk. contradiction. }
      apply List.filter_In in Hkeep as [Hkeep _]. exact Hkeep.
  - congruence.
  - rewrite Hb2. exact Hprefix.
  - rewrite <- Hmentions1.
    assert (Hsplit : forall rows,
              List.filter (fun row => negb (prompt_run_id row =? run)) rows
              = List.filter (fun row => negb (prompt_run_id row =? run))
                  (List.filter
                     (fun r => negb (same_key run (brand_row_id brand_row) r))
                     rows)).
    { intros rows. induction rows as [|x rows IH]; [reflexivity|].
      cbn [List.filter]. unfold same_key at 1.
      destruct (prompt_run_id x =? run) eqn:Hx; cbn [negb andb].
      - destruct (negb (brand_id x =? brand_row_id brand_row)); [|exact IH].
        cbn [List.filter]. rewrite Hx. exact IH.
      - cbn [List.filter]. rewrite Hx. cbn [negb]. f_equal. exact IH. }
    rewrite (Hsplit (mentions (tables w2))), (Hsplit (mentions (tables w1))).
    rewrite Hother2. reflexivity.
Qed.

(** When the loop over the brands completes, every brand has its rows. *)
Lemma store_loop (run : nat)
    (mentions_ : list BrandMention) (brands_ : list string) (w w' : World) :
  store_invariant w ->
  for_of brands_ (store run mentions_) w = (Ok tt, w') ->
  Forall (stored_for (tables w') run mentions_) brands_
  /\ store_invariant w'
  /\ prompt_runs (tables w') = prompt_runs (tables w)
  /\ (exists added, brands (tables w') = (brands (tables w) ++ added)%list)
  /\ List.filter (fun row => negb (prompt_run_id row =? run)) (mentions (tables w'))
     = List.filter (fun row => negb (prompt_run_id row =? run)) (mentions (tables w)).
Proof.
  intros Hinv H.
  enough (Hgen :
            Forall (stored_for (tables w') run mentions_) brands_
            /\ (forall other,
                  stored_for (tables w) run mentions_ other ->
                  stored_for (tables w') run mentions_ other)
            /\ store_invariant w'
            /\ prompt_runs (tables w') = prompt_runs (tables w)
            /\ (exists added,
                  brands (tables w') = (brands (tables w) ++ added)%list)
            /\ List.filter (fun row => negb (prompt_run_id row =? run))
                 (mentions (tables w'))
               = List.filter (fun row => negb (prompt_run_id row =? run))
                   (mentions (tables w))).
  { destruct Hgen as (H1 & _ & H2). auto. }
  revert w Hinv H. induction brands_ as [|b bs IH]; intros w Hinv H;
    cbn [for_of] in H.
  - injection H as <-. split; [constructor|]. split; [auto|].
    split; [exact Hinv|]. split; [reflexivity|].
    split; [exists []; symmetry; apply app_nil_r | reflexivity].
  - cbv [bind] in H.
    destruct (store run mentions_ b w) as [[e|[]] w1] eqn:Hstep; [discriminate|].
    destruct (store_brand_step _ _ _ _ _ Hinv Hstep)
      as (Hinv1 & Hb & Hkeep1 & Hruns1 & [added1 Hadded1] & Hother1).
    destruct (IH _ Hinv1 H) as (Hbs & Hkeep & Hinv' & Hruns & [added Hadded] & Hother).
    split; [constructor; [apply Hkeep, Hb | exact Hbs]|].
    split; [intros other Ho; apply Hkeep, Hkeep1, Ho|].
    split; [exact Hinv'|]. split; [congruence|].
    split; [|congruence].
    exists (added1 ++ added)%list. rewrite Hadded, Hadded1, app_assoc. reflexivity.
Qed.

(** A brand that is stored for a run shows in the history entry of that
    run. *)
Lemma stored_for_shown t mentions_ brandName (run : PromptRun) :
  distinct_ids (brands t) ->
  stored_for t (run_id run) mentions_ brandName ->
  exists status,
    In status (History.brands (entry_in t run))
    /\ shown_as mentions_ brandName status.
Proof.
  intros Hids (brand_row & row & Hb & Hlow & Hrow & Hkey & Hvalues).
  unfold key_of in Hkey. injection Hkey as Hrun Hid.
  assert (Hfilter : List.filter (fun b => brand_row_id b =? brand_id row) (brands t)
                    = [brand_row]).
  { rewrite Hid. apply filter_id_unique; assumption. }
  exists (status_in t row). split.
  - cbn [entry_in History.brands]. apply List.in_map. unfold mentions_of_run.
    apply order_by_In. apply List.in_flat_map. exists row. split.
    + apply List.filter_In. split; [exact Hrow | apply Nat.eqb_eq, Hrun].
    + rewrite Hfilter. left. reflexivity.
  - unfold shown_as. rewrite <- Hvalues. unfold values_of.
    unfold status_in. rewrite Hfilter.
    cbn [List.head History.mentioned History.mentionCount History.brandName].
    split; [reflexivity|]. split; [reflexivity|].
    destruct (String.eqb (name brand_row) "") eqn:En.
    + apply String.eqb_eq in En. rewrite En in Hlow. cbn in Hlow.
      symmetry in Hlow. apply toLowerCase_empty in Hlow. subst brandName.
      reflexivity.
    + destruct (String.eqb brandName "") eqn:Eb; [|exact Hlow].
      apply String.eqb_eq in Eb. subst brandName. cbn in Hlow.
      apply toLowerCase_empty in Hlow. apply String.eqb_neq in En. contradiction.
Qed.

(** X23: what a check reports as stored is in the tables, and the history
    shows it.  Over the pool, on tables in which the brand ids are distinct
    and no two mentions have the same run and brand (the primary key of
    [brands] and the [UNIQUE(prompt_run_id, brand_id)] of [mentions]; nothing
    is assumed of the brand names), when the database step of
    [checkVisibility] ends with the message "Visibility check stored in
    database", the run id it reports is that of a new run, appended to the
    runs with the category, the stored prompt, the text of the response and
    the name of the provider; every brand of the request has a brand row
    under its name up to letter case and, for the new run, a mention row of
    that brand with the flag, the count, the context and the citation URLs
    of its mention; the brands that were there are still there, the mentions
    of other runs are unchanged, the two constraints still hold; and the
    history entry of the new run shows every brand of the request with that
    flag and that count. *)
Theorem X23_stored_check_is_in_the_tables (category_ : string)
    (brands_ : list string) (provider : AIProvider) (isCompetitorMode : bool)
    (mainBrand : option string) (aiResponse : AIResponse)
    (mentions_ : list BrandMention) (w w' : World) (r : Result (option nat)) :
  store_invariant w ->
  store_run create getOrCreate category_ brands_ provider isCompetitorMode
    mainBrand aiResponse mentions_ w = (r, w') ->
  last (console w') = Some (info, "Visibility check stored in database") ->
  exists run,
    r = Ok (Some (run_id run))
    /\ prompt_runs (tables w') = (prompt_runs (tables w) ++ [run])%list
    /\ run_category run = category_
    /\ prompt run = stored_prompt category_ brands_ isCompetitorMode mainBrand
    /\ raw_response run = text aiResponse
    /\ ai_provider run = provider_name provider
    /\ Forall (stored_for (tables w') (run_id run) mentions_) brands_
    /\ (exists added, brands (tables w') = (brands (tables w) ++ added)%list)
    /\ List.filter (fun row => negb (prompt_run_id row =? run_id run))
         (mentions (tables w'))
       = List.filter (fun row => negb (prompt_run_id row =? run_id run))
           (mentions (tables w))
    /\ store_invariant w'
    /\ Forall (fun brandName =>
                 exists status,
                   In status (History.brands (entry_in (tables w') run))
                   /\ shown_as mentions_ brandName status)
         brands_.
Proof.
  intros Hinv H Hlast. pose proof Hinv as (Hs & Hu & Hids).
  unfold store_run in H. cbv [bind try_catch ret] in H.
  destruct (create _ _ _ _ w) as [[e|run] w1] eqn:Hcreate; step_in H.
  { injection H as <- <-. rewrite console_logged_warn, last_snoc in Hlast.
    discriminate. }
  destruct (create_cases _ _ _ _ _ _ _ Hs Hcreate) as (Hc1 & _ & Hcase).
  destruct Hcase as [[_ [e He]]|(row & Hr & Hrow & Ht1 & _)]; [discriminate|].
  injection Hr as <-.
  assert (Hinv1 : store_invariant w1).
  { unfold store_invariant. rewrite Hc1, Ht1. cbn [with_prompt_runs brands mentions].
    auto. }
  destruct (for_of brands_ _ w1) as [[e|[]] w2] eqn:Hloop; step_in H;
    injection H as <- <-.
  { rewrite console_logged_warn, last_snoc in Hlast. discriminate. }
  destruct (store_loop _ _ _ _ _ Hinv1 Hloop)
    as (Hstored & Hinv2 & Hruns & Hadded & Hother).
  exists run. autorewrite with world.
  split; [reflexivity|].
  split; [rewrite Hruns, Ht1; reflexivity|].
  rewrite Hrow at 1 2 3 4. cbn [run_category prompt raw_response ai_provider].
  repeat (split; [reflexivity|]).
  split; [exact Hstored|].
  split; [rewrite Ht1 in Hadded; exact Hadded|].
  split; [rewrite Ht1 in Hother; exact Hother|].
  destruct Hinv2 as (Hs2 & Hu2 & Hids2).
  split; [repeat split; world; assumption|].
  eapply List.Forall_impl; [|exact Hstored].
  intros brandName Hb. apply stored_for_shown; assumption.
Qed.

End ModelFacts.

(** ** The form of the page and the route *)

Section FormFacts.
Import JsString Form.

Lemma within_refl (s : string) : within s s.
Proof. exists "", "". cbn. symmetry. apply string_app_nil_r. Qed.

Lemma within_tail (x s : string) (c : ascii) : within x s -> within x (String c s).
Proof. intros (pre & post & ->). exists (String c pre), post. reflexivity. Qed.

(** The pieces of a split hold no separator and lie in the string, the
    first one at its start. *)
Lemma split_on_pieces (sep : ascii) (s : string) :
  exists first rest,
    split_on sep s = first :: rest
    /\ (exists post, s = (first ++ post)%string)
    /\ Forall (fun piece =>
                 any_char (fun c => Ascii.eqb c sep) piece = false
                 /\ within piece s)
         (first :: rest).
Proof.
  induction s as [|c s IHs]; cbn [split_on].
  - exists "", []. split; [reflexivity|]. split; [exists ""; reflexivity|].
    constructor; [|constructor]. split; [reflexivity | apply within_refl].
  - destruct IHs as (first & rest & E & (post & Hpre) & IH).
    assert (Htail : Forall (fun piece =>
                             any_char (fun c => Ascii.eqb c sep) piece = false
                             /\ within piece (String c s)) (first :: rest)).
    { eapply List.Forall_impl; [|exact IH]. cbn. intros piece [Hp Hw].
      split; [exact Hp | apply within_tail, Hw]. }
    destruct (Ascii.eqb c sep) eqn:Ec.
    + exists "", (split_on sep s). split; [reflexivity|].
      split; [exists (String c s); reflexivity|]. constructor.
      * split; [reflexivity | exists "", (String c s); reflexivity].
      * rewrite E. exact Htail.
    + rewrite E. exists (String c first), rest. split; [reflexivity|].
      assert (Hstart : String c s = (String c first ++ post)%string).
      { change (String c first ++ post)%string with (String c (first ++ post)).
        f_equal. exact Hpre. }
      split; [exists post; exact Hstart|].
      pose proof (List.Forall_inv IH) as [Hfirst _].
      constructor; [|exact (List.Forall_inv_tail Htail)]. split.
      * cbn [any_char]. rewrite Ec, Hfirst. reflexivity.
      * exists "", post. exact Hstart.
Qed.

Lemma parse_brands_spec (brandsInput_ : string) :
  Forall (fun b =>
            b <> ""
            /\ no_space_around b
            /\ any_char (fun c => Ascii.eqb c ",") b = false
            /\ within b brandsInput_)
    (parse_brands brandsInput_).
Proof.
  unfold parse_brands. apply List.Forall_forall. intros b Hb.
  apply List.filter_In in Hb as [Hb Hne].
  apply List.in_map_iff in Hb as (piece & <- & Hpiece).
  destruct (split_on_pieces "," brandsInput_) as (first & rest & E & _ & Hall).
  rewrite E in Hpiece. rewrite List.Forall_forall in Hall.
  destruct (Hall piece Hpiece) as [Hsep Hw].
  split; [|split; [|split]].
  - apply negb_true_iff, String.eqb_neq in Hne. exact Hne.
  - apply trim_no_space_around.
  - unfold trim. apply any_char_trimEnd, any_char_trimStart, Hsep.
  - eapply within_trans; [apply trim_within | exact Hw].
Qed.

Lemma select_provider_name (p : AIProvider) :
  select_provider (Some (provider_name p)) = p.
Proof. destruct p; reflexivity. Qed.

(** X25: a form that the page submits is never refused by the route as
    invalid: whenever [handleSubmit] sends a request, its body passes the
    validation of [POST /api/check-visibility], with the category as typed,
    the provider that is selected in the form as the provider that the route
    selects, and the competitor mode as set.  The brands that are sent are
    the entries between the commas of the input, trimmed, the empty ones
    dropped: none is empty, none begins or ends with white space, none holds
    a comma, and each occurs in the input.  The main brand is sent trimmed in
    competitor mode, where it is not empty, and is not sent otherwise. *)
Theorem X25_submitted_form_passes_validation (st : FormState)
    (body : RequestBody) :
  handleSubmit_request st = inr body ->
  passes_validation body = true
  /\ body_category body = Some (category st)
  /\ select_provider (body_provider body) = aiProvider st
  /\ body_isCompetitorMode body = isCompetitorMode st
  /\ body_brands body = Some (parse_brands (brandsInput st))
  /\ Forall (fun b =>
               b <> ""
               /\ no_space_around b
               /\ any_char (fun c => Ascii.eqb c ",") b = false
               /\ within b (brandsInput st))
       (parse_brands (brandsInput st))
  /\ body_mainBrand body
     = (if isCompetitorMode st then Some (trim (mainBrand st)) else None)
  /\ (isCompetitorMode st = true -> trim (mainBrand st) <> "").
Proof.
  unfold handleSubmit_request. cbv zeta.
  destruct (truthy (Some (category st))) eqn:Hcat; [|discriminate].
  cbn [negb orb].
  destruct (parse_brands (brandsInput st)) as [|b bs] eqn:Hbrands; [discriminate|].
  cbn [length Nat.eqb].
  destruct (isCompetitorMode st && negb (truthy (Some (trim (mainBrand st)))))
    eqn:Hmain; [discriminate|].
  intros [= <-].
  unfold passes_validation.
  cbn [body_category body_brands body_provider body_isCompetitorMode
       body_mainBrand].
  rewrite Hcat. cbn [andb].
  split.
  { destruct (isCompetitorMode st); [|reflexivity].
    cbn [andb] in *. rewrite Hmain. reflexivity. }
  split; [reflexivity|]. split; [apply select_provider_name|].
  split; [reflexivity|]. split; [reflexivity|].
  split; [rewrite <- Hbrands; apply parse_brands_spec|].
  split; [reflexivity|].
  intros Hmode. rewrite Hmode in Hmain. cbn [andb] in Hmain.
  apply negb_false_iff in Hmain. cbn [truthy] in Hmain.
  apply negb_true_iff, String.eqb_neq in Hmain. exact Hmain.
Qed.

End FormFacts.

(** ** The properties of the storage and of the form, on the scenarios *)

Section CheckedStored.
Import Scenario Stored.

(** The run is inserted and the brands cannot be fetched: the caller still
    gets the analysis, with the id of the run, and the console ends with the
    warning. *)
Lemma analysis_survives_brand_failure :
  exists result w',
    checkVisibility host_RegExp backend (new_AIService env) create
      getOrCreate_fails "CRM software" two_brands openai false None
      (world postgres) = (Ok result, w')
    /\ map count (mentions result) = [2; 1]
    /\ totalMentions result = 3
    /\ promptRunId result = Some 2
    /\ length (Db.prompt_runs (tables w')) = 2
    /\ Db.mentions (tables w') = []
    /\ last (console w')
       = Some (warn, "Failed to store visibility check in database").
Proof. eexists _, _. split; [vm_compute; reflexivity|]. by_evaluation. Qed.

(** The connection fails at the third round trip, which is the first
    mention upsert: the same. *)
Lemma analysis_survives_upsert_failure :
  exists result w',
    checkVisibility host_RegExp backend (new_AIService env) create getOrCreate
      "CRM software" two_brands openai false None
      (set_database one_run [false; false; true] (world postgres))
    = (Ok result, w')
    /\ map count (mentions result) = [2; 1]
    /\ totalMentions result = 3
    /\ promptRunId result = Some 2
    /\ length (Db.prompt_runs (tables w')) = 2
    /\ Db.mentions (tables w') = []
    /\ last (console w')
       = Some (warn, "Failed to store visibility check in database").
Proof. eexists _, _. split; [vm_compute; reflexivity|]. by_evaluation. Qed.

Lemma X14_witness :
  let w := world postgres in
  let w' := snd (initializeConnection createClient db_env w) in
  let supabaseUrl :=
    or_else (SUPABASE_URL db_env) (NEXT_PUBLIC_SUPABASE_URL db_env) in
  let supabaseKey :=
    or_else (SUPABASE_SERVICE_ROLE_KEY db_env) (SUPABASE_ANON_KEY db_env) in
  let conn := connection w' in
  Db.useSupabase conn = truthy supabaseUrl && truthy supabaseKey
  /\ Db.supabaseClient conn = Db.useSupabase conn
  /\ Db.pool conn = negb (Db.useSupabase conn)
  /\ (if Db.useSupabase conn then Db.supabaseClient conn else Db.pool conn) = true
  /\ tables w' = tables w
  /\ db_faults w' = db_faults w
  /\ net_log w' = net_log w.
Proof.
  apply (X14_connection_after_initialisation createClient db_env
           (world postgres)
           (snd (initializeConnection createClient db_env (world postgres)))).
  vm_compute. reflexivity.
Defined.

Lemma X17_witness :
  parseInt (decimal 20) = Some (Z.of_nat 20)
  /\ parseInt ("-" ++ decimal 20) = Some (- Z.of_nat 20)%Z
  /\ (forall c rest,
        JsString.is_digit c = false ->
        parseInt (decimal 20 ++ String c rest) = Some (Z.of_nat 20))
  /\ (forall params,
        History.limitParam params = Some (decimal 20) ->
        History.accepted_limit params
        = if (1 <=? 20) && (20 <=? 100) then Some (Z.of_nat 20) else None)
  /\ (forall params,
        History.offsetParam params = Some (decimal 20) ->
        History.accepted_offset params = Some (Z.of_nat 20)).
Proof.
  apply (X17_parseInt_reads_decimal_numbers 20).
  reflexivity.
Defined.

Lemma X18_witness :
  exists promptRuns kept w1,
    getAll 50 0 (logged debug "Fetching prompts with mentions" after_check)
    = (Ok promptRuns, w1)
    /\ sublist kept promptRuns
    /\ Forall2 entry_of kept [history_entry]
    /\ Forall (fun entry =>
                 Forall (fun status => History.brandName status <> "")
                   (History.brands entry))
         [history_entry]
    /\ (truthy (Some "hubspot") = false -> kept = promptRuns)
    /\ (forall wanted,
          Some "hubspot" = Some wanted -> wanted <> "" ->
          Forall (fun entry =>
                    History.hasBrand wanted (History.brands entry) = true)
            [history_entry]).
Proof.
  apply (X18_history_lists_runs_of_the_page getAll getById getByPromptRunId
           50 0 (Some "hubspot") after_check
           (snd (History.getPromptsWithMentions getAll getById getByPromptRunId
                   50 0 (Some "hubspot") after_check))
           [history_entry]).
  vm_compute. reflexivity.
Defined.

Lemma X19_witness :
  let w := world postgres in
  let w' := snd (getOrCreate "HubSpot" w) in
  JsString.toLowerCase (Db.name hubspot_row) = JsString.toLowerCase "HubSpot"
  /\ In hubspot_row (Db.brands (tables w'))
  /\ (Db.brands (tables w') = Db.brands (tables w)
      \/ Db.brands (tables w') = (Db.brands (tables w) ++ [hubspot_row])%list
         /\ Db.name hubspot_row = "HubSpot"
         /\ Forall (fun b => Models.same_name "HubSpot" b = false)
              (Db.brands (tables w)))
  /\ Db.prompt_runs (tables w') = Db.prompt_runs (tables w)
  /\ Db.mentions (tables w') = Db.mentions (tables w)
  /\ distinct_names (Db.brands (tables w'))
  /\ (forall other w1 r2 w2,
        JsString.toLowerCase other = JsString.toLowerCase "HubSpot" ->
        Db.useSupabase (connection w1) = false ->
        tables w1 = tables w' ->
        getOrCreate other w1 = (Ok r2, w2) ->
        r2 = hubspot_row /\ tables w2 = tables w1).
Proof.
  apply (X19_brand_is_found_or_created_once brands_id_seq no_supabase
           "HubSpot" (world postgres)
           (snd (getOrCreate "HubSpot" (world postgres))) hubspot_row).
  - reflexivity.
  - apply NoDup_singleton.
  - vm_compute. reflexivity.
Defined.

Lemma X20_witness :
  let w := world postgres in
  let outcome := create "CRM software" (Db.prompt new_run) reply "openai" w in
  let w' := snd outcome in
  Db.brands (tables w') = Db.brands (tables w)
  /\ Db.mentions (tables w') = Db.mentions (tables w)
  /\ match fst outcome with
     | inl _ => Db.prompt_runs (tables w') = Db.prompt_runs (tables w)
     | inr run =>
         Db.prompt_runs (tables w') = (Db.prompt_runs (tables w) ++ [run])%list
         /\ Db.run_category run = "CRM software"
         /\ Db.prompt run = Db.prompt new_run
         /\ Db.raw_response run = reply
         /\ Db.ai_provider run = "openai"
         /\ Db.run_created_at run = now w
         /\ Forall (fun old => Db.run_id old <> Db.run_id run)
              (Db.prompt_runs (tables w))
         /\ (forall w1 n w2,
               tables w1 = tables w' ->
               Db.useSupabase (connection w1) = false ->
               Models.PromptRunModel_getCount no_supabase w1 = (Ok n, w2) ->
               n = Some (Z.of_nat (S (length (Db.prompt_runs (tables w))))))
     end.
Proof.
  apply (X20_created_run_is_appended prompt_runs_id_seq no_supabase
           "CRM software" (Db.prompt new_run) reply "openai" (world postgres)).
  - reflexivity.
  - vm_compute. reflexivity.
Defined.

Lemma X21_witness :
  let w := after_check in
  let runs := new_run :: Db.prompt_runs one_run in
  let w' := snd (getAll 50 0 w) in
  tables w' = tables w
  /\ (0 <= 50)%Z /\ (0 <= 0)%Z
  /\ length runs
     = Nat.min (Z.to_nat 50) (length (Db.prompt_runs (tables w)) - Z.to_nat 0)
  /\ (forall run, In run runs -> In run (Db.prompt_runs (tables w)))
  /\ StronglySorted (fun a b => Db.run_created_at b <= Db.run_created_at a) runs
  /\ (0%Z = 0%Z ->
      forall run other,
        In run runs -> In other (Db.prompt_runs (tables w)) ->
        Db.run_created_at run < Db.run_created_at other -> In other runs).
Proof.
  apply (X21_history_page no_supabase 50 0 after_check
           (snd (getAll 50 0 after_check))
           (new_run :: Db.prompt_runs one_run)).
  - vm_compute. reflexivity.
  - vm_compute. reflexivity.
Defined.

Lemma X22_witness :
  let w := after_check in
  let route :=
    History.metrics_GET (Models.PromptRunModel_getCount no_supabase)
      (Models.BrandModel_getAll collation_le no_supabase) in
  exists response w',
    route w = (Ok response, w')
    /\ tables w' = tables w
    /\ match response with
       | Data m =>
           History.promptsTracked m
           = Some (Z.of_nat (length (Db.prompt_runs (tables w))))
           /\ History.brandsTracked m = length (Db.brands (tables w))
       | Problem status message =>
           status = 500
           /\ exists thrown w1,
                History.getMetrics (Models.PromptRunModel_getCount no_supabase)
                  (Models.BrandModel_getAll collation_le no_supabase)
                  (logged debug "Fetching dashboard metrics" w)
                = (Throw thrown, w1)
                /\ message = exn_message thrown
       end
    /\ (Db.pool (connection w) = true -> db_faults w = [] ->
        exists m, response = Data m).
Proof.
  apply (X22_metrics_count_the_rows collation_le no_supabase after_check).
  vm_compute. reflexivity.
Defined.

Lemma X23_witness :
  let w := world postgres in
  let outcome :=
    store_run create getOrCreate "CRM software" two_brands openai false None
      response reported w in
  let w' := snd outcome in
  exists run,
    fst outcome = Ok (Some (Db.run_id run))
    /\ Db.prompt_runs (tables w') = (Db.prompt_runs (tables w) ++ [run])%list
    /\ Db.run_category run = "CRM software"
    /\ Db.prompt run = stored_prompt "CRM software" two_brands false None
    /\ Db.raw_response run = text response
    /\ Db.ai_provider run = provider_name openai
    /\ Forall (stored_for (tables w') (Db.run_id run) reported) two_brands
    /\ (exists added,
          Db.brands (tables w') = (Db.brands (tables w) ++ added)%list)
    /\ List.filter (fun row => negb (Db.prompt_run_id row =? Db.run_id run))
         (Db.mentions (tables w'))
       = List.filter (fun row => negb (Db.prompt_run_id row =? Db.run_id run))
           (Db.mentions (tables w))
    /\ store_invariant w'
    /\ Forall (fun brandName =>
                 exists status,
                   In status (History.brands (entry_in (tables w') run))
                   /\ shown_as reported brandName status)
         two_brands.
Proof.
  apply (X23_stored_check_is_in_the_tables brands_id_seq prompt_runs_id_seq
           no_supabase "CRM software" two_brands openai false None response
           reported (world postgres)).
  - split; [reflexivity|]. split; [constructor | apply NoDup_singleton].
  - vm_compute. reflexivity.
  - vm_compute. reflexivity.
Defined.

Lemma X24_witness :
  let w := after_check in
  let outcome :=
    History.getPromptsWithMentions getAll getById getByPromptRunId 1 0 None w in
  tables (snd outcome) = tables w
  /\ forall entries,
       fst outcome = Ok entries ->
       entries
       = List.filter (passes_filter None)
           (map (entry_in (tables w)) (page (tables w) 1 0))
       /\ length entries <= Z.to_nat 1
       /\ StronglySorted
            (fun a b => History.timestamp b <= History.timestamp a) entries
       /\ Forall
            (fun entry =>
               Forall (status_of_rows (tables w) (History.id entry))
                 (History.brands entry)
               /\ StronglySorted
                    (fun a b => History.mentionCount b <= History.mentionCount a)
                    (History.brands entry))
            entries.
Proof.
  apply (X24_history_over_the_pool no_supabase 1 0 None after_check).
  - vm_compute. reflexivity.
  - vm_compute. reflexivity.
Defined.

Lemma X25_witness :
  let st := Form.filled_in in
  let body := competitor_request in
  passes_validation body = true
  /\ body_category body = Some (Form.category st)
  /\ select_provider (body_provider body) = Form.aiProvider st
  /\ body_isCompetitorMode body = Form.isCompetitorMode st
  /\ body_brands body = Some (Form.parse_brands (Form.brandsInput st))
  /\ Forall (fun b =>
               b <> ""
               /\ no_space_around b
               /\ any_char (fun c => Ascii.eqb c ",") b = false
               /\ within b (Form.brandsInput st))
       (Form.parse_brands (Form.brandsInput st))
  /\ body_mainBrand body
     = (if Form.isCompetitorMode st
        then Some (JsString.trim (Form.mainBrand st)) else None)
  /\ (Form.isCompetitorMode st = true ->
      JsString.trim (Form.mainBrand st) <> "").
Proof.
  apply (X25_submitted_form_passes_validation Form.filled_in competitor_request).
  vm_compute. reflexivity.
Defined.

End CheckedStored.
